(** * Viralyn storefront: catalog query, cart, review and history engine

    A shallow embedding of the state-update logic of [src/App.tsx] (with the
    seed data of [src/constants.ts] and the types of [src/types.ts]).

    Modelling conventions.
    - A JavaScript string is a [string]: one character per UTF-16 code unit,
      for strings whose code units are all below 256.
    - A JavaScript number that holds a count (quantity, number of reviews,
      stars of a review) is a [Z], a whole number below [2 ^ 53] in size,
      where sums of counts are exact.  A number that holds a price or a
      rating is a [Q]: in the data the decimal numeral written in the
      source or produced by [toFixed], which denotes the binary64 number
      nearest to it; in arithmetic the exact value of a binary64 number.
      Every arithmetic operation rounds its exact result to binary64
      ([JSNumber.binary64]: to nearest, ties to even, 53 bits, gradual
      underflow; results of [2 ^ 1024] and more, which JavaScript turns
      into Infinity, are outside the model, as is division by 0).
      [<=], [>=] and the sign of a difference are those of the numerals.
    - React state is a record; a handler is a function from state to state,
      and [setX (prev => e)] is the update of field X by that function. *)

From Stdlib Require Import List String Ascii Bool Arith ZArith NArith QArith.
From Stdlib Require Import Qround Qabs Qpower Lia Lqa Permutation Sorted.
Import ListNotations.

Local Open Scope string_scope.
Local Open Scope Z_scope.

(** ** Built-ins of the String prototype *)

Module JS.

(** The code-unit mapping of [String.prototype.toLowerCase] below 256:
    A-Z and the upper-case letters of Latin-1 (U+00C0..U+00DE but U+00D7)
    move up by 32, every other code unit is kept. *)
Definition lower_unit (c : ascii) : ascii :=
  let n := N_of_ascii c in
  if ((65 <=? n) && (n <=? 90) ||
      (192 <=? n) && (n <=? 222) && negb (n =? 215))%N
  then ascii_of_N (n + 32) else c.

Fixpoint toLowerCase (s : string) : string :=
  match s with
  | EmptyString => EmptyString
  | String c r => String (lower_unit c) (toLowerCase r)
  end.

(** [s.includes(t)]: [t] occurs in [s] as a contiguous run. *)
Fixpoint includes (s t : string) : bool :=
  if String.prefix t s then true
  else match s with
       | EmptyString => false
       | String _ r => includes r t
       end.

(** White space and line terminators below 256: TAB, LF, VT, FF, CR, SP
    and NBSP. *)
Definition isWhiteSpace (c : ascii) : bool :=
  let n := N_of_ascii c in
  ((9 <=? n) && (n <=? 13) || (n =? 32) || (n =? 160))%N.

Fixpoint trimStart (s : string) : string :=
  match s with
  | EmptyString => EmptyString
  | String c r => if isWhiteSpace c then trimStart r else s
  end.

Fixpoint trimEnd (s : string) : string :=
  match s with
  | EmptyString => EmptyString
  | String c r =>
      match trimEnd r with
      | EmptyString => if isWhiteSpace c then EmptyString else String c EmptyString
      | r' => String c r'
      end
  end.

Definition trim (s : string) : string := trimEnd (trimStart s).

(** Truthiness of a string: every string but the empty one. *)
Definition truthy (s : string) : bool :=
  match s with EmptyString => false | _ => true end.

(** [a.join(sep)] on an array of strings. *)
Fixpoint join (sep : string) (l : list string) : string :=
  match l with
  | [] => EmptyString
  | [x] => x
  | x :: r => x ++ sep ++ join sep r
  end.

End JS.

(** ** Data model ([src/types.ts]) *)

Inductive Category := Streaming | AI | Gaming | Productivity | Music.

Inductive Stock := InStock | LowStock | OutOfStock.

Definition Category_eqb (a b : Category) : bool :=
  match a, b with
  | Streaming, Streaming | AI, AI | Gaming, Gaming
  | Productivity, Productivity | Music, Music => true
  | _, _ => false
  end.

Definition Stock_eqb (a b : Stock) : bool :=
  match a, b with
  | InStock, InStock | LowStock, LowStock | OutOfStock, OutOfStock => true
  | _, _ => false
  end.

Module Review.
Record t := mk {
  id : string;
  userName : string;
  rating : Z;
  comment : string;
  date : string
}.
End Review.

Module Product.
Record t := mk {
  id : string;
  name : string;
  description : string;
  price : Q;
  originalPrice : Q;
  image : string;
  category : Category;
  rating : Q;
  reviews : Z;
  benefits : list string;
  stock : Stock;
  duration : string;
  userReviews : option (list Review.t)   (* [userReviews?: Review[]] *)
}.
End Product.

(** [CartItem extends Product]: the product's fields, copied, and a quantity. *)
Module CartItem.
Record t := mk {
  product : Product.t;
  quantity : Z
}.
Definition id (c : t) : string := Product.id (product c).
Definition name (c : t) : string := Product.name (product c).
Definition price (c : t) : Q := Product.price (product c).
End CartItem.

Inductive SortOption := featured | price_low | price_high | by_rating | by_name.

(** [Category | 'All'] *)
Inductive CategoryFilter := All | Only (c : Category).

(** ** Seed data ([src/constants.ts]) *)

Definition createMockReviews (productName : string) : list Review.t :=
  [ Review.mk "r1" "Alex Johnson" 5
      ("Absolutely love this " ++ productName ++ " deal. Saved so much money!")
      "2023-10-12";
    Review.mk "r2" "Sarah Miller" 4
      "Instant delivery as promised. Smooth setup."
      "2023-11-05" ].

Definition netflix_prem : Product.t :=
  Product.mk "netflix-prem" "Netflix Premium 4K"
    "Get access to unlimited movies, TV shows, and more. 4K HDR streaming on 4 screens."
    (499 # 100) (1999 # 100)
    "https://images.unsplash.com/photo-1574375927938-d5a98e8ffe85?w=800&q=80"
    Streaming (49 # 10) 1240
    ["4K UHD Quality"; "4 Simultaneous Screens"; "No Ads"; "All Devices Supported"]
    InStock "1 Month" (Some (createMockReviews "Netflix")).

Definition spotify_prem : Product.t :=
  Product.mk "spotify-prem" "Spotify Premium Family"
    "Millions of songs and podcasts. Play on all your devices. No ad interruptions."
    (250 # 100) (1599 # 100)
    "https://images.unsplash.com/photo-1614680376593-902f74cf0d41?w=800&q=80"
    Music (48 # 10) 850
    ["Ad-free music"; "Offline playback"; "High quality audio"; "Unlimited skips"]
    InStock "1 Month" (Some (createMockReviews "Spotify")).

Definition chatgpt_plus : Product.t :=
  Product.mk "chatgpt-plus" "ChatGPT Plus (Shared)"
    "Get the most out of ChatGPT with early access to new features and GPT-4."
    (899 # 100) (2000 # 100)
    "https://images.unsplash.com/photo-1677442136019-21780ecad995?w=800&q=80"
    AI (50 # 10) 2100
    ["GPT-4 Access"; "DALL-E 3 Included"; "Faster Response Time"; "Early Feature Access"]
    LowStock "1 Month" (Some (createMockReviews "ChatGPT")).

Definition youtube_prem : Product.t :=
  Product.mk "youtube-prem" "YouTube Premium"
    "Enjoy YouTube and YouTube Music ad-free, offline, and in the background."
    (399 # 100) (1399 # 100)
    "https://images.unsplash.com/photo-1611162617474-5b21e879e113?w=800&q=80"
    Streaming (47 # 10) 640
    ["No Ads"; "Background Play"; "YouTube Music Premium"; "Downloads"]
    InStock "1 Month" (Some (createMockReviews "YouTube")).

Definition xbox_gamepass : Product.t :=
  Product.mk "xbox-gamepass" "Xbox Game Pass Ultimate"
    "Play hundreds of high-quality games on console, PC and cloud."
    (599 # 100) (1699 # 100)
    "https://images.unsplash.com/photo-1605902711622-cfb43c4437b5?w=800&q=80"
    Gaming (49 # 10) 430
    ["EA Play Included"; "Cloud Gaming"; "Monthly Rewards"; "Access to Day One Releases"]
    InStock "1 Month" (Some (createMockReviews "Xbox")).

Definition canva_pro : Product.t :=
  Product.mk "canva-pro" "Canva Pro Lifetime"
    "Design like a professional with premium templates and stock media."
    (1299 # 100) (11999 # 100)
    "https://images.unsplash.com/photo-1626785774573-4b799315345d?w=800&q=80"
    Productivity (48 # 10) 920
    ["Unlimited Premium Assets"; "Brand Kit"; "One-Click Resize"; "AI Magic Studio"]
    InStock "Lifetime" (Some (createMockReviews "Canva")).

Definition PRODUCTS : list Product.t :=
  [netflix_prem; spotify_prem; chatgpt_plus; youtube_prem; xbox_gamepass; canva_pro].

(** ** The JSON text format, as [JSON.parse] and [JSON.stringify] read and
    write it

    [JSON.parse] is total here: a lexer that reads one code unit at a time
    and a parser that keeps the open arrays and objects on a stack.  [None]
    stands for the SyntaxError the built-in throws. *)

Module JSON.

#[local] Set Warnings "-register-all".

Inductive value :=
| Null
| Bool (b : bool)
| Number (lexeme : string)       (* the literal as written; its value is not used *)
| Str (units : list N)           (* code units; an escape may denote any 16-bit unit *)
| Array (elements : list value)
| Object (members : list (list N * value)).

Inductive token :=
| TLBrace | TRBrace | TLBracket | TRBracket | TColon | TComma
| TStr (units : list N) | TNum (lexeme : string)
| TTrue | TFalse | TNull.

(** *** Lexer *)

Inductive numstate :=
| NMinus | NZero | NInt | NDot | NFrac | NExp | NExpSign | NExpDigits.

Inductive mode :=
| Idle
| InString (acc : list N)
| InEscape (acc : list N)
| InUnicode (acc : list N) (k : nat) (v : N)
| InNumber (st : numstate) (acc : list ascii)
| InLiteral (rest : list ascii) (t : token).

Definition code (c : ascii) : N := N_of_ascii c.

Definition isDigit (c : ascii) : bool := ((48 <=? code c) && (code c <=? 57))%N.
Definition isDigit19 (c : ascii) : bool := ((49 <=? code c) && (code c <=? 57))%N.

Definition hexval (c : ascii) : option N :=
  let n := code c in
  if ((48 <=? n) && (n <=? 57))%N then Some (n - 48)%N
  else if ((97 <=? n) && (n <=? 102))%N then Some (n - 87)%N
  else if ((65 <=? n) && (n <=? 70))%N then Some (n - 55)%N
  else None.

(** JSON white space: TAB, LF, CR, SP. *)
Definition isWS (c : ascii) : bool :=
  let n := code c in ((n =? 9) || (n =? 10) || (n =? 13) || (n =? 32))%N.

Definition accepting (st : numstate) : bool :=
  match st with
  | NZero | NInt | NFrac | NExpDigits => true
  | _ => false
  end.

(** -? (0 | [1-9][0-9]* ) (.[0-9]+)? ([eE][+-]?[0-9]+)? *)
Definition num_step (st : numstate) (c : ascii) : option numstate :=
  let isE := ((code c =? 101) || (code c =? 69))%N in
  let isDot := (code c =? 46)%N in
  let isSign := ((code c =? 43) || (code c =? 45))%N in
  match st with
  | NMinus => if (code c =? 48)%N then Some NZero
              else if isDigit19 c then Some NInt else None
  | NZero => if isDot then Some NDot else if isE then Some NExp else None
  | NInt => if isDigit c then Some NInt
            else if isDot then Some NDot else if isE then Some NExp else None
  | NDot => if isDigit c then Some NFrac else None
  | NFrac => if isDigit c then Some NFrac else if isE then Some NExp else None
  | NExp => if isDigit c then Some NExpDigits
            else if isSign then Some NExpSign else None
  | NExpSign => if isDigit c then Some NExpDigits else None
  | NExpDigits => if isDigit c then Some NExpDigits else None
  end.

Definition lexeme_of (acc : list ascii) : string :=
  string_of_list_ascii (rev acc).

(** The code unit [c] read between two tokens. *)
Definition idle_step (c : ascii) : option (mode * list token) :=
  if isWS c then Some (Idle, [])
  else match c with
       | "{"%char => Some (Idle, [TLBrace])
       | "}"%char => Some (Idle, [TRBrace])
       | "["%char => Some (Idle, [TLBracket])
       | "]"%char => Some (Idle, [TRBracket])
       | ":"%char => Some (Idle, [TColon])
       | ","%char => Some (Idle, [TComma])
       | "034"%char => Some (InString [], [])
       | "-"%char => Some (InNumber NMinus [c], [])
       | "0"%char => Some (InNumber NZero [c], [])
       | "t"%char => Some (InLiteral (list_ascii_of_string "rue") TTrue, [])
       | "f"%char => Some (InLiteral (list_ascii_of_string "alse") TFalse, [])
       | "n"%char => Some (InLiteral (list_ascii_of_string "ull") TNull, [])
       | _ => if isDigit19 c then Some (InNumber NInt [c], []) else None
       end.

Definition escape_unit (c : ascii) : option N :=
  match c with
  | "034"%char => Some 34%N
  | "\"%char => Some 92%N
  | "/"%char => Some 47%N
  | "b"%char => Some 8%N
  | "f"%char => Some 12%N
  | "n"%char => Some 10%N
  | "r"%char => Some 13%N
  | "t"%char => Some 9%N
  | _ => None
  end.

Definition lex_step (m : mode) (c : ascii) : option (mode * list token) :=
  match m with
  | Idle => idle_step c
  | InString acc =>
      match c with
      | "034"%char => Some (Idle, [TStr (rev acc)])
      | "\"%char => Some (InEscape acc, [])
      | _ => if (code c <? 32)%N then None else Some (InString (code c :: acc), [])
      end
  | InEscape acc =>
      match escape_unit c with
      | Some u => Some (InString (u :: acc), [])
      | None => match c with
                | "u"%char => Some (InUnicode acc 4 0%N, [])
                | _ => None
                end
      end
  | InUnicode acc k v =>
      match hexval c with
      | Some h =>
          let v' := (16 * v + h)%N in
          match k with
          | 0%nat | 1%nat => Some (InString (v' :: acc), [])
          | S k' => Some (InUnicode acc k' v', [])
          end
      | None => None
      end
  | InNumber st acc =>
      match num_step st c with
      | Some st' => Some (InNumber st' (c :: acc), [])
      | None =>
          if accepting st then
            match idle_step c with
            | Some (m', ts) => Some (m', TNum (lexeme_of acc) :: ts)
            | None => None
            end
          else None
      end
  | InLiteral rest t =>
      match rest with
      | [] => None
      | x :: rest' =>
          if Ascii.eqb c x then
            match rest' with
            | [] => Some (Idle, [t])
            | _ => Some (InLiteral rest' t, [])
            end
          else None
      end
  end.

(** The tokens of a text, or [None] when it has no tokenisation. *)
Fixpoint lex_from (m : mode) (s : list ascii) : option (list token) :=
  match s with
  | [] =>
      match m with
      | Idle => Some []
      | InNumber st acc => if accepting st then Some [TNum (lexeme_of acc)] else None
      | _ => None
      end
  | c :: r =>
      match lex_step m c with
      | Some (m', ts) =>
          match lex_from m' r with
          | Some ts' => Some (ts ++ ts')%list
          | None => None
          end
      | None => None
      end
  end.

Definition lex (s : string) : option (list token) :=
  lex_from Idle (list_ascii_of_string s).

(** *** Parser *)

(** An array or object still open, with what it holds so far (last first);
    an open object also holds the key whose value is being read. *)
Inductive frame :=
| FArray (done : list value)
| FObject (done : list (list N * value)) (key : list N).

Inductive pstate :=
| Want (stk : list frame)                      (* a value comes next *)
| AfterOpenArray (stk : list frame)            (* a value or ] *)
| AfterOpenObject (stk : list frame)           (* a key or } *)
| WantKey (done : list (list N * value)) (stk : list frame)
| WantColon (done : list (list N * value)) (key : list N) (stk : list frame)
| Have (v : value) (stk : list frame).         (* a value is complete *)

Definition want (stk : list frame) (t : token) : option pstate :=
  match t with
  | TNull => Some (Have Null stk)
  | TTrue => Some (Have (Bool true) stk)
  | TFalse => Some (Have (Bool false) stk)
  | TNum l => Some (Have (Number l) stk)
  | TStr u => Some (Have (Str u) stk)
  | TLBracket => Some (AfterOpenArray stk)
  | TLBrace => Some (AfterOpenObject stk)
  | _ => None
  end.

Definition parse_step (p : pstate) (t : token) : option pstate :=
  match p with
  | Want stk => want stk t
  | AfterOpenArray stk =>
      match t with
      | TRBracket => Some (Have (Array []) stk)
      | _ => want (FArray [] :: stk) t
      end
  | AfterOpenObject stk =>
      match t with
      | TRBrace => Some (Have (Object []) stk)
      | TStr k => Some (WantColon [] k stk)
      | _ => None
      end
  | WantKey done stk =>
      match t with
      | TStr k => Some (WantColon done k stk)
      | _ => None
      end
  | WantColon done k stk =>
      match t with
      | TColon => Some (Want (FObject done k :: stk))
      | _ => None
      end
  | Have v stk =>
      match stk, t with
      | FArray done :: stk', TComma => Some (Want (FArray (v :: done) :: stk'))
      | FArray done :: stk', TRBracket => Some (Have (Array (rev (v :: done))) stk')
      | FObject done k :: stk', TComma => Some (WantKey ((k, v) :: done) stk')
      | FObject done k :: stk', TRBrace =>
          Some (Have (Object (rev ((k, v) :: done))) stk')
      | _, _ => None
      end
  end.

Fixpoint parse_from (p : pstate) (ts : list token) : option value :=
  match ts with
  | [] => match p with
          | Have v [] => Some v
          | _ => None
          end
  | t :: r => match parse_step p t with
              | Some p' => parse_from p' r
              | None => None
              end
  end.

(** [JSON.parse(text)]: the value, or [None] for a SyntaxError. *)
Definition parse (text : string) : option value :=
  match lex text with
  | Some ts => parse_from (Want []) ts
  | None => None
  end.

(** *** [JSON.stringify] on an array of strings *)

Definition hexdigit (n : N) : ascii :=
  if (n <? 10)%N then ascii_of_N (48 + n) else ascii_of_N (87 + n).

Definition quote_unit (c : ascii) : string :=
  let n := code c in
  match c with
  | "034"%char => String "\" (String "034" EmptyString)
  | "\"%char => "\\"
  | "008"%char => "\b"
  | "012"%char => "\f"
  | "010"%char => "\n"
  | "013"%char => "\r"
  | "009"%char => "\t"
  | _ => if (n <? 32)%N
         then "\u00" ++ String (hexdigit (n / 16)) (String (hexdigit (n mod 16)) EmptyString)
         else String c EmptyString
  end.

Fixpoint quote_body (s : string) : string :=
  match s with
  | EmptyString => EmptyString
  | String c r => quote_unit c ++ quote_body r
  end.

Definition quote (s : string) : string :=
  String "034" (quote_body s ++ String "034" EmptyString).

Definition stringify (ids : list string) : string :=
  "[" ++ JS.join "," (map quote ids) ++ "]".

(** The value read as an array of strings (of code units below 256). *)
Definition unit_ascii (n : N) : option ascii :=
  if (n <? 256)%N then Some (ascii_of_N n) else None.

Fixpoint string_of_units (u : list N) : option string :=
  match u with
  | [] => Some EmptyString
  | n :: r => match unit_ascii n, string_of_units r with
              | Some c, Some s => Some (String c s)
              | _, _ => None
              end
  end.

Fixpoint strings_of (l : list value) : option (list string) :=
  match l with
  | [] => Some []
  | Str u :: r => match string_of_units u, strings_of r with
                  | Some s, Some ss => Some (s :: ss)
                  | _, _ => None
                  end
  | _ :: _ => None
  end.

Definition as_string_array (v : value) : option (list string) :=
  match v with
  | Array l => strings_of l
  | _ => None
  end.

(** The code units of a string, and the value an array of strings denotes. *)
Definition units (s : string) : list N := map code (list_ascii_of_string s).

Definition of_strings (ids : list string) : value :=
  Array (map (fun s => Str (units s)) ids).

(** Tokens put in front of the tokens of the rest of a text, if it has any. *)
Definition emit (ts : list token) (o : option (list token))
    : option (list token) :=
  match o with
  | Some ts' => Some (ts ++ ts')%list
  | None => None
  end.

(** The tokens of the text of an array of strings, brackets apart. *)
Fixpoint tokens_of (ids : list string) : list token :=
  match ids with
  | [] => []
  | [x] => [TStr (units x)]
  | x :: r => TStr (units x) :: TComma :: tokens_of r
  end.

End JSON.

(** ** Built-ins of the Array and Number prototypes *)

Module JSArray.

Section Sort.
Context {A : Type}.
(** [comparator a b] is the number the comparison callback returns. *)
Variable comparator : A -> A -> Q.

(** [x] goes before the first element it does not compare greater than. *)
Fixpoint insert (x : A) (l : list A) : list A :=
  match l with
  | [] => [x]
  | y :: r => if Qle_bool (comparator x y) 0 then x :: l else y :: insert x r
  end.

(** [Array.prototype.sort(comparator)]: the order is the one a stable
    sort produces (ECMAScript 2019 and later); the elements are taken
    from the left, each kept ahead of those it is not greater than. *)
Definition sort (l : list A) : list A := fold_right insert [] l.
End Sort.

(** [a.slice(0, n)] *)
Definition slice0 {A : Type} (n : nat) (l : list A) : list A := firstn n l.

(** [a.some(f)] and [a.includes(x)] *)
Definition some {A : Type} (f : A -> bool) (l : list A) : bool := existsb f l.
Definition includes (x : string) (l : list string) : bool :=
  existsb (String.eqb x) l.

End JSArray.

Module JSNumber.

(** *** Binary64 arithmetic *)

(** [floor (log2 q)] for a positive [q]: the difference of the bit lengths
    of numerator and denominator, or one less. *)
Definition exponent (q : Q) : Z :=
  let d := Z.log2 (Qnum q) - Z.log2 (Zpos (Qden q)) in
  if Qle_bool (2 ^ d) q then d else d - 1.

(** The whole number nearest to [y], the even one of the two when [y] is
    halfway between them. *)
Definition nearestEven (y : Q) : Z :=
  let f := Qfloor y in
  match (y - inject_Z f ?= 1 # 2)%Q with
  | Lt => f
  | Eq => if Z.even f then f else f + 1
  | Gt => f + 1
  end.

(** The exponent of the unit in the last place: 52 below that of the
    number, and never below -1074, the unit of the subnormal numbers. *)
Definition ulpExponent (q : Q) : Z := Z.max (exponent q - 52) (-1074).

Definition roundPositive (q : Q) : Q :=
  let e := ulpExponent q in
  (inject_Z (nearestEven (q / 2 ^ e)) * 2 ^ e)%Q.

(** The binary64 number nearest to [q], the one with an even significand
    on a tie; the sign is set apart. *)
Definition binary64 (q : Q) : Q :=
  Qred match (q ?= 0)%Q with
       | Eq => 0
       | Gt => roundPositive q
       | Lt => - roundPositive (- q)
       end%Q.

(** [x + y], [x - y], [x * y] and [x / y] on binary64 numbers: the exact
    result, rounded. *)
Definition add (x y : Q) : Q := binary64 (x + y).
Definition sub (x y : Q) : Q := binary64 (x - y).
Definition mul (x y : Q) : Q := binary64 (x * y).
Definition div (x y : Q) : Q := binary64 (x / y).

(** *** [toFixed] *)

(** [x.toFixed(1)] on the binary64 number [x], as the integer [n] whose
    decimal numeral with one fractional digit is the string returned: the
    sign is set apart, and [n / 10] is as close to [|x|] as possible, the
    larger [n] on a tie. *)
Definition toFixed1 (x : Q) : Z :=
  if Qle_bool 0 x then Qfloor (x * 10 + (1 # 2))
  else - Qfloor (- x * 10 + (1 # 2)).

(** [Number(s)] on such a numeral: the numeral itself, denoting the number
    nearest to it. *)
Definition ofFixed1 (n : Z) : Q := n # 10.

End JSNumber.

(** ** Application state ([App], [src/App.tsx]) *)

Record State := mkState {
  products : list Product.t;
  cart : list CartItem.t;
  isCartOpen : bool;
  selectedProduct : option Product.t;
  searchQuery : string;
  activeCategory : CategoryFilter;
  wishlist : list string;
  recentlyViewedIds : list string;
  priceRange : Q * Q;
  minRating : Q;
  stockOnly : bool;
  sortBy : SortOption;
  showFilters : bool
}.

(** The values the [useState] calls start from. *)
Definition initial : State :=
  {| products := PRODUCTS;
     cart := [];
     isCartOpen := false;
     selectedProduct := None;
     searchQuery := "";
     activeCategory := All;
     wishlist := [];
     recentlyViewedIds := [];
     priceRange := (0, 50 # 1)%Q;
     minRating := 0%Q;
     stockOnly := false;
     sortBy := featured;
     showFilters := false |}.

(** The state setters, each given the function of the previous value. *)
Definition setProducts (f : list Product.t -> list Product.t) (s : State) : State :=
  mkState (f (products s)) (cart s) (isCartOpen s) (selectedProduct s)
    (searchQuery s) (activeCategory s) (wishlist s) (recentlyViewedIds s)
    (priceRange s) (minRating s) (stockOnly s) (sortBy s) (showFilters s).

Definition setCart (f : list CartItem.t -> list CartItem.t) (s : State) : State :=
  mkState (products s) (f (cart s)) (isCartOpen s) (selectedProduct s)
    (searchQuery s) (activeCategory s) (wishlist s) (recentlyViewedIds s)
    (priceRange s) (minRating s) (stockOnly s) (sortBy s) (showFilters s).

Definition setIsCartOpen (b : bool) (s : State) : State :=
  mkState (products s) (cart s) b (selectedProduct s)
    (searchQuery s) (activeCategory s) (wishlist s) (recentlyViewedIds s)
    (priceRange s) (minRating s) (stockOnly s) (sortBy s) (showFilters s).

Definition setSelectedProduct (f : option Product.t -> option Product.t)
    (s : State) : State :=
  mkState (products s) (cart s) (isCartOpen s) (f (selectedProduct s))
    (searchQuery s) (activeCategory s) (wishlist s) (recentlyViewedIds s)
    (priceRange s) (minRating s) (stockOnly s) (sortBy s) (showFilters s).

Definition setWishlist (f : list string -> list string) (s : State) : State :=
  mkState (products s) (cart s) (isCartOpen s) (selectedProduct s)
    (searchQuery s) (activeCategory s) (f (wishlist s)) (recentlyViewedIds s)
    (priceRange s) (minRating s) (stockOnly s) (sortBy s) (showFilters s).

Definition setRecentlyViewedIds (f : list string -> list string) (s : State) : State :=
  mkState (products s) (cart s) (isCartOpen s) (selectedProduct s)
    (searchQuery s) (activeCategory s) (wishlist s) (f (recentlyViewedIds s))
    (priceRange s) (minRating s) (stockOnly s) (sortBy s) (showFilters s).

(** The price slider: [setPriceRange([0, parseInt(e.target.value)])]. *)
Definition setMaxPrice (v : Z) (s : State) : State :=
  mkState (products s) (cart s) (isCartOpen s) (selectedProduct s)
    (searchQuery s) (activeCategory s) (wishlist s) (recentlyViewedIds s)
    (0%Q, inject_Z v) (minRating s) (stockOnly s) (sortBy s) (showFilters s).

(** *** The catalog query: [filteredProducts] *)

Definition CategoryFilter_eqb (a b : CategoryFilter) : bool :=
  match a, b with
  | All, All => true
  | Only x, Only y => Category_eqb x y
  | _, _ => false
  end.

Definition matchesSearch (s : State) (p : Product.t) : bool :=
  JS.includes (JS.toLowerCase (Product.name p)) (JS.toLowerCase (searchQuery s)).

Definition matchesCategory (s : State) (p : Product.t) : bool :=
  CategoryFilter_eqb (activeCategory s) All
  || CategoryFilter_eqb (Only (Product.category p)) (activeCategory s).

Definition matchesPrice (s : State) (p : Product.t) : bool :=
  Qle_bool (fst (priceRange s)) (Product.price p)
  && Qle_bool (Product.price p) (snd (priceRange s)).

Definition matchesRating (s : State) (p : Product.t) : bool :=
  Qle_bool (minRating s) (Product.rating p).

Definition matchesStock (s : State) (p : Product.t) : bool :=
  negb (stockOnly s) || Stock_eqb (Product.stock p) InStock.

(** The callback of [products.filter]. *)
Definition matches (s : State) (p : Product.t) : bool :=
  matchesSearch s p && matchesCategory s p && matchesPrice s p
  && matchesRating s p && matchesStock s p.

(** The comparison callbacks of the [switch (sortBy)]; [None] is the
    [default] branch, which does not sort.  [localeCompare] is the host's
    collation of two strings (negative, zero or positive). *)
Definition comparatorOf (localeCompare : string -> string -> Z) (o : SortOption)
    : option (Product.t -> Product.t -> Q) :=
  match o with
  | price_low => Some (fun a b => Product.price a - Product.price b)%Q
  | price_high => Some (fun a b => Product.price b - Product.price a)%Q
  | by_rating => Some (fun a b => Product.rating b - Product.rating a)%Q
  | by_name => Some (fun a b =>
                 inject_Z (localeCompare (Product.name a) (Product.name b)))
  | featured => None
  end.

Definition filteredProducts (localeCompare : string -> string -> Z) (s : State)
    : list Product.t :=
  let result := filter (matches s) (products s) in
  match comparatorOf localeCompare (sortBy s) with
  | Some comparator => JSArray.sort comparator result
  | None => result
  end.

(** The same computation on a store of array objects: [filter] allocates
    the array it returns, [sort] rewrites in place the array it is called
    on.  An address is the index of an array in the store. *)
Module Mem.
Definition store := list (list Product.t).
Definition read (h : store) (a : nat) : list Product.t := nth a h [].
Definition alloc (h : store) (l : list Product.t) : store * nat :=
  ((h ++ [l])%list, List.length h).
Fixpoint write (h : store) (a : nat) (l : list Product.t) : store :=
  match h, a with
  | [], _ => []
  | _ :: r, O => l :: r
  | x :: r, S a' => x :: write r a' l
  end.
Definition filter (f : Product.t -> bool) (h : store) (a : nat) : store * nat :=
  alloc h (List.filter f (read h a)).
Definition sort (comparator : Product.t -> Product.t -> Q) (h : store) (a : nat)
    : store :=
  write h a (JSArray.sort comparator (read h a)).
End Mem.

(** [productsAt] is the address of the array held by the [products] state;
    the result is the store afterwards and the address of the array returned. *)
Definition filteredProducts_mem (localeCompare : string -> string -> Z)
    (s : State) (h : Mem.store) (productsAt : nat) : Mem.store * nat :=
  let '(h1, result) := Mem.filter (matches s) h productsAt in
  match comparatorOf localeCompare (sortBy s) with
  | Some comparator => (Mem.sort comparator h1 result, result)
  | None => (h1, result)
  end.

(** *** History, cart and wishlist handlers *)

Definition trackRecentlyViewed (p : Product.t) (s : State) : State :=
  setRecentlyViewedIds
    (fun prev =>
       let filtered := filter (fun id => negb (String.eqb id (Product.id p))) prev in
       JSArray.slice0 10 (Product.id p :: filtered))
    s.

Definition addToCart (product : Product.t) (quantity : Z) (s : State) : State :=
  let s1 :=
    setCart
      (fun prev =>
         match find (fun item => String.eqb (CartItem.id item) (Product.id product)) prev with
         | Some existing =>
             map (fun item =>
                    if String.eqb (CartItem.id item) (Product.id product)
                    then CartItem.mk (CartItem.product item)
                           (CartItem.quantity item + quantity)
                    else item)
                 prev
         | None => (prev ++ [CartItem.mk product quantity])%list
         end)
      s in
  let s2 := trackRecentlyViewed product s1 in
  setIsCartOpen true s2.

Definition removeFromCart (id : string) (s : State) : State :=
  setCart (filter (fun item => negb (String.eqb (CartItem.id item) id))) s.

Definition updateQuantity (id : string) (q : Z) (s : State) : State :=
  if q <=? 0 then removeFromCart id s
  else
    setCart
      (map (fun item =>
              if String.eqb (CartItem.id item) id
              then CartItem.mk (CartItem.product item) q
              else item))
      s.

Definition toggleWishlist (id : string) (s : State) : State :=
  setWishlist
    (fun prev =>
       if JSArray.includes id prev
       then filter (fun i => negb (String.eqb i id)) prev
       else (prev ++ [id])%list)
    s.

Definition openQuickView (p : Product.t) (s : State) : State :=
  trackRecentlyViewed p (setSelectedProduct (fun _ => Some p) s).

Definition clearHistory (s : State) : State :=
  setRecentlyViewedIds (fun _ => []) s.

(** [cart.reduce((acc, item) => acc + item.price * item.quantity, 0)] and the
    badge count [cart.reduce((acc, item) => acc + item.quantity, 0)].  The
    price is the number its numeral denotes; the product and the sum are
    rounded at every step. *)
Definition total (cart : list CartItem.t) : Q :=
  fold_left (fun acc item =>
               JSNumber.add acc
                 (JSNumber.mul (JSNumber.binary64 (CartItem.price item))
                               (inject_Z (CartItem.quantity item))))
            cart 0%Q.

Definition cartCount (cart : list CartItem.t) : Z :=
  fold_left (fun acc item => acc + CartItem.quantity item) cart 0.

(** *** Reviews: [handleAddReview] *)

(** [p.userReviews || []] *)
Definition userReviewsOrEmpty (p : Product.t) : list Review.t :=
  match Product.userReviews p with
  | Some l => l
  | None => []
  end.

(** [p.reviews || 0]: zero is the one falsy count. *)
Definition reviewsOrZero (p : Product.t) : Z :=
  if Product.reviews p =? 0 then 0 else Product.reviews p.

(** [updatedReviews.reduce((acc, r) => acc + r.rating, 0)] *)
Definition ratingSum (l : list Review.t) : Z :=
  fold_left (fun acc r => acc + Review.rating r) l 0.

(** [Number((sum / updatedReviews.length).toFixed(1))]: the quotient is
    the binary64 one, and [toFixed] rounds that. *)
Definition newRating (updatedReviews : list Review.t) : Q :=
  JSNumber.ofFixed1
    (JSNumber.toFixed1
       (JSNumber.div (inject_Z (ratingSum updatedReviews))
                     (inject_Z (Z.of_nat (List.length updatedReviews))))).

(** [{ ...p, userReviews: updatedReviews, rating: newRating,
       reviews: (p.reviews || 0) + 1 }] *)
Definition withReview (review : Review.t) (p : Product.t) : Product.t :=
  let updatedReviews := review :: userReviewsOrEmpty p in
  Product.mk (Product.id p) (Product.name p) (Product.description p)
    (Product.price p) (Product.originalPrice p) (Product.image p)
    (Product.category p) (newRating updatedReviews) (reviewsOrZero p + 1)
    (Product.benefits p) (Product.stock p) (Product.duration p)
    (Some updatedReviews).

Definition handleAddReview (productId : string) (review : Review.t) (s : State)
    : State :=
  let s1 :=
    setProducts
      (map (fun p => if String.eqb (Product.id p) productId
                     then withReview review p else p))
      s in
  setSelectedProduct
    (fun prev =>
       match prev with
       | Some p => if String.eqb (Product.id p) productId
                   then Some (withReview review p) else prev
       | None => prev
       end)
    s1.

(** *** The review form of [QuickViewModal] *)

Record ModalState := mkModal {
  qty : Z;
  reviewRating : Z;
  reviewComment : string
}.

(** [now] is [Date.now().toString()] and [today] the date part of
    [new Date().toISOString()], both read from the clock; [onAddReview] is
    the property the modal was given, [handleAddReview] in [App]. *)
Definition handleSubmitReview (now today : string) (product : Product.t)
    (m : ModalState) (s : State) : ModalState * State :=
  if negb (JS.truthy (JS.trim (reviewComment m))) then (m, s)
  else
    let newReview :=
      Review.mk now "Demo User" (reviewRating m) (reviewComment m) today in
    let s' := handleAddReview (Product.id product) newReview s in
    (mkModal (qty m) 5 "", s').

(** *** Recommendations of [CartDrawer] *)

(** The list the callback of the effect computes from the names that
    [getSmartRecommendations] resolves to and from [cart], the cart of the
    render whose effect asked (the drawer open, the cart not empty).  The
    callback sets it whenever the answer arrives, also after the drawer was
    closed or the cart changed: the effect has no cleanup. *)
Definition suggested (names : list string) (cart : list CartItem.t)
    : list Product.t :=
  JSArray.slice0 3
    (filter
       (fun p =>
          JSArray.some
            (fun n => JS.includes (JS.toLowerCase (Product.name p)) (JS.toLowerCase n))
            names
          && negb (JSArray.some
                     (fun c => String.eqb (CartItem.id c) (Product.id p)) cart))
       PRODUCTS).

(** [recommendations.forEach(p => onAddToCart(p, 1))], the "add all" button
    of the drawer; [onAddToCart] is [addToCart] in [App]. *)
Definition handleAddAll (recommendations : list Product.t) (s : State) : State :=
  fold_left (fun s p => addToCart p 1 s) recommendations s.

Definition userInterests (cart : list CartItem.t) : string :=
  JS.join ", " (map CartItem.name cart).

(** *** Persistence *)

(** The two entries of [localStorage]; [None] is the [null] that [getItem]
    returns for a key that is not there. *)
Record Storage := mkStorage {
  viralyn_wishlist : option string;
  viralyn_recently : option string
}.

Inductive completion (A : Type) :=
| Normal (a : A)
| Throw.                       (* the SyntaxError of [JSON.parse], not caught *)
Arguments Normal {A} a.
Arguments Throw {A}.

Inductive setterCall :=
| SetWishlist (v : JSON.value)
| SetRecentlyViewedIds (v : JSON.value).

(** [if (saved) setter(JSON.parse(saved))]: nothing for [null] and for the
    empty string, both falsy. *)
Definition loadEntry (saved : option string) (setter : JSON.value -> setterCall)
    : completion (list setterCall) :=
  match saved with
  | None => Normal []
  | Some text =>
      if JS.truthy text then
        match JSON.parse text with
        | Some v => Normal [setter v]
        | None => Throw
        end
      else Normal []
  end.

(** The effect run once on mount: the setter calls it makes, in order, or
    the exception that ends it. *)
Definition persistenceInit (st : Storage) : completion (list setterCall) :=
  let savedWishlist := viralyn_wishlist st in
  let savedRecently := viralyn_recently st in
  match loadEntry savedWishlist SetWishlist with
  | Throw => Throw
  | Normal c1 =>
      match loadEntry savedRecently SetRecentlyViewedIds with
      | Throw => Throw
      | Normal c2 => Normal (c1 ++ c2)%list
      end
  end.

(** A setter call on the typed state; [None] when the value is not an array
    of strings, which the state's declared type does not describe. *)
Definition applyCall (c : setterCall) (s : State) : option State :=
  match c with
  | SetWishlist v =>
      option_map (fun l => setWishlist (fun _ => l) s) (JSON.as_string_array v)
  | SetRecentlyViewedIds v =>
      option_map (fun l => setRecentlyViewedIds (fun _ => l) s) (JSON.as_string_array v)
  end.

Fixpoint applyCalls (cs : list setterCall) (s : State) : option State :=
  match cs with
  | [] => Some s
  | c :: r => match applyCall c s with
              | Some s' => applyCalls r s'
              | None => None
              end
  end.

(** The effects that write the two entries back whenever they change. *)
Definition persist (s : State) : Storage :=
  {| viralyn_wishlist := Some (JSON.stringify (wishlist s));
     viralyn_recently := Some (JSON.stringify (recentlyViewedIds s)) |}.

(** ** Reference notions the statements below are phrased with *)

(** [Subsequence l1 l2]: [l1] is [l2] with some elements left out, in the
    same order. *)
Inductive Subsequence {A : Type} : list A -> list A -> Prop :=
| Subsequence_nil : Subsequence [] []
| Subsequence_skip x l1 l2 : Subsequence l1 l2 -> Subsequence l1 (x :: l2)
| Subsequence_keep x l1 l2 : Subsequence l1 l2 -> Subsequence (x :: l1) (x :: l2).

(** Matching without regard to case, said without [toLowerCase].  A code
    unit is a capital when it is one of A to Z or one of the capitals of
    Latin-1 (U+00C0 to U+00DE, but not the sign U+00D7); its small letter
    is 32 further on.  Two code units are the same letter when they are
    equal or one is the small letter of the other. *)
Definition capital (c : ascii) : Prop :=
  let n := nat_of_ascii c in
  (65 <= n <= 90)%nat \/ ((192 <= n <= 222)%nat /\ n <> 215%nat).

Definition smallOf (c d : ascii) : Prop :=
  capital c /\ nat_of_ascii d = (nat_of_ascii c + 32)%nat.

Definition sameLetter (c d : ascii) : Prop :=
  c = d \/ smallOf c d \/ smallOf d c.

Inductive equalIgnoringCase : string -> string -> Prop :=
| equalIgnoringCase_nil : equalIgnoringCase "" ""
| equalIgnoringCase_cons c d s t :
    sameLetter c d -> equalIgnoringCase s t ->
    equalIgnoringCase (String c s) (String d t).

(** [text] occurs in [s], case apart: a run of [s] equals it. *)
Definition containsIgnoringCase (s text : string) : Prop :=
  exists before run after,
    s = before ++ run ++ after /\ equalIgnoringCase run text.

(** The five conditions of the catalog filter, named so that one can be
    left out. *)
Inductive condition := OnSearch | OnCategory | OnPrice | OnRating | OnStock.

Definition conditions : list condition :=
  [OnSearch; OnCategory; OnPrice; OnRating; OnStock].

Definition condition_eqb (a b : condition) : bool :=
  match a, b with
  | OnSearch, OnSearch | OnCategory, OnCategory | OnPrice, OnPrice
  | OnRating, OnRating | OnStock, OnStock => true
  | _, _ => false
  end.

Definition holds (s : State) (p : Product.t) (c : condition) : bool :=
  match c with
  | OnSearch => matchesSearch s p
  | OnCategory => matchesCategory s p
  | OnPrice => matchesPrice s p
  | OnRating => matchesRating s p
  | OnStock => matchesStock s p
  end.

(** The filter with the condition [dropped] removed. *)
Definition matchesWithout (dropped : condition) (s : State) (p : Product.t) : bool :=
  forallb (holds s p) (filter (fun c => negb (condition_eqb c dropped)) conditions).

(** The rank of a product among the fragments: the position of the first
    fragment its name contains, ignoring case. *)
Fixpoint firstFragment (names : list string) (p : Product.t) : option nat :=
  match names with
  | [] => None
  | n :: r =>
      if JS.includes (JS.toLowerCase (Product.name p)) (JS.toLowerCase n)
      then Some O
      else option_map S (firstFragment r p)
  end.

(** Whether a list of ranks never goes down: what "ordered by the order
    the fragments were returned" asks of the ranks of a result. *)
Fixpoint ranksAscend (l : list (option nat)) : bool :=
  match l with
  | Some i :: ((Some j :: _) as r) => (i <=? j)%nat && ranksAscend r
  | _ :: r => ranksAscend r
  | [] => true
  end.

Definition fragmentOrdered (names : list string) (l : list Product.t) : bool :=
  ranksAscend (map (firstFragment names) l).

(** The arithmetic mean of the stars of a list of reviews. *)
Definition meanRating (l : list Review.t) : Q :=
  inject_Z (fold_right Z.add 0 (map Review.rating l))
  / inject_Z (Z.of_nat (List.length l)).

(** The same quotient as the machine computes it. *)
Definition machineMean (l : list Review.t) : Q :=
  JSNumber.div (inject_Z (fold_right Z.add 0 (map Review.rating l)))
               (inject_Z (Z.of_nat (List.length l))).

(** Rounding a number that is not negative to one decimal: to the nearest
    number of one decimal, and on a tie to the larger one (half up, which
    is half away from zero here) or to the one with an even last digit
    (banker's rounding).  [halfwayTenth x]: [x] is such a tie, halfway
    between two numbers of one decimal. *)
Definition halfUpTenth (x : Q) : Q := Qfloor (x * 10 + (1 # 2)) # 10.


Definition halfwayTenth (x : Q) : Prop :=
  exists j : Z, (x * 20 == inject_Z (2 * j + 1))%Q.

(** Stars for which the machine's quotient is near enough to the mean:
    each is at least 1, and twenty times their sum is below [2 ^ 53]. *)
Definition plainStars (l : list Review.t) : Prop :=
  Forall (fun r => 1 <= Review.rating r) l
  /\ 20 * fold_right Z.add 0 (map Review.rating l) < 2 ^ 53.

(** The cart operations, to speak of any sequence of them. *)
Inductive cartAction :=
| Add (p : Product.t) (q : Z)
| UpdateQuantity (id : string) (q : Z)
| Remove (id : string).

Definition act (s : State) (a : cartAction) : State :=
  match a with
  | Add p q => addToCart p q s
  | UpdateQuantity id q => updateQuantity id q s
  | Remove id => removeFromCart id s
  end.

(** The quantity the cart holds of a product: that of the item [find]
    returns, none when there is no such item. *)
Definition quantityOf (id : string) (cart : list CartItem.t) : Z :=
  match find (fun item => String.eqb (CartItem.id item) id) cart with
  | Some item => CartItem.quantity item
  | None => 0
  end.

(** A collation that compares code units, for concrete runs of the sort by
    name. *)
Definition ordinalCompare (a b : string) : Z :=
  match String.compare a b with
  | Lt => -1
  | Eq => 0
  | Gt => 1
  end.

(** The catalog query with one condition removed. *)
Definition filteredProductsWithout (dropped : condition)
    (localeCompare : string -> string -> Z) (s : State) : list Product.t :=
  let result := filter (matchesWithout dropped s) (products s) in
  match comparatorOf localeCompare (sortBy s) with
  | Some comparator => JSArray.sort comparator result
  | None => result
  end.

(** A query for concrete runs: the products whose name contains "p", at
    most 6.00, rated 4.8 or more, in stock, by name. *)
Definition sampleQuery : State :=
  mkState PRODUCTS [] false None "p" All [] [] (0, 6 # 1)%Q (48 # 10)%Q true
    by_name false.

(** A product may be recommended: its name contains a fragment, ignoring
    case, and its id is not in the cart.  [eligible] is the test the
    callback makes, [mayRecommend] what it is to decide. *)
Definition eligible (names : list string) (cart : list CartItem.t)
    (p : Product.t) : bool :=
  existsb (fun n => JS.includes (JS.toLowerCase (Product.name p)) (JS.toLowerCase n))
          names
  && negb (existsb (fun c => String.eqb (CartItem.id c) (Product.id p)) cart).

Definition mayRecommend (names : list string) (cart : list CartItem.t)
    (p : Product.t) : Prop :=
  (exists n, In n names /\ containsIgnoringCase (Product.name p) n)
  /\ ~ In (Product.id p) (map CartItem.id cart).

(** Names and a cart for concrete runs of the recommendations: the service
    answers Spotify first, the cart holds ChatGPT Plus. *)
Definition sampleNames : list string := ["Spotify"; "Netflix"].
Definition sampleCart : list CartItem.t := [CartItem.mk chatgpt_plus 1].

(** Any sequence of views, and any sequence of cart operations. *)
Definition trackAll (ps : list Product.t) (s : State) : State :=
  fold_left (fun s p => trackRecentlyViewed p s) ps s.

Definition run (l : list cartAction) (s : State) : State := fold_left act l s.

(** What adding [review] under [productId] makes of a catalog entry [p]:
    an entry of another id is kept; an entry of that id gets the review in
    front of its reviews, one more in its count, and a rating with one
    decimal that is as close as one decimal allows to the quotient of the
    stars by their number as the machine computes it, the larger one on a
    tie when that quotient is not negative; for plain stars that is as
    close to their mean as one decimal allows, and it is the mean rounded
    half up unless the mean is halfway between two numbers of one decimal,
    where it can also be the lower of the two.  The other fields are
    kept. *)
Definition reviewAdded (productId : string) (review : Review.t)
    (p p' : Product.t) : Prop :=
  if String.eqb (Product.id p) productId then
    Product.userReviews p' = Some (review :: userReviewsOrEmpty p)
    /\ (exists n : Z, Product.rating p' = (n # 10)%Q)
    /\ (Qabs (Product.rating p' - machineMean (review :: userReviewsOrEmpty p))
         <= 1 # 20)%Q
    /\ ((0 <= machineMean (review :: userReviewsOrEmpty p))%Q ->
        Product.rating p' = halfUpTenth (machineMean (review :: userReviewsOrEmpty p)))
    /\ (plainStars (review :: userReviewsOrEmpty p) ->
        (Qabs (Product.rating p' - meanRating (review :: userReviewsOrEmpty p))
         <= 1 # 20)%Q
        /\ (Product.rating p' = halfUpTenth (meanRating (review :: userReviewsOrEmpty p))
            \/ (halfwayTenth (meanRating (review :: userReviewsOrEmpty p))
                /\ (Product.rating p'
                    == halfUpTenth (meanRating (review :: userReviewsOrEmpty p))
                       - (1 # 10))%Q)))
    /\ Product.reviews p' = Product.reviews p + 1
    /\ Product.id p' = Product.id p
    /\ Product.name p' = Product.name p
    /\ Product.description p' = Product.description p
    /\ Product.price p' = Product.price p
    /\ Product.originalPrice p' = Product.originalPrice p
    /\ Product.image p' = Product.image p
    /\ Product.category p' = Product.category p
    /\ Product.benefits p' = Product.benefits p
    /\ Product.stock p' = Product.stock p
    /\ Product.duration p' = Product.duration p
  else p' = p.

(** A review whose comment is three spaces. *)
Definition blankReview : Review.t :=
  Review.mk "1700000000000" "Demo User" 5 "   " "2023-11-14".

(** A stored value that is there, not empty, and not JSON. *)
Definition unparseable (saved : option string) : bool :=
  match saved with
  | Some text =>
      JS.truthy text && match JSON.parse text with None => true | Some _ => false end
  | None => false
  end.

(** An entry is absent: not there, or the empty string.  An entry holds
    the JSON value [v]: it is there, not empty, and its text is that of
    [v]. *)
Definition absent (saved : option string) : Prop :=
  saved = None \/ saved = Some "".

Definition holdsValue (saved : option string) (v : JSON.value) : Prop :=
  exists text, saved = Some text /\ text <> "" /\ JSON.parse text = Some v.

(** A storage whose wishlist entry is the text of [null]. *)
Definition nullStorage : Storage :=
  {| viralyn_wishlist := Some "null"; viralyn_recently := None |}.

(** A storage whose wishlist entry was cut short: an array of one id with
    no closing bracket. *)
Definition truncatedStorage : Storage :=
  {| viralyn_wishlist := Some ("[" ++ JSON.quote "netflix-prem");
     viralyn_recently := None |}.

(** A state for concrete runs of the cart: two Netflix in the cart. *)
Definition sampleCartState : State := addToCart netflix_prem 2 initial.

(** A query for concrete runs of the search: PREMIUM in capitals, among
    the streaming products, at most 5.00, rated 4 or more, in stock. *)
Definition sampleSearch : State :=
  mkState PRODUCTS [] false None "PREMIUM" (Only Streaming) [] [] (0, 5 # 1)%Q
    (4 # 1)%Q true by_name false.

(** A history that holds an id twice, as a stored list can. *)
Definition repeatedHistory : State :=
  setRecentlyViewedIds
    (fun _ => ["netflix-prem"; "spotify-prem"; "netflix-prem"]) initial.

(** Reviews that bring a mean to a tie: Netflix Premium has two reviews, of
    5 and 4 stars; after twelve more of 4 stars and five of 5 it has
    nineteen, and one more of 5 stars makes twenty reviews and 87 stars. *)
Definition tieReviews : list Review.t :=
  (repeat (Review.mk "1700000000001" "Demo User" 4 "Good." "2023-11-14") 12
   ++ repeat (Review.mk "1700000000002" "Demo User" 5 "Great." "2023-11-14") 5)%list.

Definition tieReview : Review.t :=
  Review.mk "1700000000003" "Demo User" 5 "Great." "2023-11-14".

Definition tieState : State :=
  fold_left (fun s r => handleAddReview "netflix-prem" r s) tieReviews initial.

(** * The rest of the application *)

(** ** More built-ins *)

Module JSString.

(** [s.split(sep)] for a separator of one code unit: the pieces between the
    separators, one piece (the empty string) for the empty string. *)
Fixpoint split (sep : ascii) (s : string) : list string :=
  match s with
  | EmptyString => [EmptyString]
  | String c r =>
      if Ascii.eqb c sep then EmptyString :: split sep r
      else match split sep r with
           | piece :: pieces => String c piece :: pieces
           | [] => [String c EmptyString]
           end
  end.

(** How many times a code unit occurs. *)
Fixpoint occurrences (c : ascii) (s : string) : nat :=
  match s with
  | EmptyString => O
  | String x r => if Ascii.eqb x c then S (occurrences c r) else occurrences c r
  end.

End JSString.

Module JSMath.

(** [Math.round(x)]: the integer nearest to [x], the larger one on a tie. *)
Definition round (x : Q) : Z := Qfloor (x + (1 # 2)).

(** [Math.max(a, b)] on counts. *)
Definition max (a b : Z) : Z := Z.max a b.

End JSMath.

(** [a.filter(Boolean)] on an array of objects and [undefined]s. *)
Fixpoint filterBoolean {A : Type} (l : list (option A)) : list A :=
  match l with
  | [] => []
  | Some x :: r => x :: filterBoolean r
  | None :: r => filterBoolean r
  end.

(** ** The text service ([src/geminiService.ts]) *)

Module geminiService.

(** What [await ai.models.generateContent(...)] comes to: it throws, or it
    gives a response whose [text] is a string or [undefined]. *)
Inductive reply :=
| Failed
| Replied (text : option string).

Definition getProductInsight (r : reply) : string :=
  match r with
  | Replied (Some text) =>
      if JS.truthy text then text
      else "This premium subscription offers unbeatable value for your digital lifestyle."
  | Replied None =>
      "This premium subscription offers unbeatable value for your digital lifestyle."
  | Failed => "The ultimate premium experience at a fraction of the cost."
  end.

(** [response.text?.split(',').map(s => s.trim()) || []]: an array is
    truthy, so [||] only replaces the [undefined] of a missing text. *)
Definition getSmartRecommendations (r : reply) : list string :=
  match r with
  | Replied (Some text) => map JS.trim (JSString.split "," text)
  | Replied None => []
  | Failed => ["Netflix"; "Spotify"; "ChatGPT"]
  end.

End geminiService.

(** The recommendations the callback sets when the service has answered
    the request made for [cart], the cart of the render whose effect asked:
    with the drawer open and the cart not empty. *)
Definition recommendationsFor (cart : list CartItem.t)
    (r : geminiService.reply) : list Product.t :=
  suggested (geminiService.getSmartRecommendations r) cart.

(** ** More of [App] *)

Definition setSearchQuery (q : string) (s : State) : State :=
  mkState (products s) (cart s) (isCartOpen s) (selectedProduct s)
    q (activeCategory s) (wishlist s) (recentlyViewedIds s)
    (priceRange s) (minRating s) (stockOnly s) (sortBy s) (showFilters s).

Definition setActiveCategory (c : CategoryFilter) (s : State) : State :=
  mkState (products s) (cart s) (isCartOpen s) (selectedProduct s)
    (searchQuery s) c (wishlist s) (recentlyViewedIds s)
    (priceRange s) (minRating s) (stockOnly s) (sortBy s) (showFilters s).

Definition setMinRating (r : Z) (s : State) : State :=
  mkState (products s) (cart s) (isCartOpen s) (selectedProduct s)
    (searchQuery s) (activeCategory s) (wishlist s) (recentlyViewedIds s)
    (priceRange s) (inject_Z r) (stockOnly s) (sortBy s) (showFilters s).

Definition setStockOnly (b : bool) (s : State) : State :=
  mkState (products s) (cart s) (isCartOpen s) (selectedProduct s)
    (searchQuery s) (activeCategory s) (wishlist s) (recentlyViewedIds s)
    (priceRange s) (minRating s) b (sortBy s) (showFilters s).

Definition setSortBy (o : SortOption) (s : State) : State :=
  mkState (products s) (cart s) (isCartOpen s) (selectedProduct s)
    (searchQuery s) (activeCategory s) (wishlist s) (recentlyViewedIds s)
    (priceRange s) (minRating s) (stockOnly s) o (showFilters s).

Definition setShowFilters (b : bool) (s : State) : State :=
  mkState (products s) (cart s) (isCartOpen s) (selectedProduct s)
    (searchQuery s) (activeCategory s) (wishlist s) (recentlyViewedIds s)
    (priceRange s) (minRating s) (stockOnly s) (sortBy s) b.

(** [recentlyViewedIds.map(id => products.find(p => p.id === id))
      .filter(Boolean)] *)
Definition recentProductsData (s : State) : list Product.t :=
  filterBoolean
    (map (fun id => find (fun p => String.eqb (Product.id p) id) (products s))
         (recentlyViewedIds s)).

(** [isWishlisted={wishlist.includes(product.id)}] *)
Definition isWishlisted (s : State) (product : Product.t) : bool :=
  JSArray.includes (Product.id product) (wishlist s).

(** The page after a load with the given storage: the mount effect run on
    the initial state.  [Normal None] is a load that sets a list to a value
    that is not an array of strings. *)
Definition mount (st : Storage) : completion (option State) :=
  match persistenceInit st with
  | Throw => Throw
  | Normal calls => Normal (applyCalls calls initial)
  end.

(** A reload of the page: the mount on what the page had stored.  The
    branches that keep [s] are those of a load that fails, which the
    storage written by [persist] never takes. *)
Definition reload (s : State) : State :=
  match mount (persist s) with
  | Normal (Some s') => s'
  | _ => s
  end.

(** ** The cards, the modal and the drawer *)

(** The quantity stepper of a card and of the modal:
    [setQty(Math.max(1, qty - 1))] and [setQty(qty + 1)], from
    [useState(1)]. *)
Inductive stepperClick := Minus | Plus.

Definition stepper (qty : Z) (c : stepperClick) : Z :=
  match c with
  | Minus => JSMath.max 1 (qty - 1)
  | Plus => qty + 1
  end.

Definition stepperRun (clicks : list stepperClick) : Z :=
  fold_left stepper clicks 1.

(** The sale badge of a card:
    [Math.round(((originalPrice - price) / originalPrice) * 100)], each
    step rounded to binary64, for an original price that is not 0. *)
Definition discountPercent (product : Product.t) : Z :=
  let originalPrice := JSNumber.binary64 (Product.originalPrice product) in
  let price := JSNumber.binary64 (Product.price product) in
  JSMath.round
    (JSNumber.mul (JSNumber.div (JSNumber.sub originalPrice price) originalPrice)
                  100).

(** The stars of the review form, [[1, 2, 3, 4, 5]], and the thresholds of
    the rating filter, [[0, 3, 4, 5]]. *)
Definition stars : list Z := [1; 2; 3; 4; 5].
Definition ratingSteps : list Z := [0; 3; 4; 5].

(** The [- ] and [+] buttons of a cart line:
    [updateQuantity(item.id, item.quantity - 1)] and [... + 1]. *)
Definition drawerMinus (item : CartItem.t) (s : State) : State :=
  updateQuantity (CartItem.id item) (CartItem.quantity item - 1) s.

Definition drawerPlus (item : CartItem.t) (s : State) : State :=
  updateQuantity (CartItem.id item) (CartItem.quantity item + 1) s.

(** What the user, a timer or the service can make happen.  A card, a cart
    line and an entry of a strip are named by their position in the list
    that is rendered; the quantity of an add is the one its stepper shows
    after the clicks made on it; the recommendations shown are those
    computed from the names of some answer and the cart some earlier run of
    the effect saw. *)
Inductive event :=
| Search (term : string)                         (* [onSearch(searchTerm)] *)
| OpenCart                                       (* [setIsCartOpen(true)] *)
| PickCategory (c : CategoryFilter)
| PickSort (o : SortOption)
| ToggleFilters
| SlidePrice (notch : nat)                       (* range input: 0, 5, ..., 50 *)
| PickMinRating (i : nat)
| ToggleStockOnly
| CardQuickView (i : nat)
| CardWishlist (i : nat)
| CardAdd (i : nat) (clicks : list stepperClick)
| ModalClose
| ModalAdd (clicks : list stepperClick)
| ModalSubmit (now today : string) (star : nat) (comment : string)
| DrawerClose
| DrawerMinus (i : nat)
| DrawerPlus (i : nat)
| DrawerRemoved (id : string)                    (* the call [handleRemove] schedules *)
| DrawerAddRecent (i : nat)
| DrawerClearHistory
| DrawerAddRecommended (names : list string) (seen : list CartItem.t) (i : nat)
| DrawerAddAll (names : list string) (seen : list CartItem.t).

Definition fire (localeCompare : string -> string -> Z) (s : State) (e : event)
    : State :=
  match e with
  | Search term => setSearchQuery term s
  | OpenCart => setIsCartOpen true s
  | PickCategory c => setActiveCategory c s
  | PickSort o => setSortBy o s
  | ToggleFilters => setShowFilters (negb (showFilters s)) s
  | SlidePrice notch =>
      if (notch <=? 10)%nat then setMaxPrice (5 * Z.of_nat notch) s else s
  | PickMinRating i =>
      match nth_error ratingSteps i with
      | Some r => setMinRating r s
      | None => s
      end
  | ToggleStockOnly => setStockOnly (negb (stockOnly s)) s
  | CardQuickView i =>
      match nth_error (filteredProducts localeCompare s) i with
      | Some product => openQuickView product s
      | None => s
      end
  | CardWishlist i =>
      match nth_error (filteredProducts localeCompare s) i with
      | Some product => toggleWishlist (Product.id product) s
      | None => s
      end
  | CardAdd i clicks =>
      match nth_error (filteredProducts localeCompare s) i with
      | Some product => addToCart product (stepperRun clicks) s
      | None => s
      end
  | ModalClose => setSelectedProduct (fun _ => None) s
  | ModalAdd clicks =>
      match selectedProduct s with
      | Some product =>
          setSelectedProduct (fun _ => None)
            (addToCart product (stepperRun clicks) s)
      | None => s
      end
  | ModalSubmit now today star comment =>
      match selectedProduct s with
      | Some product =>
          snd (handleSubmitReview now today product
                 (mkModal 1 (nth star stars 5) comment) s)
      | None => s
      end
  | DrawerClose => setIsCartOpen false s
  | DrawerMinus i =>
      match nth_error (cart s) i with
      | Some item => drawerMinus item s
      | None => s
      end
  | DrawerPlus i =>
      match nth_error (cart s) i with
      | Some item => drawerPlus item s
      | None => s
      end
  | DrawerRemoved id => removeFromCart id s
  | DrawerAddRecent i =>
      match nth_error (recentProductsData s) i with
      | Some p => addToCart p 1 s
      | None => s
      end
  | DrawerClearHistory => clearHistory s
  | DrawerAddRecommended names seen i =>
      match nth_error (suggested names seen) i with
      | Some p => addToCart p 1 s
      | None => s
      end
  | DrawerAddAll names seen => handleAddAll (suggested names seen) s
  end.

(** A visit is events and reloads, from the first load with nothing stored. *)
Inductive action :=
| Fire (e : event)
| Reload.

Definition perform (localeCompare : string -> string -> Z) (s : State)
    (a : action) : State :=
  match a with
  | Fire e => fire localeCompare s e
  | Reload => reload s
  end.

Definition visit (localeCompare : string -> string -> Z) (l : list action)
    : State :=
  fold_left (perform localeCompare) l initial.

(** Several reviews added one after the other under one id. *)
Definition addReviews (productId : string) (reviews : list Review.t) (s : State)
    : State :=
  fold_left (fun s r => handleAddReview productId r s) reviews s.

(** ** Reference notions for the properties of these *)

(** Two catalog entries are the same listing: they differ at most in what a
    review changes (rating, count, reviews). *)
Definition sameListing (p p' : Product.t) : Prop :=
  Product.id p' = Product.id p
  /\ Product.name p' = Product.name p
  /\ Product.description p' = Product.description p
  /\ Product.price p' = Product.price p
  /\ Product.originalPrice p' = Product.originalPrice p
  /\ Product.image p' = Product.image p
  /\ Product.category p' = Product.category p
  /\ Product.benefits p' = Product.benefits p
  /\ Product.stock p' = Product.stock p
  /\ Product.duration p' = Product.duration p.

(** The ids of the seed catalog. *)
Definition seedIds : list string := map Product.id PRODUCTS.

(** The stars of every review of an entry are between 1 and 5, and so is
    its rating. *)
Definition fiveStar (p : Product.t) : Prop :=
  Forall (fun r => 1 <= Review.rating r <= 5) (userReviewsOrEmpty p)
  /\ (1 <= Product.rating p /\ Product.rating p <= 5)%Q.

(** One query is at least as wide as another, on the same catalog: its
    search text occurs in the other's, its category is the other's or All,
    its price range contains the other's, its rating threshold is not
    higher, and it asks for stock only if the other does. *)
Definition wider (wide narrow : State) : Prop :=
  products wide = products narrow
  /\ sortBy wide = sortBy narrow
  /\ JS.includes (searchQuery narrow) (searchQuery wide) = true
  /\ (activeCategory wide = All \/ activeCategory wide = activeCategory narrow)
  /\ (fst (priceRange wide) <= fst (priceRange narrow))%Q
  /\ (snd (priceRange narrow) <= snd (priceRange wide))%Q
  /\ (minRating wide <= minRating narrow)%Q
  /\ (stockOnly wide = true -> stockOnly narrow = true).

(** Sample data for concrete runs. *)
Definition sampleWide : State := initial.
Definition sampleNarrow : State :=
  mkState PRODUCTS [] false None "prem" (Only Streaming) [] [] (0, 5 # 1)%Q
    (3 # 1)%Q true featured false.

(** A product for concrete runs of the sale badge: Netflix Premium at 17
    instead of 40. *)
Definition saleSample : Product.t :=
  Product.mk (Product.id netflix_prem) (Product.name netflix_prem)
    (Product.description netflix_prem) (17 # 1) (40 # 1)
    (Product.image netflix_prem) (Product.category netflix_prem)
    (Product.rating netflix_prem) (Product.reviews netflix_prem)
    (Product.benefits netflix_prem) (Product.stock netflix_prem)
    (Product.duration netflix_prem) (Product.userReviews netflix_prem).

(** What a line of the cart adds to the total: the price, as the number
    its numeral denotes, times the quantity, rounded. *)
Definition lineAmount (item : CartItem.t) : Q :=
  JSNumber.mul (JSNumber.binary64 (CartItem.price item))
               (inject_Z (CartItem.quantity item)).

(** A string does not start with white space. *)
Definition noLeadingSpace (s : string) : Prop :=
  match s with
  | EmptyString => True
  | String c _ => JS.isWhiteSpace c = false
  end.

(** A product is a listing of the seed catalog, as it is or as reviews have
    left it. *)
Definition listed (p : Product.t) : Prop :=
  exists p0, In p0 PRODUCTS /\ sameListing p0 p.

(** What holds of the catalog and the product in the modal, of the cart,
    of the history, of the wishlist and of the filter settings in every
    state of a visit. *)
Definition catalogOk (products : list Product.t) (selected : option Product.t)
    : Prop :=
  Forall2 sameListing PRODUCTS products
  /\ Forall fiveStar products
  /\ (forall p, selected = Some p -> In p products).

Definition cartOk (cart : list CartItem.t) : Prop :=
  NoDup (map CartItem.id cart)
  /\ Forall (fun item => 1 <= CartItem.quantity item) cart
  /\ Forall (fun item => listed (CartItem.product item)) cart.

Definition historyOk (ids : list string) : Prop :=
  NoDup ids /\ (List.length ids <= 10)%nat /\ incl ids seedIds.

Definition wishlistOk (ids : list string) : Prop :=
  NoDup ids /\ incl ids seedIds.

Definition filtersOk (range : Q * Q) (threshold : Q) : Prop :=
  (exists v, range = (0%Q, inject_Z v) /\ 0 <= v <= 50)
  /\ (exists r, In r ratingSteps /\ threshold = inject_Z r).

Definition Inv (s : State) : Prop :=
  catalogOk (products s) (selectedProduct s)
  /\ cartOk (cart s)
  /\ historyOk (recentlyViewedIds s)
  /\ wishlistOk (wishlist s)
  /\ filtersOk (priceRange s) (minRating s).

(** A visit for concrete runs: two Spotify from the second card, a look at
    the first card and a one-star review of it, the last card wishlisted,
    one Spotify taken back, a reload, and a look at the first card again. *)
Definition sampleVisit : list action :=
  [ Fire (CardAdd 1 [Plus]); Fire (CardQuickView 0);
    Fire (ModalSubmit "1" "2024-04-01" 0 "Too slow.");
    Fire (CardWishlist 5); Fire (DrawerMinus 0); Reload;
    Fire (CardQuickView 0) ].

(** * Properties *)

(** ** Binary64 numbers *)

Section Binary64.
Local Open Scope Q_scope.

Lemma pow2_pos (e : Z) : 0 < 2 ^ e.
Proof. apply Qpower_0_lt. reflexivity. Qed.

Lemma pow2_plus (a b : Z) : 2 ^ (a + b) == 2 ^ a * 2 ^ b.
Proof. apply Qpower_plus. discriminate. Qed.

Lemma pow2_succ (a : Z) : 2 ^ (a + 1) == 2 * 2 ^ a.
Proof. rewrite pow2_plus. change (2 ^ 1) with 2. ring. Qed.

Lemma pow2_le (a b : Z) : (a <= b)%Z -> 2 ^ a <= 2 ^ b.
Proof. intros H. apply Qpower_le_compat_l; [exact H | discriminate]. Qed.

Lemma pow2_lt (a b : Z) : (a < b)%Z -> 2 ^ a < 2 ^ b.
Proof. intros H. apply Qpower_lt_compat_l; [exact H | reflexivity]. Qed.

Lemma pow2_lt_inv (a b : Z) : 2 ^ a < 2 ^ b -> (a < b)%Z.
Proof. intros H. apply (Qpower_lt_compat_l_inv 2); [exact H | reflexivity]. Qed.

Lemma pow2_Z (n : Z) : (0 <= n)%Z -> inject_Z (2 ^ n) == 2 ^ n.
Proof. intros H. now rewrite Zpower_Qpower. Qed.

(** [x / c] is the number whose product with [c] is [x]. *)
Lemma Qdiv_cancel (x c : Q) : 0 < c -> x / c * c == x.
Proof. intros H. field. intros E. rewrite E in H. discriminate. Qed.

Lemma Qdiv_pow2 (x : Q) (e : Z) : x / 2 ^ e * 2 ^ e == x.
Proof. apply Qdiv_cancel, pow2_pos. Qed.

Lemma Qmult_pow2_le (x y : Q) (e : Z) : x <= y -> x * 2 ^ e <= y * 2 ^ e.
Proof. intros H. apply Qmult_le_compat_r; [exact H | apply Qlt_le_weak, pow2_pos]. Qed.

Lemma Qdiv_pow2_le (x y : Q) (e : Z) : x <= y -> x / 2 ^ e <= y / 2 ^ e.
Proof.
  intros H. apply Qle_shift_div_l; [apply pow2_pos|]. now rewrite Qdiv_pow2.
Qed.

(** *** The exponent *)

Lemma exponent_spec (q : Q) :
  0 < q -> 2 ^ JSNumber.exponent q <= q /\ q < 2 ^ (JSNumber.exponent q + 1).
Proof.
  intros Hq. unfold JSNumber.exponent.
  destruct q as [a b]. cbn [Qnum Qden].
  assert (Ha : (0 < a)%Z) by (unfold Qlt in Hq; simpl in Hq; lia).
  pose proof (Z.log2_spec a Ha) as [Ha1 Ha2].
  pose proof (Z.log2_spec (Z.pos b) (Pos2Z.is_pos b)) as [Hb1 Hb2].
  pose proof (Z.log2_nonneg a) as Hla.
  pose proof (Z.log2_nonneg (Z.pos b)) as Hlb.
  set (la := Z.log2 a) in *. set (lb := Z.log2 (Z.pos b)) in *.
  unfold Z.succ in *.
  rewrite Zle_Qle, pow2_Z in Ha1, Hb1 by lia.
  rewrite Zlt_Qlt, pow2_Z in Ha2, Hb2 by lia.
  assert (HB : 0 < inject_Z (Z.pos b)) by reflexivity.
  assert (Hab : a # b == inject_Z a / inject_Z (Z.pos b)) by apply Qmake_Qdiv.
  assert (Hlow : 2 ^ (la - lb - 1) < a # b).
  { rewrite Hab. apply Qlt_shift_div_l; [exact HB|].
    apply Qlt_le_trans with (2 ^ (la - lb - 1) * 2 ^ (lb + 1)).
    - apply Qmult_lt_l; [apply pow2_pos | exact Hb2].
    - rewrite <- pow2_plus. replace (la - lb - 1 + (lb + 1))%Z with la by lia.
      exact Ha1. }
  assert (Hhigh : a # b < 2 ^ (la - lb + 1)).
  { rewrite Hab. apply Qlt_shift_div_r; [exact HB|].
    apply Qlt_le_trans with (2 ^ (la + 1)); [exact Ha2|].
    replace (la + 1)%Z with (la - lb + 1 + lb)%Z by lia. rewrite pow2_plus.
    apply Qmult_le_l; [apply pow2_pos | exact Hb1]. }
  destruct (Qle_bool (2 ^ (la - lb)) (a # b)) eqn:E.
  - apply Qle_bool_iff in E. split; assumption.
  - assert (Hlt : a # b < 2 ^ (la - lb)).
    { apply Qnot_le_lt. intros H. apply Qle_bool_iff in H. congruence. }
    split; [apply Qlt_le_weak, Hlow|].
    replace (la - lb - 1 + 1)%Z with (la - lb)%Z by lia. exact Hlt.
Qed.

Lemma exponent_unique (q : Q) (k : Z) :
  2 ^ k <= q -> q < 2 ^ (k + 1) -> JSNumber.exponent q = k.
Proof.
  intros H1 H2.
  assert (Hq : 0 < q) by (eapply Qlt_le_trans; [apply pow2_pos | exact H1]).
  destruct (exponent_spec q Hq) as [H3 H4].
  assert (Ha : (k < JSNumber.exponent q + 1)%Z).
  { apply pow2_lt_inv. eapply Qle_lt_trans; eassumption. }
  assert (Hb : (JSNumber.exponent q < k + 1)%Z).
  { apply pow2_lt_inv. eapply Qle_lt_trans; eassumption. }
  lia.
Qed.

Lemma exponent_comp (q q' : Q) :
  0 < q -> q == q' -> JSNumber.exponent q = JSNumber.exponent q'.
Proof.
  intros Hq E. symmetry.
  destruct (exponent_spec q Hq) as [H1 H2].
  apply exponent_unique; rewrite <- E; assumption.
Qed.

Lemma exponent_le (q q' : Q) :
  0 < q -> q <= q' -> (JSNumber.exponent q <= JSNumber.exponent q')%Z.
Proof.
  intros Hq Hle.
  assert (Hq' : 0 < q') by (eapply Qlt_le_trans; eassumption).
  destruct (exponent_spec q Hq) as [H1 _].
  destruct (exponent_spec q' Hq') as [_ H2].
  assert (H : (JSNumber.exponent q < JSNumber.exponent q' + 1)%Z).
  { apply pow2_lt_inv. eapply Qle_lt_trans; [exact H1|].
    eapply Qle_lt_trans; eassumption. }
  lia.
Qed.

(** *** The nearest whole number *)

Lemma nearestEven_cases (y : Q) :
  let f := Qfloor y in
  inject_Z f <= y /\ y < inject_Z f + 1
  /\ (JSNumber.nearestEven y = f /\ y - inject_Z f <= 1 # 2
      \/ JSNumber.nearestEven y = (f + 1)%Z /\ 1 # 2 <= y - inject_Z f).
Proof.
  intros f. pose proof (Qfloor_le y) as H1. pose proof (Qlt_floor y) as H2.
  fold f in H1, H2. rewrite inject_Z_plus in H2.
  split; [exact H1|]. split; [exact H2|].
  unfold JSNumber.nearestEven. fold f.
  destruct (Qcompare_spec (y - inject_Z f) (1 # 2)) as [E|E|E].
  - rewrite E. destruct (Z.even f); [left | right]; split;
      first [reflexivity | apply Qle_refl].
  - left. split; [reflexivity | apply Qlt_le_weak, E].
  - right. split; [reflexivity | apply Qlt_le_weak, E].
Qed.

Lemma nearestEven_close (y : Q) :
  y - (1 # 2) <= inject_Z (JSNumber.nearestEven y)
  /\ inject_Z (JSNumber.nearestEven y) <= y + (1 # 2).
Proof.
  destruct (nearestEven_cases y) as (H1 & H2 & [[E H]|[E H]]); rewrite E.
  - split; lra.
  - rewrite inject_Z_plus. change (inject_Z 1) with 1. split; lra.
Qed.

Lemma nearestEven_comp (y y' : Q) :
  y == y' -> JSNumber.nearestEven y = JSNumber.nearestEven y'.
Proof.
  intros E. unfold JSNumber.nearestEven.
  rewrite (Qfloor_comp _ _ E).
  assert (H : y - inject_Z (Qfloor y') == y' - inject_Z (Qfloor y'))
    by (rewrite E; reflexivity).
  now rewrite (Qcompare_comp _ _ H _ _ (Qeq_refl (1 # 2))).
Qed.

Lemma nearestEven_Z (z : Z) : JSNumber.nearestEven (inject_Z z) = z.
Proof.
  unfold JSNumber.nearestEven. rewrite Qfloor_Z.
  assert (H : inject_Z z - inject_Z z == 0) by ring.
  now rewrite (Qcompare_comp _ _ H _ _ (Qeq_refl (1 # 2))).
Qed.

Lemma nearestEven_le (y y' : Q) :
  y <= y' -> (JSNumber.nearestEven y <= JSNumber.nearestEven y')%Z.
Proof.
  intros Hle. pose proof (Qfloor_resp_le _ _ Hle) as Hf.
  unfold JSNumber.nearestEven.
  pose proof (Qfloor_le y) as H1. pose proof (Qlt_floor y) as H2.
  pose proof (Qfloor_le y') as H1'. pose proof (Qlt_floor y') as H2'.
  rewrite inject_Z_plus in H2, H2'. change (inject_Z 1) with 1 in *.
  set (f := Qfloor y) in *. set (f' := Qfloor y') in *.
  destruct (Z.eq_dec f f') as [E|E].
  - rewrite <- E in *.
    destruct (Qcompare_spec (y - inject_Z f) (1 # 2)) as [Ha|Ha|Ha];
      destruct (Qcompare_spec (y' - inject_Z f) (1 # 2)) as [Hb|Hb|Hb];
      try lia; try (destruct (Z.even f); lia); exfalso; lra.
  - assert (Hlt : (f + 1 <= f')%Z) by lia.
    destruct (y - inject_Z f ?= 1 # 2); destruct (y' - inject_Z f' ?= 1 # 2);
      try destruct (Z.even f); try destruct (Z.even f'); lia.
Qed.

(** *** Rounding a positive number *)

Lemma ulpExponent_bounds (q : Q) :
  (JSNumber.exponent q - 52 <= JSNumber.ulpExponent q)%Z
  /\ (-1074 <= JSNumber.ulpExponent q)%Z.
Proof. unfold JSNumber.ulpExponent. lia. Qed.

Lemma ulpExponent_comp (q q' : Q) :
  0 < q -> q == q' -> JSNumber.ulpExponent q = JSNumber.ulpExponent q'.
Proof.
  intros Hq E. unfold JSNumber.ulpExponent. now rewrite (exponent_comp q q' Hq E).
Qed.

Lemma ulpExponent_le (q q' : Q) :
  0 < q -> q <= q' -> (JSNumber.ulpExponent q <= JSNumber.ulpExponent q')%Z.
Proof.
  intros Hq Hle. pose proof (exponent_le q q' Hq Hle).
  unfold JSNumber.ulpExponent. lia.
Qed.

Lemma roundPositive_comp (q q' : Q) :
  0 < q -> q == q' -> JSNumber.roundPositive q == JSNumber.roundPositive q'.
Proof.
  intros Hq E. unfold JSNumber.roundPositive.
  rewrite <- (ulpExponent_comp q q' Hq E).
  assert (H : q / 2 ^ JSNumber.ulpExponent q == q' / 2 ^ JSNumber.ulpExponent q)
    by (apply Qdiv_comp; [exact E | reflexivity]).
  now rewrite (nearestEven_comp _ _ H).
Qed.

(** The number scaled by its unit is below [2 ^ 53], and at least [2 ^ 52]
    when the exponent is in the normal range. *)
Lemma scaled_lt (q : Q) : 0 < q -> q / 2 ^ JSNumber.ulpExponent q < 2 ^ 53.
Proof.
  intros Hq. destruct (exponent_spec q Hq) as [_ H].
  destruct (ulpExponent_bounds q) as [He _].
  apply Qlt_shift_div_r; [apply pow2_pos|].
  rewrite <- pow2_plus. eapply Qlt_le_trans; [exact H|].
  apply pow2_le. lia.
Qed.

Lemma scaled_ge (q : Q) :
  0 < q -> JSNumber.ulpExponent q = (JSNumber.exponent q - 52)%Z ->
  2 ^ 52 <= q / 2 ^ JSNumber.ulpExponent q.
Proof.
  intros Hq He. destruct (exponent_spec q Hq) as [H _].
  apply Qle_shift_div_l; [apply pow2_pos|].
  rewrite <- pow2_plus, He.
  replace (52 + (JSNumber.exponent q - 52))%Z with (JSNumber.exponent q) by lia.
  exact H.
Qed.

Lemma scaled_pos (q : Q) (e : Z) : 0 < q -> 0 < q / 2 ^ e.
Proof.
  intros Hq. apply Qlt_shift_div_l; [apply pow2_pos|]. now rewrite Qmult_0_l.
Qed.

Lemma nearestEven_nonneg (y : Q) : 0 <= y -> (0 <= JSNumber.nearestEven y)%Z.
Proof.
  intros H. rewrite <- (nearestEven_Z 0). apply nearestEven_le. exact H.
Qed.

Lemma nearestEven_scaled (q : Q) :
  0 < q ->
  (0 <= JSNumber.nearestEven (q / 2 ^ JSNumber.ulpExponent q) <= 2 ^ 53)%Z.
Proof.
  intros Hq. split.
  - apply nearestEven_nonneg, Qlt_le_weak, scaled_pos, Hq.
  - rewrite <- (nearestEven_Z (2 ^ 53)). apply nearestEven_le.
    rewrite (pow2_Z 53) by lia. apply Qlt_le_weak, scaled_lt, Hq.
Qed.

Lemma roundPositive_nonneg (q : Q) : 0 < q -> 0 <= JSNumber.roundPositive q.
Proof.
  intros Hq. unfold JSNumber.roundPositive.
  apply Qmult_le_0_compat; [|apply Qlt_le_weak, pow2_pos].
  change 0 with (inject_Z 0). rewrite <- Zle_Qle.
  apply (nearestEven_scaled q Hq).
Qed.

Lemma roundPositive_upper (q : Q) :
  0 < q -> JSNumber.roundPositive q <= 2 ^ (JSNumber.ulpExponent q + 53).
Proof.
  intros Hq. unfold JSNumber.roundPositive.
  rewrite Z.add_comm, pow2_plus. apply Qmult_pow2_le.
  rewrite <- (pow2_Z 53) by lia. rewrite <- Zle_Qle. apply (nearestEven_scaled q Hq).
Qed.

Lemma roundPositive_lower (q : Q) :
  0 < q -> JSNumber.ulpExponent q = (JSNumber.exponent q - 52)%Z ->
  2 ^ (JSNumber.ulpExponent q + 52) <= JSNumber.roundPositive q.
Proof.
  intros Hq He. unfold JSNumber.roundPositive.
  rewrite Z.add_comm, pow2_plus. apply Qmult_pow2_le.
  rewrite <- (pow2_Z 52) by lia. rewrite <- Zle_Qle.
  rewrite <- (nearestEven_Z (2 ^ 52)) at 1. apply nearestEven_le.
  rewrite (pow2_Z 52) by lia. apply scaled_ge; assumption.
Qed.

Lemma roundPositive_le (q q' : Q) :
  0 < q -> q <= q' -> JSNumber.roundPositive q <= JSNumber.roundPositive q'.
Proof.
  intros Hq Hle.
  assert (Hq' : 0 < q') by (eapply Qlt_le_trans; eassumption).
  pose proof (ulpExponent_le q q' Hq Hle) as He.
  destruct (Z.eq_dec (JSNumber.ulpExponent q) (JSNumber.ulpExponent q')) as [E|E].
  - unfold JSNumber.roundPositive. rewrite <- E. apply Qmult_pow2_le.
    rewrite <- Zle_Qle. apply nearestEven_le, Qdiv_pow2_le, Hle.
  - eapply Qle_trans; [apply roundPositive_upper, Hq|].
    eapply Qle_trans; [|apply roundPositive_lower; [exact Hq'|]].
    + apply pow2_le. lia.
    + destruct (ulpExponent_bounds q) as [_ Hlo].
      unfold JSNumber.ulpExponent in *. lia.
Qed.

(** The result is within half a unit of the number rounded. *)
Lemma roundPositive_close (q : Q) :
  0 < q ->
  q - 2 ^ JSNumber.ulpExponent q * (1 # 2) <= JSNumber.roundPositive q
  /\ JSNumber.roundPositive q <= q + 2 ^ JSNumber.ulpExponent q * (1 # 2).
Proof.
  intros Hq. unfold JSNumber.roundPositive.
  set (e := JSNumber.ulpExponent q).
  destruct (nearestEven_close (q / 2 ^ e)) as [H1 H2].
  apply (Qmult_pow2_le _ _ e) in H1. apply (Qmult_pow2_le _ _ e) in H2.
  pose proof (Qdiv_pow2 q e) as Hy.
  set (P := 2 ^ e) in *. set (y := q / P) in *.
  set (n := inject_Z (JSNumber.nearestEven y)) in *.
  split; nra.
Qed.

(** A number with a significand of at most 53 bits and a unit of
    [2 ^ -1074] or more is left as it is. *)
Lemma roundPositive_exact (q : Q) (m e0 : Z) :
  (0 < m <= 2 ^ 53)%Z -> (-1074 <= e0)%Z -> q == inject_Z m * 2 ^ e0 ->
  JSNumber.roundPositive q == q.
Proof.
  intros [Hm1 Hm2] He0 Hq.
  assert (Hpos : 0 < q).
  { rewrite Hq. apply Qmult_lt_0_compat; [|apply pow2_pos].
    change 0 with (inject_Z 0). now rewrite <- Zlt_Qlt. }
  assert (Hint : exists k, q / 2 ^ JSNumber.ulpExponent q == inject_Z k).
  { destruct (Z.eq_dec m (2 ^ 53)) as [E|E].
    - (* a power of two *)
      assert (Hq2 : q == 2 ^ (e0 + 53)).
      { rewrite Hq, E, (pow2_Z 53) by lia. rewrite Z.add_comm. symmetry. apply pow2_plus. }
      assert (Hexp : JSNumber.exponent q = (e0 + 53)%Z).
      { apply exponent_unique; rewrite Hq2; [apply Qle_refl | apply pow2_lt; lia]. }
      exists (2 ^ 52)%Z. unfold JSNumber.ulpExponent. rewrite Hexp.
      replace (Z.max (e0 + 53 - 52) (-1074)) with (e0 + 1)%Z by lia.
      rewrite (pow2_Z 52) by lia. rewrite Hq2.
      replace (e0 + 53)%Z with (52 + (e0 + 1))%Z by lia. rewrite pow2_plus.
      field. intros H. pose proof (pow2_pos (e0 + 1)) as Hp. rewrite H in Hp. discriminate.
    - assert (Hlt : q < 2 ^ (e0 + 53)).
      { rewrite Hq. rewrite Z.add_comm, pow2_plus. apply Qmult_lt_r; [apply pow2_pos|].
        rewrite <- (pow2_Z 53) by lia. rewrite <- Zlt_Qlt. lia. }
      assert (Hexp : (JSNumber.exponent q < e0 + 53)%Z).
      { apply pow2_lt_inv. eapply Qle_lt_trans; [|exact Hlt].
        apply exponent_spec, Hpos. }
      set (e := JSNumber.ulpExponent q).
      assert (He : (e <= e0)%Z) by (unfold e, JSNumber.ulpExponent; lia).
      exists (m * 2 ^ (e0 - e))%Z.
      rewrite inject_Z_mult, (pow2_Z (e0 - e)) by lia. rewrite Hq.
      replace e0 with ((e0 - e) + e)%Z at 1 by lia. rewrite pow2_plus.
      field. intros H. pose proof (pow2_pos e) as Hp. rewrite H in Hp. discriminate. }
  destruct Hint as (k & Hk). unfold JSNumber.roundPositive.
  rewrite (nearestEven_comp _ _ Hk), nearestEven_Z, <- Hk. apply Qdiv_pow2.
Qed.

Lemma roundPositive_idempotent (q : Q) :
  0 < q -> 0 < JSNumber.roundPositive q ->
  JSNumber.roundPositive (JSNumber.roundPositive q) == JSNumber.roundPositive q.
Proof.
  intros Hq Hr.
  apply (roundPositive_exact _
           (JSNumber.nearestEven (q / 2 ^ JSNumber.ulpExponent q))
           (JSNumber.ulpExponent q)).
  - destruct (nearestEven_scaled q Hq) as [H0 H1]. split; [|exact H1].
    destruct (Z.eq_dec (JSNumber.nearestEven (q / 2 ^ JSNumber.ulpExponent q)) 0) as [E|E];
      [|lia].
    exfalso. unfold JSNumber.roundPositive in Hr. rewrite E in Hr.
    rewrite Qmult_0_l in Hr. discriminate.
  - apply ulpExponent_bounds.
  - reflexivity.
Qed.

(** *** [binary64] *)

Lemma binary64_pos (q : Q) : 0 < q -> JSNumber.binary64 q == JSNumber.roundPositive q.
Proof.
  intros H. unfold JSNumber.binary64. rewrite Qred_correct.
  destruct (Qcompare_spec q 0) as [E|E|E]; [exfalso; lra | exfalso; lra | reflexivity].
Qed.

Lemma binary64_neg (q : Q) :
  q < 0 -> JSNumber.binary64 q == - JSNumber.roundPositive (- q).
Proof.
  intros H. unfold JSNumber.binary64. rewrite Qred_correct.
  destruct (Qcompare_spec q 0) as [E|E|E]; [exfalso; lra | reflexivity | exfalso; lra].
Qed.

Lemma binary64_zero (q : Q) : q == 0 -> JSNumber.binary64 q = 0.
Proof.
  intros H. unfold JSNumber.binary64.
  destruct (Qcompare_spec q 0) as [E|E|E]; [reflexivity | exfalso; lra | exfalso; lra].
Qed.

Lemma binary64_comp (q q' : Q) : q == q' -> JSNumber.binary64 q = JSNumber.binary64 q'.
Proof.
  intros E. unfold JSNumber.binary64. apply Qred_complete.
  rewrite <- (Qcompare_comp _ _ E _ _ (Qeq_refl 0)).
  destruct (Qcompare_spec q 0) as [H|H|H].
  - reflexivity.
  - apply Qopp_comp. apply roundPositive_comp; [lra | now rewrite E].
  - apply roundPositive_comp; assumption.
Qed.

Lemma binary64_nonneg (q : Q) : 0 <= q -> 0 <= JSNumber.binary64 q.
Proof.
  intros H. destruct (Qlt_le_dec 0 q) as [Hp|Hz].
  - rewrite binary64_pos by exact Hp. apply roundPositive_nonneg, Hp.
  - rewrite (binary64_zero q) by lra. apply Qle_refl.
Qed.

Lemma binary64_nonpos (q : Q) : q <= 0 -> JSNumber.binary64 q <= 0.
Proof.
  intros H. destruct (Qlt_le_dec q 0) as [Hn|Hz].
  - rewrite binary64_neg by exact Hn.
    assert (Hr : 0 <= JSNumber.roundPositive (- q)) by (apply roundPositive_nonneg; lra).
    lra.
  - rewrite (binary64_zero q) by lra. apply Qle_refl.
Qed.

(** Rounding keeps the order. *)
Lemma binary64_le (q q' : Q) : q <= q' -> JSNumber.binary64 q <= JSNumber.binary64 q'.
Proof.
  intros Hle.
  destruct (Qlt_le_dec 0 q) as [Hp|Hnp].
  - rewrite !binary64_pos by lra. apply roundPositive_le; assumption.
  - destruct (Qlt_le_dec q' 0) as [Hn'|Hp'].
    + rewrite !binary64_neg by lra.
      assert (H : JSNumber.roundPositive (- q') <= JSNumber.roundPositive (- q))
        by (apply roundPositive_le; lra).
      lra.
    + eapply Qle_trans; [apply binary64_nonpos, Hnp | apply binary64_nonneg, Hp'].
Qed.

(** A number that is already a binary64 number is left as it is. *)
Lemma binary64_Qred (q : Q) : Qred (JSNumber.binary64 q) = JSNumber.binary64 q.
Proof. unfold JSNumber.binary64. apply Qred_complete, Qred_correct. Qed.

Lemma binary64_idempotent (q : Q) :
  JSNumber.binary64 (JSNumber.binary64 q) = JSNumber.binary64 q.
Proof.
  rewrite <- (binary64_Qred q) at 2. rewrite <- binary64_Qred.
  apply Qred_complete.
  assert (Hpos : forall x, 0 < x ->
            JSNumber.binary64 (JSNumber.roundPositive x) == JSNumber.roundPositive x).
  { intros x Hx. pose proof (roundPositive_nonneg x Hx) as H0.
    destruct (Qlt_le_dec 0 (JSNumber.roundPositive x)) as [Hp|Hz].
    - rewrite binary64_pos by exact Hp. now apply roundPositive_idempotent.
    - rewrite (binary64_zero (JSNumber.roundPositive x)) by lra. lra. }
  destruct (Qcompare_spec q 0) as [H|H|H].
  - rewrite (binary64_zero q H). reflexivity.
  - assert (Hx : 0 < - q) by lra.
    pose proof (binary64_neg q H) as Hb.
    rewrite (binary64_comp _ _ Hb). rewrite Hb.
    pose proof (roundPositive_nonneg (- q) Hx) as H0.
    destruct (Qlt_le_dec 0 (JSNumber.roundPositive (- q))) as [Hp|Hz].
    + assert (Hn : - JSNumber.roundPositive (- q) < 0) by lra.
      rewrite (binary64_neg _ Hn).
      rewrite (roundPositive_comp (- - JSNumber.roundPositive (- q))
                 (JSNumber.roundPositive (- q))) by (try apply Qopp_involutive; lra).
      now rewrite (roundPositive_idempotent (- q) Hx Hp).
    + rewrite (binary64_zero (- JSNumber.roundPositive (- q))) by lra. lra.
  - pose proof (binary64_pos q H) as Hb.
    rewrite (binary64_comp _ _ Hb). rewrite Hb. apply Hpos, H.
Qed.

(** Whole numbers of at most 53 bits are binary64 numbers. *)
Lemma binary64_Z (z : Z) :
  (Z.abs z <= 2 ^ 53)%Z -> JSNumber.binary64 (inject_Z z) == inject_Z z.
Proof.
  intros Hz.
  assert (Hpos : forall m, (0 < m <= 2 ^ 53)%Z ->
            JSNumber.roundPositive (inject_Z m) == inject_Z m).
  { intros m Hm. apply (roundPositive_exact _ m 0 Hm); [lia|].
    change (2 ^ 0) with 1. ring. }
  destruct (Z.lt_trichotomy z 0) as [H|[H|H]].
  - assert (Hn : inject_Z z < 0) by (change 0 with (inject_Z 0); now rewrite <- Zlt_Qlt).
    rewrite (binary64_neg _ Hn).
    rewrite (roundPositive_comp (- inject_Z z) (inject_Z (- z)))
      by (try (rewrite inject_Z_opp; reflexivity); lra).
    rewrite Hpos by lia. rewrite inject_Z_opp. ring.
  - subst z. reflexivity.
  - assert (Hp : 0 < inject_Z z) by (change 0 with (inject_Z 0); now rewrite <- Zlt_Qlt).
    rewrite (binary64_pos _ Hp). apply Hpos. lia.
Qed.

(** In the normal range the result is off by at most the fraction
    [2 ^ -53] of the number rounded. *)
Lemma binary64_close (q : Q) :
  2 ^ (-1022) <= q ->
  q - q * 2 ^ (-53) <= JSNumber.binary64 q /\ JSNumber.binary64 q <= q + q * 2 ^ (-53).
Proof.
  intros Hq.
  assert (Hpos : 0 < q) by (eapply Qlt_le_trans; [apply (pow2_pos (-1022)) | exact Hq]).
  rewrite (binary64_pos q Hpos).
  destruct (exponent_spec q Hpos) as [H1 H2].
  assert (He : (-1022 <= JSNumber.exponent q)%Z).
  { assert (H : (-1022 < JSNumber.exponent q + 1)%Z); [|lia].
    apply pow2_lt_inv. eapply Qle_lt_trans; eassumption. }
  destruct (roundPositive_close q Hpos) as [H3 H4].
  assert (Hu : 2 ^ JSNumber.ulpExponent q * (1 # 2) <= q * 2 ^ (-53)).
  { unfold JSNumber.ulpExponent.
    replace (Z.max (JSNumber.exponent q - 52) (-1074))
      with (JSNumber.exponent q + (-53) + 1)%Z by lia.
    rewrite pow2_succ, pow2_plus.
    pose proof (pow2_pos (-53)) as Hp. nra. }
  split; lra.
Qed.

(** *** [toFixed(1)] *)

Lemma Qfloor_unique (x : Q) (k : Z) :
  inject_Z k <= x -> x < inject_Z k + 1 -> Qfloor x = k.
Proof.
  intros H1 H2. pose proof (Qfloor_le x) as H3. pose proof (Qlt_floor x) as H4.
  rewrite inject_Z_plus in H4. change (inject_Z 1) with 1 in H4.
  assert (Ha : (k < Qfloor x + 1)%Z).
  { rewrite Zlt_Qlt, inject_Z_plus. change (inject_Z 1) with 1. lra. }
  assert (Hb : (Qfloor x < k + 1)%Z).
  { rewrite Zlt_Qlt, inject_Z_plus. change (inject_Z 1) with 1. lra. }
  lia.
Qed.

(** The quotient of two whole numbers, rounded by the machine and then to
    one decimal: with a quotient of at least 1 and a numerator below
    [2 ^ 53 / 20], it is the exact quotient rounded to one decimal, half
    up, but for a quotient exactly halfway between two numbers of one
    decimal, where it can also be the lower of the two. *)
Lemma toFixed1_quotient (s n : Z) :
  (0 < n <= s)%Z -> (20 * s < 2 ^ 53)%Z ->
  let m := inject_Z s / inject_Z n in
  let j := Qfloor (m * 10 + (1 # 2)) in
  JSNumber.toFixed1 (JSNumber.div (inject_Z s) (inject_Z n)) = j
  \/ (m * 20 == inject_Z (2 * j - 1)
      /\ JSNumber.toFixed1 (JSNumber.div (inject_Z s) (inject_Z n)) = (j - 1)%Z).
Proof.
  intros [Hn Hns] Hs m j. unfold JSNumber.div. fold m.
  set (x := JSNumber.binary64 m).
  assert (HN : 1 <= inject_Z n).
  { change 1 with (inject_Z 1). rewrite <- Zle_Qle. lia. }
  assert (HSN : inject_Z n <= inject_Z s) by (rewrite <- Zle_Qle; lia).
  assert (HmN : m * inject_Z n == inject_Z s).
  { unfold m. field. intros E. lra. }
  assert (Hm1 : 1 <= m).
  { unfold m. apply Qle_shift_div_l; lra. }
  assert (Hd : 0 < 2 ^ (-53)) by apply pow2_pos.
  assert (Hd53 : 2 ^ (-53) * inject_Z (2 ^ 53) == 1) by reflexivity.
  assert (HS : inject_Z (20 * s) < inject_Z (2 ^ 53)) by (rewrite <- Zlt_Qlt; exact Hs).
  rewrite inject_Z_mult in HS. change (inject_Z 20) with 20 in HS.
  assert (Hsmall : 20 * inject_Z s * 2 ^ (-53) < 1).
  { rewrite <- Hd53. set (d := 2 ^ (-53)) in *. nra. }
  assert (Hclose : m - m * 2 ^ (-53) <= x /\ x <= m + m * 2 ^ (-53)).
  { apply binary64_close. eapply Qle_trans; [|exact Hm1]. discriminate. }
  destruct Hclose as [Hx1 Hx2].
  assert (Hx0 : 0 <= x) by (apply binary64_nonneg; lra).
  pose proof (Qfloor_le (m * 10 + (1 # 2))) as Hj1.
  pose proof (Qlt_floor (m * 10 + (1 # 2))) as Hj2.
  fold j in Hj1, Hj2. rewrite inject_Z_plus in Hj2. change (inject_Z 1) with 1 in Hj2.
  (* the whole-number form of the two bounds *)
  assert (Hup : inject_Z (20 * s) + 1 <= inject_Z ((2 * j + 1) * n)).
  { assert (H : (20 * s < (2 * j + 1) * n)%Z).
    { rewrite Zlt_Qlt, !inject_Z_mult, inject_Z_plus, inject_Z_mult.
      change (inject_Z 20) with 20. change (inject_Z 2) with 2.
      change (inject_Z 1) with 1. nra. }
    change 1 with (inject_Z 1). rewrite <- inject_Z_plus, <- Zle_Qle. lia. }
  rewrite !inject_Z_mult, inject_Z_plus, inject_Z_mult in Hup.
  change (inject_Z 20) with 20 in Hup. change (inject_Z 2) with 2 in Hup.
  change (inject_Z 1) with 1 in Hup.
  assert (Hlow : ((2 * j - 1) * n <= 20 * s)%Z).
  { rewrite Zle_Qle, !inject_Z_mult. unfold Z.sub. rewrite inject_Z_plus, inject_Z_mult.
    change (inject_Z 20) with 20. change (inject_Z 2) with 2.
    change (inject_Z (- (1))) with (-1). nra. }
  assert (Hxup : x * 10 + (1 # 2) < inject_Z j + 1).
  { set (d := 2 ^ (-53)) in *. set (N := inject_Z n) in *. set (S := inject_Z s) in *.
    set (J := inject_Z j) in *.
    assert (H : 20 * N * x < (2 * J + 1) * N) by nra.
    nra. }
  unfold JSNumber.toFixed1.
  assert (Hb : Qle_bool 0 x = true) by (apply Qle_bool_iff; exact Hx0).
  rewrite Hb.
  destruct (Z.eq_dec ((2 * j - 1) * n) (20 * s)) as [Htie|Hno].
  - (* halfway *)
    assert (HtieQ : m * 20 == inject_Z (2 * j - 1)).
    { assert (H : inject_Z ((2 * j - 1) * n) == inject_Z (20 * s)) by (now rewrite Htie).
      rewrite !inject_Z_mult in H. change (inject_Z 20) with 20 in H.
      set (N := inject_Z n) in *. set (S := inject_Z s) in *.
      set (K := inject_Z (2 * j - 1)) in *.
      assert (HK : (m * 20 - K) * N == 0) by nra.
      apply Qmult_integral in HK. destruct HK as [HK|HK]; lra. }
    destruct (Qlt_le_dec (x * 10 + (1 # 2)) (inject_Z j)) as [Hlt|Hge].
    + right. split; [exact HtieQ|].
      apply Qfloor_unique.
      * unfold Z.sub in *. rewrite inject_Z_plus in *. rewrite inject_Z_mult in HtieQ.
        change (inject_Z 2) with 2 in HtieQ. change (inject_Z (- (1))) with (-1) in *.
        set (d := 2 ^ (-53)) in *. set (N := inject_Z n) in *. set (S := inject_Z s) in *.
        set (J := inject_Z j) in *.
        assert (H : 20 * m * d < 1) by nra.
        nra.
      * unfold Z.sub. rewrite inject_Z_plus. change (inject_Z (- (1))) with (-1). lra.
    + left. apply Qfloor_unique; lra.
  - left. apply Qfloor_unique; [|exact Hxup].
    assert (H : inject_Z ((2 * j - 1) * n) + 1 <= inject_Z (20 * s)).
    { change 1 with (inject_Z 1). rewrite <- inject_Z_plus, <- Zle_Qle. lia. }
    rewrite !inject_Z_mult in H. unfold Z.sub in H.
    rewrite inject_Z_plus, inject_Z_mult in H.
    change (inject_Z 20) with 20 in H. change (inject_Z 2) with 2 in H.
    change (inject_Z (- (1))) with (-1) in H.
    set (d := 2 ^ (-53)) in *. set (N := inject_Z n) in *. set (S := inject_Z s) in *.
    set (J := inject_Z j) in *.
    assert (H' : (2 * J - 1) * N < 20 * N * x) by nra.
    nra.
Qed.

End Binary64.

(** ** Facts about strings *)

Lemma string_app_assoc (a b c : string) : (a ++ b) ++ c = a ++ b ++ c.
Proof. induction a as [|x a IH]; simpl; [reflexivity | now rewrite IH]. Qed.

Lemma prefix_iff (t s : string) :
  String.prefix t s = true <-> exists b, s = t ++ b.
Proof.
  revert s. induction t as [|x t IH]; intros s.
  - split; [intros _; exists s; reflexivity | intros _; destruct s; reflexivity].
  - destruct s as [|y s].
    + split; [discriminate | intros [b Hb]; discriminate].
    + change (String.prefix (String x t) (String y s))
        with (if ascii_dec x y then String.prefix t s else false).
      destruct (ascii_dec x y) as [->|Hne].
      * rewrite IH. split; intros [b Hb]; exists b; simpl in *; congruence.
      * split; [discriminate | intros [b Hb]; simpl in Hb; congruence].
Qed.

Lemma includes_unfold (s t : string) :
  JS.includes s t
  = if String.prefix t s then true
    else match s with
         | EmptyString => false
         | String _ r => JS.includes r t
         end.
Proof. destruct s; reflexivity. Qed.

Lemma includes_iff (s t : string) :
  JS.includes s t = true <-> exists a b, s = a ++ t ++ b.
Proof.
  split.
  - induction s as [|c r IH]; rewrite includes_unfold;
      destruct (String.prefix t _) eqn:E.
    + intros _. apply prefix_iff in E. destruct E as [b Hb]. exists "", b. exact Hb.
    + discriminate.
    + intros _. apply prefix_iff in E. destruct E as [b Hb]. exists "", b. exact Hb.
    + intros H. destruct (IH H) as (a & b & Hab). exists (String c a), b.
      simpl. now rewrite Hab.
  - intros (a & b & Hab). subst s. induction a as [|c a IH].
    + rewrite includes_unfold.
      assert (E : String.prefix t ("" ++ t ++ b) = true)
        by (apply prefix_iff; exists b; reflexivity).
      now rewrite E.
    + rewrite includes_unfold.
      destruct (String.prefix t _); [reflexivity | exact IH].
Qed.

Lemma toLowerCase_app (a b : string) :
  JS.toLowerCase (a ++ b) = JS.toLowerCase a ++ JS.toLowerCase b.
Proof. induction a as [|c a IH]; simpl; [reflexivity | now rewrite IH]. Qed.

(** [toLowerCase] and the letters: two code units have the same image
    exactly when they are the same letter. *)
Lemma lower_unit_code (c : ascii) :
  N_of_ascii (JS.lower_unit c)
  = (if ((65 <=? N_of_ascii c) && (N_of_ascii c <=? 90)
         || (192 <=? N_of_ascii c) && (N_of_ascii c <=? 222)
            && negb (N_of_ascii c =? 215))%N
     then N_of_ascii c + 32 else N_of_ascii c)%N.
Proof.
  unfold JS.lower_unit.
  pose proof (N_ascii_bounded c) as Hc.
  destruct ((65 <=? N_of_ascii c) && (N_of_ascii c <=? 90)
            || (192 <=? N_of_ascii c) && (N_of_ascii c <=? 222)
               && negb (N_of_ascii c =? 215))%N eqn:E; [|reflexivity].
  apply N_ascii_embedding.
  rewrite orb_true_iff, !andb_true_iff, !N.leb_le in E. lia.
Qed.

Lemma capital_code (c : ascii) :
  capital c
  <-> ((65 <=? N_of_ascii c) && (N_of_ascii c <=? 90)
       || (192 <=? N_of_ascii c) && (N_of_ascii c <=? 222)
          && negb (N_of_ascii c =? 215))%N = true.
Proof.
  unfold capital, nat_of_ascii.
  rewrite orb_true_iff, !andb_true_iff, negb_true_iff, !N.leb_le, N.eqb_neq.
  split; intros H; lia.
Qed.

Lemma ascii_code_inj (c d : ascii) : N_of_ascii c = N_of_ascii d -> c = d.
Proof.
  intros H. rewrite <- (ascii_N_embedding c), <- (ascii_N_embedding d). now rewrite H.
Qed.

Lemma lower_unit_sameLetter (c d : ascii) :
  JS.lower_unit c = JS.lower_unit d <-> sameLetter c d.
Proof.
  unfold sameLetter, smallOf.
  rewrite !capital_code.
  assert (Hn : forall a b : ascii,
            nat_of_ascii b = (nat_of_ascii a + 32)%nat
            <-> N_of_ascii b = (N_of_ascii a + 32)%N)
    by (intros a b; unfold nat_of_ascii; lia).
  rewrite !Hn.
  pose proof (lower_unit_code c) as Hc. pose proof (lower_unit_code d) as Hd.
  pose proof (N_ascii_bounded c) as Bc. pose proof (N_ascii_bounded d) as Bd.
  split.
  - intros E. rewrite E in Hc. rewrite Hd in Hc. clear Hd E.
    destruct ((65 <=? N_of_ascii c) && (N_of_ascii c <=? 90)
              || (192 <=? N_of_ascii c) && (N_of_ascii c <=? 222)
                 && negb (N_of_ascii c =? 215))%N eqn:Ec;
      destruct ((65 <=? N_of_ascii d) && (N_of_ascii d <=? 90)
                || (192 <=? N_of_ascii d) && (N_of_ascii d <=? 222)
                   && negb (N_of_ascii d =? 215))%N eqn:Ed.
    + left. apply ascii_code_inj. lia.
    + right. left. split; [reflexivity | lia].
    + right. right. split; [reflexivity | lia].
    + left. apply ascii_code_inj. lia.
  - intros [E|[[Hcap E]|[Hcap E]]].
    + now subst d.
    + apply ascii_code_inj. rewrite Hc, Hd, Hcap.
      rewrite orb_true_iff, !andb_true_iff, negb_true_iff, !N.leb_le, N.eqb_neq in Hcap.
      destruct ((65 <=? N_of_ascii d) && (N_of_ascii d <=? 90)
                || (192 <=? N_of_ascii d) && (N_of_ascii d <=? 222)
                   && negb (N_of_ascii d =? 215))%N eqn:Ed; [|lia].
      rewrite orb_true_iff, !andb_true_iff, negb_true_iff, !N.leb_le, N.eqb_neq in Ed.
      lia.
    + apply ascii_code_inj. rewrite Hc, Hd, Hcap.
      rewrite orb_true_iff, !andb_true_iff, negb_true_iff, !N.leb_le, N.eqb_neq in Hcap.
      destruct ((65 <=? N_of_ascii c) && (N_of_ascii c <=? 90)
                || (192 <=? N_of_ascii c) && (N_of_ascii c <=? 222)
                   && negb (N_of_ascii c =? 215))%N eqn:Ec; [|lia].
      rewrite orb_true_iff, !andb_true_iff, negb_true_iff, !N.leb_le, N.eqb_neq in Ec.
      lia.
Qed.

Lemma toLowerCase_equalIgnoringCase (s t : string) :
  JS.toLowerCase s = JS.toLowerCase t <-> equalIgnoringCase s t.
Proof.
  split.
  - revert t. induction s as [|c s IH]; intros [|d t] H; simpl in H;
      try discriminate.
    + constructor.
    + injection H as Hc Hs. constructor; [now apply lower_unit_sameLetter | now apply IH].
  - induction 1 as [|c d s t Hcd _ IH]; simpl; [reflexivity|].
    apply lower_unit_sameLetter in Hcd. now rewrite Hcd, IH.
Qed.

Lemma toLowerCase_split (s a b : string) :
  JS.toLowerCase s = a ++ b ->
  exists s1 s2, s = s1 ++ s2 /\ JS.toLowerCase s1 = a /\ JS.toLowerCase s2 = b.
Proof.
  revert s. induction a as [|x a IH]; intros s H.
  - exists "", s. auto.
  - destruct s as [|c s]; simpl in H; [discriminate|].
    injection H as Hx Hs. destruct (IH s Hs) as (s1 & s2 & -> & H1 & H2).
    exists (String c s1), s2. simpl. rewrite H1, Hx. auto.
Qed.

(** The search test of the code is matching without regard to case. *)
Lemma includes_ignoringCase (s text : string) :
  JS.includes (JS.toLowerCase s) (JS.toLowerCase text) = true
  <-> containsIgnoringCase s text.
Proof.
  rewrite includes_iff. unfold containsIgnoringCase. split.
  - intros (a & b & H).
    apply toLowerCase_split in H. destruct H as (s1 & s' & -> & H1 & H').
    apply toLowerCase_split in H'. destruct H' as (s2 & s3 & -> & H2 & H3).
    exists s1, s2, s3. split; [reflexivity|].
    now apply toLowerCase_equalIgnoringCase.
  - intros (s1 & s2 & s3 & -> & H). apply toLowerCase_equalIgnoringCase in H.
    exists (JS.toLowerCase s1), (JS.toLowerCase s3).
    now rewrite !toLowerCase_app, H.
Qed.

(** ** Facts about [Array.prototype.sort] *)

Section SortFacts.
Context {A : Type}.
Variable comparator : A -> A -> Q.

Local Abbreviation notAfter := (fun a b => (comparator a b <= 0)%Q).

Lemma insert_Permutation (x : A) (l : list A) :
  Permutation (x :: l) (JSArray.insert comparator x l).
Proof.
  induction l as [|y r IH]; simpl.
  - apply Permutation_refl.
  - destruct (Qle_bool (comparator x y) 0).
    + apply Permutation_refl.
    + eapply perm_trans; [apply perm_swap|].
      apply perm_skip, IH.
Qed.

Lemma sort_Permutation (l : list A) : Permutation l (JSArray.sort comparator l).
Proof.
  induction l as [|x r IH]; simpl.
  - apply perm_nil.
  - eapply perm_trans; [apply perm_skip, IH|].
    apply insert_Permutation.
Qed.

(** Stability: a class of elements none of which is after another keeps
    its order. *)
Lemma insert_filter (E : A -> bool) (x : A) (l : list A) :
  (forall a b, E a = true -> E b = true -> (comparator a b <= 0)%Q) ->
  filter E (JSArray.insert comparator x l) = filter E (x :: l).
Proof.
  intros HE. induction l as [|y r IH]; simpl.
  - reflexivity.
  - destruct (Qle_bool (comparator x y) 0) eqn:Hxy; simpl.
    + reflexivity.
    + simpl in IH. rewrite IH.
      destruct (E x) eqn:Ex, (E y) eqn:Ey; try reflexivity.
      exfalso. apply (HE x y Ex) in Ey.
      apply Qle_bool_iff in Ey. congruence.
Qed.

Lemma sort_filter (E : A -> bool) (l : list A) :
  (forall a b, E a = true -> E b = true -> (comparator a b <= 0)%Q) ->
  filter E (JSArray.sort comparator l) = filter E l.
Proof.
  intros HE. induction l as [|x r IH]; simpl.
  - reflexivity.
  - rewrite (insert_filter E x _ HE). simpl. now rewrite IH.
Qed.

(** Order: for a comparator that is total and transitive. *)
Hypothesis comparator_total :
  forall a b, ~ (comparator a b <= 0)%Q -> (comparator b a <= 0)%Q.
Hypothesis comparator_trans :
  forall a b c, (comparator a b <= 0)%Q -> (comparator b c <= 0)%Q ->
                (comparator a c <= 0)%Q.

Lemma insert_StronglySorted (x : A) (l : list A) :
  StronglySorted notAfter l ->
  StronglySorted notAfter (JSArray.insert comparator x l).
Proof.
  induction 1 as [|y r Hr IH Hy]; simpl.
  - constructor; constructor.
  - destruct (Qle_bool (comparator x y) 0) eqn:Hxy.
    + apply Qle_bool_iff in Hxy.
      constructor; [constructor; assumption|].
      constructor; [assumption|].
      eapply Forall_impl; [|exact Hy].
      intros z Hz. eapply comparator_trans; eassumption.
    + assert (Hyx : (comparator y x <= 0)%Q).
      { apply comparator_total. intros H. apply Qle_bool_iff in H. congruence. }
      constructor; [assumption|].
      eapply Permutation_Forall; [apply insert_Permutation|].
      constructor; assumption.
Qed.

Lemma sort_StronglySorted (l : list A) :
  StronglySorted notAfter (JSArray.sort comparator l).
Proof.
  induction l as [|x r IH]; simpl.
  - constructor.
  - apply insert_StronglySorted, IH.
Qed.

End SortFacts.

(** ** Facts about the store of arrays *)

Lemma read_alloc_new (h : Mem.store) (l : list Product.t) :
  Mem.read (fst (Mem.alloc h l)) (snd (Mem.alloc h l)) = l.
Proof.
  unfold Mem.alloc, Mem.read; simpl.
  rewrite app_nth2, Nat.sub_diag; [reflexivity | lia].
Qed.

Lemma read_alloc_old (h : Mem.store) (l : list Product.t) (a : nat) :
  (a < List.length h)%nat -> Mem.read (fst (Mem.alloc h l)) a = Mem.read h a.
Proof.
  intros Ha. unfold Mem.alloc, Mem.read; simpl.
  now rewrite app_nth1.
Qed.

Lemma read_write_same (h : Mem.store) (a : nat) (l : list Product.t) :
  (a < List.length h)%nat -> Mem.read (Mem.write h a l) a = l.
Proof.
  revert a. induction h as [|x r IH]; intros [|a] Ha; simpl in *; try lia.
  - reflexivity.
  - apply IH. lia.
Qed.

Lemma read_write_other (h : Mem.store) (a b : nat) (l : list Product.t) :
  a <> b -> Mem.read (Mem.write h a l) b = Mem.read h b.
Proof.
  revert a b. induction h as [|x r IH]; intros [|a] [|b] Hab; simpl; try reflexivity.
  - congruence.
  - apply IH. congruence.
Qed.

(** ** The sort of [filteredProducts] (claim C5) *)

Lemma Qminus_le_0 (a b : Q) : (a - b <= 0)%Q <-> (a <= b)%Q.
Proof. split; intros H; lra. Qed.

Lemma StronglySorted_impl {A : Type} (R1 R2 : A -> A -> Prop) (l : list A) :
  (forall a b, R1 a b -> R2 a b) -> StronglySorted R1 l -> StronglySorted R2 l.
Proof.
  intros HR. induction 1 as [|x r Hr IH Hx]; constructor.
  - exact IH.
  - eapply Forall_impl; [|exact Hx]. intros; now apply HR.
Qed.

(** Sorting on a numeric key, by the difference of the keys. *)
Section SortByKey.
Context {A : Type}.
Variable key : A -> Q.

Lemma sort_ascending (l : list A) :
  let res := JSArray.sort (fun a b => key a - key b)%Q l in
  StronglySorted (fun a b => (key a <= key b)%Q) res
  /\ forall k, filter (fun p => Qeq_bool (key p) k) res
               = filter (fun p => Qeq_bool (key p) k) l.
Proof.
  intros res. split.
  - eapply StronglySorted_impl; [|apply sort_StronglySorted].
    + intros a b H. apply Qminus_le_0. exact H.
    + intros a b H. assert (key b <= key a)%Q; lra.
    + intros a b c H1 H2. lra.
  - intros k. apply sort_filter. intros a b Ha Hb.
    apply Qeq_bool_iff in Ha, Hb. lra.
Qed.

Lemma sort_descending (l : list A) :
  let res := JSArray.sort (fun a b => key b - key a)%Q l in
  StronglySorted (fun a b => (key b <= key a)%Q) res
  /\ forall k, filter (fun p => Qeq_bool (key p) k) res
               = filter (fun p => Qeq_bool (key p) k) l.
Proof.
  intros res. split.
  - eapply StronglySorted_impl; [|apply sort_StronglySorted].
    + intros a b H. apply Qminus_le_0. exact H.
    + intros a b H. assert (key a <= key b)%Q; lra.
    + intros a b c H1 H2. lra.
  - intros k. apply sort_filter. intros a b Ha Hb.
    apply Qeq_bool_iff in Ha, Hb. lra.
Qed.

End SortByKey.

Section Sorting.
Variable localeCompare : string -> string -> Z.

(** The collation is a consistent comparison: an argument pair that is
    not before is, swapped, not after; and "not after" is transitive. *)
Hypothesis localeCompare_sym :
  forall a b, 0 <= localeCompare a b -> localeCompare b a <= 0.
Hypothesis localeCompare_trans :
  forall a b c, localeCompare a b <= 0 -> localeCompare b c <= 0 ->
                localeCompare a c <= 0.

Lemma inject_Z_le_0 (z : Z) : (inject_Z z <= 0)%Q <-> z <= 0.
Proof.
  unfold Qle, inject_Z; simpl. lia.
Qed.

Lemma localeCompare_refl_le (a : string) : localeCompare a a <= 0.
Proof.
  destruct (Z_le_gt_dec (localeCompare a a) 0) as [H|H]; [exact H|].
  apply localeCompare_sym. lia.
Qed.

(** C5. The sort of the catalog query.  The array returned holds the
    result and no array that was there before is changed, the catalog's
    among them; the result is a rearrangement of the filtered products;
    "featured" keeps their order; "price-low" and "price-high" put prices
    in ascending and descending order, "rating" puts ratings in descending
    order, "name" puts names in the ascending order of the collation; and
    in each case the products of equal key keep the order they had in the
    filtered sequence. *)
Theorem sorting_spec (s : State) (h : Mem.store) (productsAt : nat)
    (Hat : (productsAt < List.length h)%nat)
    (Hread : Mem.read h productsAt = products s) :
  let pre := filter (matches s) (products s) in
  let res := filteredProducts localeCompare s in
  let out := filteredProducts_mem localeCompare s h productsAt in
  Mem.read (fst out) (snd out) = res
  /\ (forall a, (a < List.length h)%nat -> Mem.read (fst out) a = Mem.read h a)
  /\ Mem.read (fst out) productsAt = products s
  /\ Permutation pre res
  /\ match sortBy s with
     | featured => res = pre
     | price_low =>
         StronglySorted (fun a b => (Product.price a <= Product.price b)%Q) res
         /\ forall k, filter (fun p => Qeq_bool (Product.price p) k) res
                      = filter (fun p => Qeq_bool (Product.price p) k) pre
     | price_high =>
         StronglySorted (fun a b => (Product.price b <= Product.price a)%Q) res
         /\ forall k, filter (fun p => Qeq_bool (Product.price p) k) res
                      = filter (fun p => Qeq_bool (Product.price p) k) pre
     | by_rating =>
         StronglySorted (fun a b => (Product.rating b <= Product.rating a)%Q) res
         /\ forall k, filter (fun p => Qeq_bool (Product.rating p) k) res
                      = filter (fun p => Qeq_bool (Product.rating p) k) pre
     | by_name =>
         StronglySorted
           (fun a b => localeCompare (Product.name a) (Product.name b) <= 0) res
         /\ (forall n, filter (fun p => String.eqb (Product.name p) n) res
                       = filter (fun p => String.eqb (Product.name p) n) pre)
         /\ (forall n, filter (fun p => localeCompare (Product.name p) n =? 0) res
                       = filter (fun p => localeCompare (Product.name p) n =? 0) pre)
     end.
Proof.
  intros pre res out.
  assert (Hmem : Mem.read (fst out) (snd out) = res
                 /\ forall a, (a < List.length h)%nat ->
                              Mem.read (fst out) a = Mem.read h a).
  { subst out res. unfold filteredProducts_mem, filteredProducts, Mem.filter.
    rewrite Hread. fold pre.
    destruct (comparatorOf localeCompare (sortBy s)) as [c|]; simpl.
    - unfold Mem.sort. split.
      + rewrite read_write_same.
        * unfold Mem.read. rewrite app_nth2, Nat.sub_diag; [reflexivity|lia].
        * rewrite length_app; simpl; lia.
      + intros a Ha. rewrite read_write_other by lia.
        unfold Mem.read. now rewrite app_nth1.
    - split.
      + unfold Mem.read. rewrite app_nth2, Nat.sub_diag; [reflexivity|lia].
      + intros a Ha. unfold Mem.read. now rewrite app_nth1. }
  destruct Hmem as [Hres Hold].
  split; [exact Hres|]. split; [exact Hold|].
  split; [rewrite Hold by exact Hat; exact Hread|].
  subst res. unfold filteredProducts. fold pre.
  destruct (sortBy s); simpl.
  - split; [apply Permutation_refl | reflexivity].
  - split; [apply sort_Permutation | apply (sort_ascending Product.price)].
  - split; [apply sort_Permutation | apply (sort_descending Product.price)].
  - split; [apply sort_Permutation | apply (sort_descending Product.rating)].
  - split; [apply sort_Permutation|]. split; [|split].
    + eapply StronglySorted_impl;
        [|apply sort_StronglySorted].
      * intros a b H. apply inject_Z_le_0. exact H.
      * intros a b H. apply inject_Z_le_0. apply localeCompare_sym.
        rewrite inject_Z_le_0 in H. lia.
      * intros a b c H1 H2. apply inject_Z_le_0.
        rewrite inject_Z_le_0 in H1, H2. eapply localeCompare_trans; eassumption.
    + intros n. apply sort_filter. intros a b Ha Hb.
      apply String.eqb_eq in Ha, Hb. rewrite Ha, Hb.
      apply inject_Z_le_0, localeCompare_refl_le.
    + intros n. apply sort_filter. intros a b Ha Hb.
      apply Z.eqb_eq in Ha, Hb. apply inject_Z_le_0.
      apply (localeCompare_trans _ n); [lia|].
      apply localeCompare_sym. lia.
Qed.

End Sorting.

(** The code-unit collation is a consistent comparison. *)
Lemma compare_not_Gt_trans (a b c : string) :
  String.compare a b <> Gt -> String.compare b c <> Gt -> String.compare a c <> Gt.
Proof.
  revert b c. induction a as [|x a IH]; intros [|y b] [|z c]; simpl; try congruence.
  unfold Ascii.compare.
  destruct (N.compare_spec (N_of_ascii x) (N_of_ascii y)) as [Hxy|Hxy|Hxy];
    destruct (N.compare_spec (N_of_ascii y) (N_of_ascii z)) as [Hyz|Hyz|Hyz];
    destruct (N.compare_spec (N_of_ascii x) (N_of_ascii z)) as [Hxz|Hxz|Hxz];
    try congruence; try lia.
  apply IH.
Qed.

Lemma ordinalCompare_sym (a b : string) :
  0 <= ordinalCompare a b -> ordinalCompare b a <= 0.
Proof.
  unfold ordinalCompare. rewrite (String.compare_antisym a b).
  destruct (String.compare b a); simpl; lia.
Qed.

Lemma ordinalCompare_trans (a b c : string) :
  ordinalCompare a b <= 0 -> ordinalCompare b c <= 0 -> ordinalCompare a c <= 0.
Proof.
  unfold ordinalCompare. intros Hab Hbc.
  assert (H : String.compare a c <> Gt).
  { apply (compare_not_Gt_trans a b c).
    - destruct (String.compare a b); [congruence | congruence | lia].
    - destruct (String.compare b c); [congruence | congruence | lia]. }
  destruct (String.compare a c); [lia | lia | congruence].
Qed.

Lemma sorting_spec_witness :
  (forall a b, 0 <= ordinalCompare a b -> ordinalCompare b a <= 0)
  /\ (forall a b c, ordinalCompare a b <= 0 -> ordinalCompare b c <= 0 ->
                    ordinalCompare a c <= 0)
  /\ (0 < List.length [PRODUCTS])%nat
  /\ Mem.read [PRODUCTS] 0 = products sampleQuery
  /\ map Product.id (filteredProducts ordinalCompare sampleQuery)
     = ["netflix-prem"; "spotify-prem"; "xbox-gamepass"]
  /\ Mem.read (fst (filteredProducts_mem ordinalCompare sampleQuery [PRODUCTS] 0)) 0
     = PRODUCTS.
Proof.
  pose proof (sorting_spec ordinalCompare ordinalCompare_sym ordinalCompare_trans
                sampleQuery [PRODUCTS] 0%nat (Nat.lt_0_succ 0) eq_refl) as H.
  cbv zeta in H. destruct H as (_ & _ & Hcat & _).
  split; [exact ordinalCompare_sym|].
  split; [exact ordinalCompare_trans|].
  split; [apply Nat.lt_0_succ|].
  split; [reflexivity|].
  split; [vm_compute; reflexivity|].
  exact Hcat.
Defined.

(** ** The filter of [filteredProducts] (claim C4) *)

Lemma Category_eqb_eq (a b : Category) : Category_eqb a b = true <-> a = b.
Proof. destruct a, b; simpl; split; congruence. Qed.

Lemma Stock_eqb_eq (a b : Stock) : Stock_eqb a b = true <-> a = b.
Proof. destruct a, b; simpl; split; congruence. Qed.

Lemma CategoryFilter_eqb_eq (a b : CategoryFilter) :
  CategoryFilter_eqb a b = true <-> a = b.
Proof.
  destruct a as [|x], b as [|y]; simpl; try (split; congruence).
  rewrite Category_eqb_eq. split; congruence.
Qed.

Lemma matchesCategory_iff (s : State) (p : Product.t) :
  matchesCategory s p = true
  <-> activeCategory s = All \/ activeCategory s = Only (Product.category p).
Proof.
  unfold matchesCategory. rewrite orb_true_iff, !CategoryFilter_eqb_eq.
  intuition congruence.
Qed.

Lemma matchesStock_iff (s : State) (p : Product.t) :
  matchesStock s p = true <-> (stockOnly s = true -> Product.stock p = InStock).
Proof.
  unfold matchesStock. rewrite orb_true_iff, negb_true_iff, Stock_eqb_eq.
  destruct (stockOnly s); intuition congruence.
Qed.

Lemma matches_holds (s : State) (p : Product.t) :
  matches s p = forallb (holds s p) conditions.
Proof.
  unfold matches; simpl. rewrite andb_true_r, !andb_assoc. reflexivity.
Qed.

Lemma matches_matchesWithout (dropped : condition) (s : State) (p : Product.t) :
  matches s p = true -> matchesWithout dropped s p = true.
Proof.
  rewrite matches_holds. unfold matchesWithout. rewrite !forallb_forall.
  intros H c Hc. apply H. apply filter_In in Hc. tauto.
Qed.

Lemma filteredProducts_Permutation (localeCompare : string -> string -> Z)
    (s : State) :
  Permutation (filter (matches s) (products s)) (filteredProducts localeCompare s).
Proof.
  unfold filteredProducts.
  destruct (comparatorOf localeCompare (sortBy s)).
  - apply sort_Permutation.
  - apply Permutation_refl.
Qed.

Lemma filteredProductsWithout_Permutation (dropped : condition)
    (localeCompare : string -> string -> Z) (s : State) :
  Permutation (filter (matchesWithout dropped s) (products s))
              (filteredProductsWithout dropped localeCompare s).
Proof.
  unfold filteredProductsWithout.
  destruct (comparatorOf localeCompare (sortBy s)).
  - apply sort_Permutation.
  - apply Permutation_refl.
Qed.

(** C4. With the lower price bound at 0, as the slider keeps it, a product
    is in the result of the query exactly when it is in the catalog and
    meets all five conditions: its name contains the search text, case
    apart; its category is the one chosen, or All is chosen; its price is
    between 0 and the ceiling; its rating is at least the threshold; it is
    in stock when only stock is asked for.  And the query with any one
    condition removed returns every product the full query returns. *)
Theorem filter_spec (localeCompare : string -> string -> Z) (s : State)
    (p : Product.t) (Hlo : (fst (priceRange s) == 0)%Q) :
  (In p (filteredProducts localeCompare s)
   <-> In p (products s)
       /\ containsIgnoringCase (Product.name p) (searchQuery s)
       /\ (activeCategory s = All \/ activeCategory s = Only (Product.category p))
       /\ (0 <= Product.price p /\ Product.price p <= snd (priceRange s))%Q
       /\ (minRating s <= Product.rating p)%Q
       /\ (stockOnly s = true -> Product.stock p = InStock))
  /\ (forall dropped,
        In p (filteredProducts localeCompare s) ->
        In p (filteredProductsWithout dropped localeCompare s)).
Proof.
  assert (Hin : forall q, In q (filteredProducts localeCompare s)
                          <-> In q (products s) /\ matches s q = true).
  { intros q. rewrite <- filter_In. split; apply Permutation_in.
    - apply Permutation_sym, filteredProducts_Permutation.
    - apply filteredProducts_Permutation. }
  split.
  - rewrite Hin. unfold matches, matchesSearch, matchesPrice, matchesRating.
    rewrite !andb_true_iff, matchesCategory_iff, matchesStock_iff, !Qle_bool_iff.
    rewrite includes_ignoringCase, Hlo. tauto.
  - intros dropped H. apply Hin in H. destruct H as [Hp Hm].
    eapply Permutation_in; [apply filteredProductsWithout_Permutation|].
    apply filter_In. split; [exact Hp|].
    apply matches_matchesWithout, Hm.
Qed.

(** PREMIUM in capitals finds Netflix Premium 4K among the streaming
    products, and Spotify Premium Family, a music product, is left out. *)
Lemma filter_spec_witness :
  (fst (priceRange sampleSearch) == 0)%Q
  /\ In netflix_prem (filteredProducts ordinalCompare sampleSearch)
  /\ ~ In spotify_prem (filteredProducts ordinalCompare sampleSearch).
Proof.
  split; [reflexivity|]. split.
  - apply (filter_spec ordinalCompare sampleSearch netflix_prem (Qeq_refl 0)).
    split; [left; reflexivity|]. split.
    + exists "Netflix ", "Premium", " 4K". split; [reflexivity|].
      repeat (apply equalIgnoringCase_cons;
              [first [left; reflexivity
                     | right; right; split; [left; vm_compute; lia | reflexivity]]|]).
      apply equalIgnoringCase_nil.
    + repeat split; simpl; try (right; reflexivity); try discriminate;
        intros; reflexivity.
  - intros H.
    apply (filter_spec ordinalCompare sampleSearch spotify_prem (Qeq_refl 0)) in H.
    destruct H as (_ & _ & [Hc|Hc] & _); discriminate.
Defined.

(** ** Recommendations (claim C3) *)

Lemma Subsequence_refl {A : Type} (l : list A) : Subsequence l l.
Proof. induction l; [constructor | apply Subsequence_keep; assumption]. Qed.

Lemma Subsequence_filter {A : Type} (f : A -> bool) (l : list A) :
  Subsequence (filter f l) l.
Proof.
  induction l as [|x r IH]; simpl.
  - constructor.
  - destruct (f x); [apply Subsequence_keep | apply Subsequence_skip]; exact IH.
Qed.

Lemma Subsequence_nil_l {A : Type} (l : list A) : Subsequence [] l.
Proof. induction l; constructor; assumption. Qed.

Lemma Subsequence_firstn {A : Type} (n : nat) (l : list A) :
  Subsequence (firstn n l) l.
Proof.
  revert n. induction l as [|x r IH]; intros [|n]; simpl.
  - constructor.
  - constructor.
  - apply Subsequence_nil_l.
  - apply Subsequence_keep, IH.
Qed.

Lemma Subsequence_trans {A : Type} (l1 l2 l3 : list A) :
  Subsequence l1 l2 -> Subsequence l2 l3 -> Subsequence l1 l3.
Proof.
  intros H12 H23. revert l1 H12.
  induction H23 as [|x l2 l3 H IH|x l2 l3 H IH]; intros l1 H12.
  - exact H12.
  - constructor. apply IH, H12.
  - inversion H12; subst.
    + apply Subsequence_skip, IH. assumption.
    + apply Subsequence_keep, IH. assumption.
Qed.

Lemma Subsequence_In {A : Type} (l1 l2 : list A) (x : A) :
  Subsequence l1 l2 -> In x l1 -> In x l2.
Proof.
  induction 1 as [|y l1 l2 H IH|y l1 l2 H IH]; simpl; intros Hx.
  - exact Hx.
  - right. apply IH, Hx.
  - destruct Hx as [Hx|Hx]; [left; exact Hx | right; apply IH, Hx].
Qed.

Lemma Subsequence_map {A B : Type} (f : A -> B) (l1 l2 : list A) :
  Subsequence l1 l2 -> Subsequence (map f l1) (map f l2).
Proof.
  induction 1; simpl;
    [constructor | apply Subsequence_skip | apply Subsequence_keep]; assumption.
Qed.

Lemma Subsequence_NoDup {A : Type} (l1 l2 : list A) :
  Subsequence l1 l2 -> NoDup l2 -> NoDup l1.
Proof.
  induction 1 as [|y l1 l2 H IH|y l1 l2 H IH]; intros Hnd.
  - exact Hnd.
  - inversion Hnd; subst. apply IH. assumption.
  - inversion Hnd; subst. constructor.
    + intros Hin. eapply Subsequence_In in Hin; [|exact H]. contradiction.
    + apply IH. assumption.
Qed.

(** The ids of the seed catalog are pairwise distinct. *)
Lemma PRODUCTS_ids_NoDup : NoDup (map Product.id PRODUCTS).
Proof.
  simpl. repeat (constructor; [simpl; intuition discriminate|]). constructor.
Qed.

Lemma existsb_eqb_id (id : string) (cart : list CartItem.t) :
  existsb (fun c => String.eqb (CartItem.id c) id) cart = false
  <-> ~ In id (map CartItem.id cart).
Proof.
  induction cart as [|c r IH]; simpl.
  - tauto.
  - rewrite orb_false_iff, IH, String.eqb_neq. tauto.
Qed.

Lemma eligible_mayRecommend (names : list string) (cart : list CartItem.t)
    (p : Product.t) :
  eligible names cart p = true <-> mayRecommend names cart p.
Proof.
  unfold eligible, mayRecommend.
  rewrite andb_true_iff, negb_true_iff, existsb_eqb_id, existsb_exists.
  split; intros [(n & Hn & Hc) Hcart]; (split; [exists n; split; [exact Hn|] | exact Hcart]);
    now apply includes_ignoringCase.
Qed.

Lemma suggested_eligible (names : list string) (cart : list CartItem.t) :
  suggested names cart = firstn 3 (filter (eligible names cart) PRODUCTS).
Proof. reflexivity. Qed.

(** C3, as the code has it.  The products recommended are seed products,
    each with a name that contains one of the fragments, case apart, and
    none with an id in the cart; there are at most 3; their ids are pairwise
    distinct; and they come in the order of the catalog, not of the
    fragments: they are the first three of the products of the catalog
    that may be recommended, all of them when there are fewer than
    three. *)
Theorem recommendations_spec (cart : list CartItem.t) (names : list string) :
  let r := suggested names cart in
  (forall p, In p r -> In p PRODUCTS /\ mayRecommend names cart p)
  /\ (List.length r <= 3)%nat
  /\ NoDup (map Product.id r)
  /\ Subsequence r PRODUCTS
  /\ (forall p, eligible names cart p = true <-> mayRecommend names cart p)
  /\ (exists rest, filter (eligible names cart) PRODUCTS = (r ++ rest)%list
                   /\ ((List.length r < 3)%nat -> rest = []))
  /\ ((List.length r < 3)%nat ->
      forall p, In p PRODUCTS -> mayRecommend names cart p -> In p r).
Proof.
  intros r. subst r. rewrite suggested_eligible.
  set (l := filter (eligible names cart) PRODUCTS).
  assert (Hsub : Subsequence (firstn 3 l) PRODUCTS).
  { eapply Subsequence_trans; [apply Subsequence_firstn | apply Subsequence_filter]. }
  assert (Hshort : (List.length (firstn 3 l) < 3)%nat -> firstn 3 l = l).
  { intros H. rewrite length_firstn in H. apply firstn_all2. lia. }
  split; [|split; [|split; [|split; [exact Hsub|split; [|split]]]]].
  - intros p Hp. eapply Subsequence_In in Hp; [|apply Subsequence_firstn].
    apply filter_In in Hp. destruct Hp as [Hcat Hp].
    split; [exact Hcat | now apply eligible_mayRecommend].
  - apply firstn_le_length.
  - eapply Subsequence_NoDup; [apply Subsequence_map, Hsub|].
    apply PRODUCTS_ids_NoDup.
  - intros p. apply eligible_mayRecommend.
  - exists (skipn 3 l). split; [symmetry; apply firstn_skipn|].
    intros H. apply Hshort in H.
    pose proof (firstn_skipn 3 l) as Hl. rewrite H in Hl.
    rewrite <- (app_nil_r l) in Hl at 3. now apply app_inv_head in Hl.
  - intros H p Hp Hm. rewrite (Hshort H). apply filter_In.
    split; [exact Hp | now apply eligible_mayRecommend].
Qed.

(** C3 as stated fails on the order: with the fragments Spotify, Netflix
    and ChatGPT Plus in the cart, the list is Netflix (second fragment)
    ahead of Spotify (first one). *)
Lemma recommendations_order_counterexample :
  map Product.id (suggested sampleNames sampleCart)
  = ["netflix-prem"; "spotify-prem"]
  /\ map (firstFragment sampleNames) (suggested sampleNames sampleCart)
     = [Some 1%nat; Some 0%nat]
  /\ fragmentOrdered sampleNames (suggested sampleNames sampleCart) = false.
Proof. vm_compute. repeat split. Qed.

(** ** Recently viewed (claims C9 and C10) *)

Lemma filter_neqb_remove (x : string) (l : list string) :
  filter (fun id => negb (String.eqb id x)) l = remove string_dec x l.
Proof.
  induction l as [|y r IH]; simpl.
  - reflexivity.
  - destruct (string_dec x y) as [E|E].
    + subst y. rewrite String.eqb_refl. simpl. exact IH.
    + assert (H : String.eqb y x = false) by (apply String.eqb_neq; congruence).
      rewrite H. simpl. now rewrite IH.
Qed.

Lemma recentlyViewedIds_track (p : Product.t) (s : State) :
  recentlyViewedIds (trackRecentlyViewed p s)
  = firstn 10 (Product.id p :: remove string_dec (Product.id p) (recentlyViewedIds s)).
Proof.
  unfold trackRecentlyViewed, JSArray.slice0. simpl.
  now rewrite filter_neqb_remove.
Qed.

Lemma NoDup_firstn {A : Type} (n : nat) (l : list A) : NoDup l -> NoDup (firstn n l).
Proof. apply Subsequence_NoDup, Subsequence_firstn. Qed.

Lemma NoDup_remove_all (x : string) (l : list string) :
  NoDup l -> NoDup (x :: remove string_dec x l).
Proof.
  intros H. constructor.
  - apply remove_In.
  - rewrite <- filter_neqb_remove. apply NoDup_filter, H.
Qed.

Lemma track_NoDup (p : Product.t) (s : State) :
  NoDup (recentlyViewedIds s) -> NoDup (recentlyViewedIds (trackRecentlyViewed p s)).
Proof.
  intros H. rewrite recentlyViewedIds_track.
  apply NoDup_firstn, NoDup_remove_all, H.
Qed.

Lemma track_length (p : Product.t) (s : State) :
  (List.length (recentlyViewedIds (trackRecentlyViewed p s)) <= 10)%nat.
Proof. rewrite recentlyViewedIds_track. apply firstn_le_length. Qed.

Lemma trackAll_NoDup (ps : list Product.t) (s : State) :
  NoDup (recentlyViewedIds s) -> NoDup (recentlyViewedIds (trackAll ps s)).
Proof.
  revert s. induction ps as [|p r IH]; intros s H; simpl.
  - exact H.
  - apply IH, track_NoDup, H.
Qed.

Lemma trackAll_length (ps : list Product.t) (s : State) :
  (List.length (recentlyViewedIds s) <= 10)%nat ->
  (List.length (recentlyViewedIds (trackAll ps s)) <= 10)%nat.
Proof.
  revert s. induction ps as [|p r IH]; intros s H; simpl.
  - exact H.
  - apply IH, track_length.
Qed.

(** C9. One view takes every occurrence of the id out of the history,
    whatever the history holds, puts the id in front and keeps the first 10
    entries, so the history has at most 10 entries after any view; viewing
    X, Y, X from an empty history leaves [X, Y]; a history without
    duplicates stays so under any sequence of views, as does every history
    reached from the initial state. *)
Theorem trackViewed_spec (x y : Product.t) (ps : list Product.t) (s s0 : State) :
  recentlyViewedIds (trackRecentlyViewed x s)
  = firstn 10 (Product.id x :: remove string_dec (Product.id x) (recentlyViewedIds s))
  /\ (Product.id x <> Product.id y -> recentlyViewedIds s0 = [] ->
      recentlyViewedIds
        (trackRecentlyViewed x (trackRecentlyViewed y (trackRecentlyViewed x s0)))
      = [Product.id x; Product.id y])
  /\ (NoDup (recentlyViewedIds s) -> NoDup (recentlyViewedIds (trackAll ps s)))
  /\ (List.length (recentlyViewedIds (trackAll (x :: ps) s)) <= 10)%nat
  /\ NoDup (recentlyViewedIds (trackAll ps initial))
  /\ (List.length (recentlyViewedIds (trackAll ps initial)) <= 10)%nat.
Proof.
  split; [apply recentlyViewedIds_track|].
  split.
  { intros Hxy Hempty. rewrite !recentlyViewedIds_track, Hempty. simpl.
    destruct (string_dec (Product.id y) (Product.id x)) as [E|E]; [congruence|].
    simpl.
    destruct (string_dec (Product.id x) (Product.id y)) as [E'|E']; [congruence|].
    destruct (string_dec (Product.id x) (Product.id x)) as [_|E'']; [|congruence].
    reflexivity. }
  split; [apply trackAll_NoDup|].
  split; [simpl; apply trackAll_length, track_length|].
  split; [apply trackAll_NoDup; constructor|].
  apply trackAll_length. simpl. lia.
Qed.

(** A view of Netflix in a history that holds Netflix twice takes both
    out; and Netflix, Spotify, Netflix from the empty history. *)
Lemma trackViewed_spec_witness :
  recentlyViewedIds repeatedHistory = ["netflix-prem"; "spotify-prem"; "netflix-prem"]
  /\ recentlyViewedIds (trackRecentlyViewed netflix_prem repeatedHistory)
     = ["netflix-prem"; "spotify-prem"]
  /\ recentlyViewedIds
       (trackRecentlyViewed netflix_prem
          (trackRecentlyViewed spotify_prem (trackRecentlyViewed netflix_prem initial)))
     = ["netflix-prem"; "spotify-prem"].
Proof.
  split; [reflexivity|]. split.
  - rewrite (proj1 (trackViewed_spec netflix_prem spotify_prem []
                      repeatedHistory initial)).
    reflexivity.
  - apply (proj1 (proj2 (trackViewed_spec netflix_prem spotify_prem []
                           initial initial))); [discriminate | reflexivity].
Defined.

Lemma handleAddAll_history (recs : list Product.t) (s t : State) :
  recentlyViewedIds s = recentlyViewedIds t ->
  recentlyViewedIds (handleAddAll recs s) = recentlyViewedIds (trackAll recs t).
Proof.
  revert s t. induction recs as [|p r IH]; intros s t H; simpl.
  - exact H.
  - apply IH.
    change (recentlyViewedIds (addToCart p 1 s))
      with (recentlyViewedIds (trackRecentlyViewed p s)).
    rewrite !recentlyViewedIds_track. now rewrite H.
Qed.

(** C10. Adding to the cart leaves the history that a view of the same
    product leaves: the product's id taken out, put in front, the first 10
    entries kept; and adding all the recommendations at once leaves the
    history that viewing them one after the other leaves. *)
Theorem addToCart_tracks_viewed (p : Product.t) (q : Z) (s : State)
    (recs : list Product.t) :
  recentlyViewedIds (addToCart p q s) = recentlyViewedIds (trackRecentlyViewed p s)
  /\ recentlyViewedIds (addToCart p q s)
     = firstn 10 (Product.id p :: remove string_dec (Product.id p) (recentlyViewedIds s))
  /\ hd_error (recentlyViewedIds (addToCart p q s)) = Some (Product.id p)
  /\ recentlyViewedIds (handleAddAll recs s) = recentlyViewedIds (trackAll recs s).
Proof.
  assert (H : recentlyViewedIds (addToCart p q s)
              = recentlyViewedIds (trackRecentlyViewed p s)) by reflexivity.
  split; [exact H|]. rewrite H, recentlyViewedIds_track.
  split; [reflexivity|]. split; [reflexivity|].
  now apply handleAddAll_history.
Qed.

(** ** The cart (claims C7 and C8) *)

Lemma setCart_same (f : list CartItem.t -> list CartItem.t) (s : State) :
  f (cart s) = cart s -> setCart f s = s.
Proof. intros H. destruct s; unfold setCart; simpl in *. now rewrite H. Qed.

Lemma find_id_none (id : string) (l : list CartItem.t) :
  ~ In id (map CartItem.id l) ->
  find (fun item => String.eqb (CartItem.id item) id) l = None.
Proof.
  induction l as [|c r IH]; simpl; intros H.
  - reflexivity.
  - destruct (String.eqb_spec (CartItem.id c) id) as [E|E].
    + exfalso. apply H. left. exact E.
    + apply IH. tauto.
Qed.

Lemma find_id_some (id : string) (l : list CartItem.t) :
  In id (map CartItem.id l) ->
  exists item, find (fun item => String.eqb (CartItem.id item) id) l = Some item.
Proof.
  induction l as [|c r IH]; simpl; intros H.
  - contradiction.
  - destruct (String.eqb_spec (CartItem.id c) id) as [E|E].
    + eauto.
    + apply IH. destruct H; [contradiction | assumption].
Qed.

Lemma map_id_absent (id : string) (g : CartItem.t -> CartItem.t)
    (l : list CartItem.t) :
  ~ In id (map CartItem.id l) ->
  map (fun item => if String.eqb (CartItem.id item) id then g item else item) l = l.
Proof.
  induction l as [|c r IH]; simpl; intros H.
  - reflexivity.
  - destruct (String.eqb_spec (CartItem.id c) id) as [E|E].
    + exfalso. apply H. left. exact E.
    + rewrite IH by tauto. reflexivity.
Qed.

Lemma map_ids_kept (id : string) (q : CartItem.t -> Z) (l : list CartItem.t) :
  map CartItem.id
      (map (fun item => if String.eqb (CartItem.id item) id
                        then CartItem.mk (CartItem.product item) (q item)
                        else item) l)
  = map CartItem.id l.
Proof.
  induction l as [|c r IH]; simpl.
  - reflexivity.
  - rewrite IH. destruct (String.eqb (CartItem.id c) id); reflexivity.
Qed.

Lemma filter_ids (f : CartItem.t -> bool) (l : list CartItem.t) :
  Subsequence (map CartItem.id (filter f l)) (map CartItem.id l).
Proof. apply Subsequence_map, Subsequence_filter. Qed.

Lemma cart_addToCart_fresh (P : Product.t) (a : Z) (s : State) :
  ~ In (Product.id P) (map CartItem.id (cart s)) ->
  cart (addToCart P a s) = (cart s ++ [CartItem.mk P a])%list.
Proof.
  intros H. unfold addToCart. simpl. now rewrite find_id_none.
Qed.

Lemma cart_addToCart_present (P : Product.t) (a : Z) (s : State) :
  In (Product.id P) (map CartItem.id (cart s)) ->
  cart (addToCart P a s)
  = map (fun item => if String.eqb (CartItem.id item) (Product.id P)
                     then CartItem.mk (CartItem.product item) (CartItem.quantity item + a)
                     else item)
        (cart s).
Proof.
  intros H. unfold addToCart. simpl.
  destruct (find_id_some _ _ H) as [item Hitem]. now rewrite Hitem.
Qed.

Lemma addToCart_NoDup (P : Product.t) (a : Z) (s : State) :
  NoDup (map CartItem.id (cart s)) -> NoDup (map CartItem.id (cart (addToCart P a s))).
Proof.
  intros H.
  destruct (in_dec string_dec (Product.id P) (map CartItem.id (cart s))) as [Hin|Hout].
  - rewrite cart_addToCart_present by exact Hin.
    rewrite (map_ids_kept _ (fun item => CartItem.quantity item + a)). exact H.
  - rewrite cart_addToCart_fresh by exact Hout.
    rewrite map_app. simpl.
    apply NoDup_app; [exact H | repeat constructor; simpl; tauto|].
    intros z Hz [Hz'|[]]. subst z. contradiction.
Qed.

Lemma act_NoDup (a : cartAction) (s : State) :
  NoDup (map CartItem.id (cart s)) -> NoDup (map CartItem.id (cart (act s a))).
Proof.
  intros H. destruct a as [p q|id q|id]; simpl.
  - apply addToCart_NoDup, H.
  - unfold updateQuantity. destruct (q <=? 0); simpl.
    + eapply Subsequence_NoDup; [apply filter_ids | exact H].
    + rewrite (map_ids_kept _ (fun _ => q)). exact H.
  - eapply Subsequence_NoDup; [apply filter_ids | exact H].
Qed.

Lemma run_NoDup (l : list cartAction) (s : State) :
  NoDup (map CartItem.id (cart s)) -> NoDup (map CartItem.id (cart (run l s))).
Proof.
  revert s. induction l as [|a r IH]; intros s H; simpl.
  - exact H.
  - apply IH, act_NoDup, H.
Qed.

Lemma quantityOf_addToCart (P : Product.t) (a : Z) (s : State) :
  quantityOf (Product.id P) (cart (addToCart P a s))
  = quantityOf (Product.id P) (cart s) + a.
Proof.
  unfold quantityOf, addToCart. simpl.
  induction (cart s) as [|c r IH]; simpl.
  - unfold CartItem.id. simpl. rewrite String.eqb_refl. reflexivity.
  - destruct (String.eqb (CartItem.id c) (Product.id P)) eqn:E; simpl.
    + unfold CartItem.id in *. simpl. rewrite E. reflexivity.
    + destruct (find _ r) as [item|]; simpl in *; rewrite E; exact IH.
Qed.

(** C7. For a product not yet in the cart: the first add appends its
    snapshot with the given quantity; a second add leaves that one item,
    now with quantity a + b, the only item of that id; the ids of the cart
    stay pairwise distinct, and do so under every sequence of cart
    operations, from this cart and from the empty cart of the initial
    state.  In any cart an add raises the quantity held of the product by
    the quantity given. *)
Theorem addToCart_accumulates (P : Product.t) (a b : Z) (s : State)
    (Ha : 0 < a) (Hb : 0 < b)
    (Hfresh : ~ In (Product.id P) (map CartItem.id (cart s)))
    (Hnodup : NoDup (map CartItem.id (cart s))) :
  cart (addToCart P a s) = (cart s ++ [CartItem.mk P a])%list
  /\ cart (addToCart P b (addToCart P a s)) = (cart s ++ [CartItem.mk P (a + b)])%list
  /\ filter (fun item => String.eqb (CartItem.id item) (Product.id P))
            (cart (addToCart P b (addToCart P a s)))
     = [CartItem.mk P (a + b)]
  /\ NoDup (map CartItem.id (cart (addToCart P b (addToCart P a s))))
  /\ (forall l, NoDup (map CartItem.id (cart (run l s))))
  /\ (forall l, NoDup (map CartItem.id (cart (run l initial))))
  /\ (forall t, quantityOf (Product.id P) (cart (addToCart P a t))
                = quantityOf (Product.id P) (cart t) + a).
Proof.
  assert (H1 : cart (addToCart P a s) = (cart s ++ [CartItem.mk P a])%list)
    by (apply cart_addToCart_fresh, Hfresh).
  assert (H2 : cart (addToCart P b (addToCart P a s))
               = (cart s ++ [CartItem.mk P (a + b)])%list).
  { rewrite cart_addToCart_present.
    - rewrite H1, map_app, map_id_absent by exact Hfresh. simpl.
      unfold CartItem.id at 1. simpl. rewrite String.eqb_refl. reflexivity.
    - rewrite H1, map_app. apply in_or_app. right. left. reflexivity. }
  split; [exact H1|]. split; [exact H2|]. split; [|split; [|split; [|split]]].
  - rewrite H2, filter_app. simpl.
    unfold CartItem.id at 2. simpl. rewrite String.eqb_refl.
    replace (filter _ (cart s)) with (@nil CartItem.t); [reflexivity|].
    symmetry. clear -Hfresh. induction (cart s) as [|c r IH]; simpl in *.
    + reflexivity.
    + destruct (String.eqb_spec (CartItem.id c) (Product.id P)) as [E|E].
      * exfalso. apply Hfresh. left. exact E.
      * apply IH. tauto.
  - apply addToCart_NoDup, addToCart_NoDup, Hnodup.
  - intros l. apply run_NoDup, Hnodup.
  - intros l. apply run_NoDup. constructor.
  - intros t. apply quantityOf_addToCart.
Qed.

Lemma addToCart_accumulates_witness :
  0 < 2 /\ 0 < 3
  /\ ~ In (Product.id netflix_prem) (map CartItem.id (cart initial))
  /\ NoDup (map CartItem.id (cart initial))
  /\ cart (addToCart netflix_prem 3 (addToCart netflix_prem 2 initial))
     = [CartItem.mk netflix_prem 5].
Proof.
  assert (Hfresh : ~ In (Product.id netflix_prem) (map CartItem.id (cart initial)))
    by (simpl; tauto).
  assert (Hnd : NoDup (map CartItem.id (cart initial))) by constructor.
  split; [lia|]. split; [lia|]. split; [exact Hfresh|]. split; [exact Hnd|].
  exact (proj1 (proj2 (addToCart_accumulates netflix_prem 2 3 initial
                         eq_refl eq_refl Hfresh Hnd))).
Defined.

(** C8. With q at most 0, [updateQuantity] is [removeFromCart], which drops
    the items of that id and keeps the others; with q above 0 every item of
    that id gets quantity q and nothing else changes, in the cart or in the
    rest of the state; when the cart holds no item of that id, the state is
    left as it was, whatever q. *)
Theorem updateQuantity_spec (id : string) (q : Z) (s : State) :
  (q <= 0 -> updateQuantity id q s = removeFromCart id s)
  /\ (forall item, In item (cart (removeFromCart id s))
                   <-> In item (cart s) /\ CartItem.id item <> id)
  /\ (0 < q ->
      Forall2 (fun old new =>
                 CartItem.product new = CartItem.product old
                 /\ CartItem.quantity new
                    = if String.eqb (CartItem.id old) id then q
                      else CartItem.quantity old)
              (cart s) (cart (updateQuantity id q s))
      /\ updateQuantity id q s = setCart (fun _ => cart (updateQuantity id q s)) s)
  /\ (~ In id (map CartItem.id (cart s)) -> updateQuantity id q s = s).
Proof.
  split; [|split; [|split]].
  - intros Hq. unfold updateQuantity.
    destruct (Z.leb_spec q 0); [reflexivity | lia].
  - intros item. unfold removeFromCart. simpl.
    rewrite filter_In, negb_true_iff, String.eqb_neq. tauto.
  - intros Hq. unfold updateQuantity.
    destruct (Z.leb_spec q 0); [lia|]. split; [|reflexivity].
    simpl. induction (cart s) as [|c r IH]; simpl; constructor.
    + destruct (String.eqb (CartItem.id c) id); simpl; split; reflexivity.
    + exact IH.
  - intros Habsent. unfold updateQuantity, removeFromCart.
    destruct (q <=? 0); apply setCart_same.
    + clear -Habsent. induction (cart s) as [|c r IH]; simpl in *.
      * reflexivity.
      * destruct (String.eqb_spec (CartItem.id c) id) as [E|E]; simpl.
        -- exfalso. apply Habsent. left. exact E.
        -- rewrite IH by tauto. reflexivity.
    + apply map_id_absent, Habsent.
Qed.

Lemma updateQuantity_spec_witness :
  (0 <= 0
   /\ updateQuantity "netflix-prem" 0 sampleCartState
      = removeFromCart "netflix-prem" sampleCartState
   /\ cart (removeFromCart "netflix-prem" sampleCartState) = [])
  /\ (0 < 5
      /\ cart (updateQuantity "netflix-prem" 5 sampleCartState)
         = [CartItem.mk netflix_prem 5])
  /\ (~ In "canva-pro" (map CartItem.id (cart sampleCartState))
      /\ updateQuantity "canva-pro" 7 sampleCartState = sampleCartState).
Proof.
  pose proof (updateQuantity_spec "netflix-prem" 0 sampleCartState) as (H0 & _).
  pose proof (updateQuantity_spec "canva-pro" 7 sampleCartState) as (_ & _ & _ & H7).
  assert (Habsent : ~ In "canva-pro" (map CartItem.id (cart sampleCartState)))
    by (simpl; intuition discriminate).
  split; [|split].
  - split; [lia|]. split; [apply H0; lia | reflexivity].
  - split; [lia | reflexivity].
  - split; [exact Habsent | exact (H7 Habsent)].
Defined.

(** ** Reviews (claims C6 and C1) *)

Lemma ratingSum_fold_right (l : list Review.t) :
  ratingSum l = fold_right Z.add 0 (map Review.rating l).
Proof.
  unfold ratingSum.
  assert (H : forall z, fold_left (fun acc r => acc + Review.rating r) l z
                        = z + fold_right Z.add 0 (map Review.rating l)).
  { induction l as [|r l IH]; intros z; simpl.
    - lia.
    - rewrite IH. lia. }
  rewrite H. lia.
Qed.

Lemma newRating_machineMean (l : list Review.t) :
  newRating l = JSNumber.ofFixed1 (JSNumber.toFixed1 (machineMean l)).
Proof. unfold newRating, machineMean. now rewrite ratingSum_fold_right. Qed.

Lemma stars_sum_length (l : list Review.t) :
  Forall (fun r => 1 <= Review.rating r) l ->
  Z.of_nat (List.length l) <= fold_right Z.add 0 (map Review.rating l).
Proof.
  induction 1 as [|r l Hr H IH]; [reflexivity|].
  cbn [List.length map fold_right]. lia.
Qed.

(** For plain stars the rating is the mean rounded to one decimal, half
    up, or at a tie possibly the lower neighbour; either way it is within a
    twentieth of the mean. *)
Lemma newRating_plain (l : list Review.t) :
  l <> [] -> plainStars l ->
  (Qabs (newRating l - meanRating l) <= 1 # 20)%Q
  /\ (newRating l = halfUpTenth (meanRating l)
      \/ (halfwayTenth (meanRating l)
          /\ (newRating l == halfUpTenth (meanRating l) - (1 # 10))%Q)).
Proof.
  intros Hne [Hstars Hsum].
  pose proof (stars_sum_length l Hstars) as Hlen.
  assert (Hpos : 0 < Z.of_nat (List.length l)) by (destruct l; [congruence | simpl; lia]).
  rewrite newRating_machineMean. unfold machineMean, meanRating, halfUpTenth.
  set (s := fold_right Z.add 0 (map Review.rating l)) in *.
  set (n := Z.of_nat (List.length l)) in *.
  pose proof (toFixed1_quotient s n (conj Hpos Hlen) Hsum) as H. cbv zeta in H.
  set (m := (inject_Z s / inject_Z n)%Q) in *.
  pose proof (Qfloor_le (m * 10 + (1 # 2))) as Hj1.
  pose proof (Qlt_floor (m * 10 + (1 # 2))) as Hj2.
  set (j := Qfloor (m * 10 + (1 # 2))) in *.
  rewrite inject_Z_plus in Hj2. change (inject_Z 1) with 1%Q in Hj2.
  assert (Hten : forall k : Z, (k # 10 == inject_Z k * (1 # 10))%Q)
    by (intros k; unfold Qeq, Qmult, inject_Z; simpl; lia).
  unfold JSNumber.ofFixed1.
  destruct H as [H|[Htie H]]; rewrite H.
  - split; [|left; reflexivity].
    apply Qabs_Qle_condition. rewrite (Hten j). split; lra.
  - unfold Z.sub in Htie. rewrite inject_Z_plus, inject_Z_mult in Htie.
    change (inject_Z 2) with 2%Q in Htie. change (inject_Z (- (1))) with (-1)%Q in Htie.
    assert (Hk : (inject_Z (j - 1) == inject_Z j - 1)%Q).
    { unfold Z.sub. rewrite inject_Z_plus. reflexivity. }
    split.
    + apply Qabs_Qle_condition. rewrite (Hten (j - 1)), Hk. split; lra.
    + right. split.
      * exists (j - 1). rewrite inject_Z_plus, inject_Z_mult, Hk.
        change (inject_Z 2) with 2%Q. change (inject_Z 1) with 1%Q. lra.
      * rewrite (Hten (j - 1)), (Hten j), Hk. lra.
Qed.

(** One decimal, and within a twentieth of the number rounded. *)
Lemma toFixed1_close (x : Q) :
  (Qabs (JSNumber.ofFixed1 (JSNumber.toFixed1 x) - x) <= 1 # 20)%Q.
Proof.
  unfold JSNumber.ofFixed1, JSNumber.toFixed1.
  apply Qabs_Qle_condition.
  destruct (Qle_bool 0 x) eqn:Hx.
  - pose proof (Qfloor_le (x * 10 + (1 # 2))) as Hle.
    pose proof (Qlt_floor (x * 10 + (1 # 2))) as Hlt.
    set (n := Qfloor (x * 10 + (1 # 2))) in *.
    assert (Hn : (n # 10 == inject_Z n * (1 # 10))%Q)
      by (unfold Qeq, Qmult, inject_Z; simpl; lia).
    rewrite Hn.
    assert (Hn1 : (inject_Z (n + 1) == inject_Z n + 1)%Q)
      by (rewrite inject_Z_plus; reflexivity).
    rewrite Hn1 in Hlt. split; lra.
  - pose proof (Qfloor_le (- x * 10 + (1 # 2))) as Hle.
    pose proof (Qlt_floor (- x * 10 + (1 # 2))) as Hlt.
    set (n := Qfloor (- x * 10 + (1 # 2))) in *.
    assert (Hn : (- n # 10 == - inject_Z n * (1 # 10))%Q)
      by (unfold Qeq, Qmult, Qopp, inject_Z; simpl; lia).
    rewrite Hn.
    assert (Hn1 : (inject_Z (n + 1) == inject_Z n + 1)%Q)
      by (rewrite inject_Z_plus; reflexivity).
    rewrite Hn1 in Hlt. split; lra.
Qed.

Lemma reviewsOrZero_eq (p : Product.t) : reviewsOrZero p = Product.reviews p.
Proof.
  unfold reviewsOrZero. destruct (Z.eqb_spec (Product.reviews p) 0); congruence.
Qed.

Lemma withReview_reviewAdded (review : Review.t) (p : Product.t) :
  reviewAdded (Product.id p) review p (withReview review p).
Proof.
  unfold reviewAdded. rewrite String.eqb_refl.
  change (Product.rating (withReview review p))
    with (newRating (review :: userReviewsOrEmpty p)).
  change (Product.reviews (withReview review p)) with (reviewsOrZero p + 1).
  rewrite reviewsOrZero_eq.
  split; [reflexivity|]. split; [eexists; reflexivity|].
  split; [rewrite newRating_machineMean; apply toFixed1_close|].
  split.
  { intros H. rewrite newRating_machineMean.
    unfold JSNumber.ofFixed1, JSNumber.toFixed1, halfUpTenth.
    apply Qle_bool_iff in H. now rewrite H. }
  split; [apply newRating_plain; discriminate|].
  repeat split; reflexivity.
Qed.

Lemma handleAddReview_Forall2 (productId : string) (review : Review.t) (s : State) :
  Forall2 (reviewAdded productId review)
          (products s) (products (handleAddReview productId review s)).
Proof.
  unfold handleAddReview. simpl.
  induction (products s) as [|p r IH]; simpl; constructor; [|exact IH].
  destruct (String.eqb (Product.id p) productId) eqn:E.
  - apply String.eqb_eq in E. subst productId. apply withReview_reviewAdded.
  - unfold reviewAdded. rewrite E. reflexivity.
Qed.

Lemma withReview_differs (review : Review.t) (p : Product.t) :
  withReview review p <> p.
Proof.
  intros H. apply (f_equal Product.userReviews) in H. simpl in H.
  unfold userReviewsOrEmpty in H.
  destruct (Product.userReviews p) as [l|]; [|discriminate].
  injection H as H. apply (f_equal (@List.length Review.t)) in H. simpl in H. lia.
Qed.

Lemma handleAddReview_products (productId : string) (review : Review.t) (s : State) :
  products (handleAddReview productId review s)
  = map (fun p => if String.eqb (Product.id p) productId
                  then withReview review p else p) (products s).
Proof. reflexivity. Qed.

Lemma handleAddReview_changes (productId : string) (review : Review.t) (s : State) :
  In productId (map Product.id (products s)) ->
  products (handleAddReview productId review s) <> products s.
Proof.
  rewrite handleAddReview_products.
  induction (products s) as [|p r IH]; simpl; intros Hin Heq.
  - contradiction.
  - injection Heq as Hp Hr.
    destruct (String.eqb_spec (Product.id p) productId) as [E|E].
    + now apply withReview_differs in Hp.
    + apply IH; [|exact Hr]. destruct Hin; [contradiction | assumption].
Qed.

Lemma handleAddReview_absent (productId : string) (review : Review.t) (s : State) :
  ~ In productId (map Product.id (products s)) ->
  products (handleAddReview productId review s) = products s.
Proof.
  rewrite handleAddReview_products.
  induction (products s) as [|p r IH]; simpl; intros Hout.
  - reflexivity.
  - destruct (String.eqb_spec (Product.id p) productId) as [E|E].
    + exfalso. apply Hout. left. exact E.
    + rewrite IH by tauto. reflexivity.
Qed.




(** The twenty reviews of the tie are plain stars, and their mean is
    halfway between 4.3 and 4.4. *)
Example tie_is_plain :
  let l := userReviewsOrEmpty
             (hd netflix_prem
                 (products (handleAddReview "netflix-prem" tieReview tieState))) in
  List.length l = 20%nat
  /\ plainStars l
  /\ halfwayTenth (meanRating l)
  /\ halfUpTenth (meanRating l) = (44 # 10)%Q.
Proof.
  intros l. vm_compute in l. subst l.
  split; [reflexivity|]. split; [|split].
  - split; [|reflexivity].
    repeat (apply Forall_cons; [vm_compute; discriminate|]). apply Forall_nil.
  - exists 43. reflexivity.
  - reflexivity.
Qed.

(** C1, as the code has it.  When the comment trims to the empty string,
    the submit handler of the form does nothing: the form and the state,
    the catalog in it, are left as they were.  [handleAddReview] does not
    look at the comment: it leaves the catalog as it was exactly when no
    entry has the id, and otherwise adds the review as it adds any other. *)
Theorem blank_comment_guard (now today : string) (product : Product.t)
    (m : ModalState) (s : State) (productId : string) (review : Review.t)
    (Hform : JS.trim (reviewComment m) = "")
    (Hblank : JS.trim (Review.comment review) = "") :
  handleSubmitReview now today product m s = (m, s)
  /\ (products (handleAddReview productId review s) = products s
      <-> ~ In productId (map Product.id (products s)))
  /\ Forall2 (reviewAdded productId review)
             (products s) (products (handleAddReview productId review s)).
Proof.
  split; [|split].
  - unfold handleSubmitReview. rewrite Hform. reflexivity.
  - split.
    + intros Heq Hin. now apply (handleAddReview_changes productId review s Hin).
    + apply handleAddReview_absent.
  - apply handleAddReview_Forall2.
Qed.

Lemma blank_comment_guard_witness :
  JS.trim (reviewComment (mkModal 1 5 "   ")) = ""
  /\ JS.trim (Review.comment blankReview) = ""
  /\ handleSubmitReview "1700000000000" "2023-11-14" netflix_prem
       (mkModal 1 5 "   ") initial
     = (mkModal 1 5 "   ", initial).
Proof.
  split; [reflexivity|]. split; [reflexivity|].
  exact (proj1 (blank_comment_guard "1700000000000" "2023-11-14" netflix_prem
                  (mkModal 1 5 "   ") initial "netflix-prem" blankReview
                  eq_refl eq_refl)).
Defined.

(** C1 as stated fails: [handleAddReview] given a review whose comment is
    blank adds it to the Netflix entry, whose count goes from 1240 to 1241
    and whose rating from 4.9 to 4.7. *)
Lemma addReview_blank_comment_counterexample :
  JS.trim (Review.comment blankReview) = ""
  /\ products (handleAddReview "netflix-prem" blankReview initial) <> products initial
  /\ map (fun p => (Product.reviews p, Product.rating p,
                    option_map (@List.length Review.t) (Product.userReviews p)))
         (firstn 1 (products (handleAddReview "netflix-prem" blankReview initial)))
     = [(1241, (47 # 10)%Q, Some 3%nat)].
Proof.
  split; [reflexivity|]. split; [|reflexivity].
  apply handleAddReview_changes. left. reflexivity.
Qed.

(** ** Loading the persisted lists (claim C2) *)

Lemma loadEntry_Throw (saved : option string) (setter : JSON.value -> setterCall) :
  loadEntry saved setter = Throw <-> unparseable saved = true.
Proof.
  unfold loadEntry, unparseable.
  destruct saved as [text|]; [|split; discriminate].
  destruct (JS.truthy text); simpl; [|split; discriminate].
  destruct (JSON.parse text); split; congruence.
Qed.

Lemma loadEntry_absent (saved : option string) (setter : JSON.value -> setterCall) :
  saved = None \/ saved = Some "" -> loadEntry saved setter = Normal [].
Proof. intros [H|H]; subst saved; reflexivity. Qed.

Lemma loadEntry_parsed (text : string) (v : JSON.value)
    (setter : JSON.value -> setterCall) :
  text <> "" -> JSON.parse text = Some v ->
  loadEntry (Some text) setter = Normal [setter v].
Proof.
  intros Hne Hv. unfold loadEntry. rewrite Hv.
  destruct text; [congruence | reflexivity].
Qed.

(** *** What [JSON.stringify] writes, [JSON.parse] reads back *)

Lemma chars_app (a b : string) :
  list_ascii_of_string (a ++ b)
  = (list_ascii_of_string a ++ list_ascii_of_string b)%list.
Proof. induction a as [|c a IH]; simpl; [reflexivity | now rewrite IH]. Qed.

Lemma lex_from_silent (m m' : JSON.mode) (c : ascii) (r : list ascii) :
  JSON.lex_step m c = Some (m', []) ->
  JSON.lex_from m (c :: r) = JSON.lex_from m' r.
Proof.
  intros H. simpl. rewrite H. destruct (JSON.lex_from m' r); reflexivity.
Qed.

Lemma lex_from_token (m m' : JSON.mode) (c : ascii) (t : JSON.token)
    (r : list ascii) :
  JSON.lex_step m c = Some (m', [t]) ->
  JSON.lex_from m (c :: r) = JSON.emit [t] (JSON.lex_from m' r).
Proof. intros H. simpl. rewrite H. reflexivity. Qed.

Ltac lex_steps := repeat (erewrite lex_from_silent by reflexivity).

Lemma lex_quote_unit (c : ascii) (acc : list N) (tail : list ascii) :
  JSON.lex_from (JSON.InString acc)
    (list_ascii_of_string (JSON.quote_unit c) ++ tail)
  = JSON.lex_from (JSON.InString (JSON.code c :: acc)) tail.
Proof.
  destruct c as [[] [] [] [] [] [] [] []];
    match goal with
    | |- context [list_ascii_of_string (JSON.quote_unit ?c)] =>
        let l := eval vm_compute in (list_ascii_of_string (JSON.quote_unit c)) in
        change (list_ascii_of_string (JSON.quote_unit c)) with l
    end;
    cbn [app]; lex_steps; reflexivity.
Qed.

Lemma lex_quote_body (s : string) (acc : list N) (tail : list ascii) :
  JSON.lex_from (JSON.InString acc)
    (list_ascii_of_string (JSON.quote_body s) ++ tail)
  = JSON.lex_from (JSON.InString (rev (JSON.units s) ++ acc)) tail.
Proof.
  revert acc. induction s as [|c s IH]; intros acc; simpl.
  - reflexivity.
  - rewrite chars_app, <- app_assoc, lex_quote_unit, IH.
    unfold JSON.units. simpl. now rewrite <- app_assoc.
Qed.

Lemma lex_quote (s : string) (tail : list ascii) :
  JSON.lex_from JSON.Idle (list_ascii_of_string (JSON.quote s) ++ tail)
  = JSON.emit [JSON.TStr (JSON.units s)] (JSON.lex_from JSON.Idle tail).
Proof.
  unfold JSON.quote. simpl list_ascii_of_string. rewrite chars_app.
  simpl app. erewrite lex_from_silent by reflexivity.
  rewrite <- app_assoc, lex_quote_body. simpl app.
  erewrite lex_from_token by reflexivity.
  now rewrite app_nil_r, rev_involutive.
Qed.

Lemma emit_emit (ts1 ts2 : list JSON.token) (o : option (list JSON.token)) :
  JSON.emit ts1 (JSON.emit ts2 o) = JSON.emit (ts1 ++ ts2) o.
Proof. destruct o; simpl; [now rewrite app_assoc | reflexivity]. Qed.

Lemma lex_join (ids : list string) (tail : list ascii) :
  JSON.lex_from JSON.Idle
    (list_ascii_of_string (JS.join "," (map JSON.quote ids)) ++ tail)
  = JSON.emit (JSON.tokens_of ids) (JSON.lex_from JSON.Idle tail).
Proof.
  induction ids as [|x r IH].
  - simpl. destruct (JSON.lex_from JSON.Idle tail); reflexivity.
  - destruct r as [|y r].
    + simpl map. simpl JS.join. apply lex_quote.
    + change (JS.join "," (map JSON.quote (x :: y :: r)))
        with (JSON.quote x ++ "," ++ JS.join "," (map JSON.quote (y :: r))).
      rewrite !chars_app, <- !app_assoc, lex_quote.
      change (list_ascii_of_string ",") with [","%char]. cbn [app].
      erewrite lex_from_token by reflexivity.
      rewrite IH, !emit_emit. reflexivity.
Qed.

Lemma lex_stringify (ids : list string) :
  JSON.lex (JSON.stringify ids)
  = Some (JSON.TLBracket :: JSON.tokens_of ids ++ [JSON.TRBracket])%list.
Proof.
  unfold JSON.lex, JSON.stringify. rewrite !chars_app.
  change (list_ascii_of_string "[") with ["["%char].
  change (list_ascii_of_string "]") with ["]"%char]. cbn [app].
  erewrite lex_from_token by reflexivity.
  rewrite lex_join. reflexivity.
Qed.

Lemma parse_from_step (p p' : JSON.pstate) (t : JSON.token)
    (r : list JSON.token) :
  JSON.parse_step p t = Some p' ->
  JSON.parse_from p (t :: r) = JSON.parse_from p' r.
Proof. intros H. simpl. now rewrite H. Qed.

Ltac parse_steps := repeat (erewrite parse_from_step by reflexivity).

Lemma parse_elements (x : string) (r : list string) (done : list JSON.value)
    (stk : list JSON.frame) (rest : list JSON.token) :
  JSON.parse_from (JSON.Want (JSON.FArray done :: stk))
    (JSON.tokens_of (x :: r) ++ JSON.TRBracket :: rest)
  = JSON.parse_from
      (JSON.Have (JSON.Array (rev done ++ map (fun s => JSON.Str (JSON.units s)) (x :: r)))
                 stk)
      rest.
Proof.
  revert x done. induction r as [|y r IH]; intros x done.
  - change (JSON.tokens_of [x]) with [JSON.TStr (JSON.units x)].
    cbn [app]. parse_steps. reflexivity.
  - change (JSON.tokens_of (x :: y :: r))
      with (JSON.TStr (JSON.units x) :: JSON.TComma :: JSON.tokens_of (y :: r)).
    cbn [app].
    erewrite parse_from_step by reflexivity.
    erewrite parse_from_step by reflexivity.
    rewrite IH. cbn [rev map]. now rewrite <- app_assoc.
Qed.

Lemma parse_stringify (ids : list string) :
  JSON.parse (JSON.stringify ids) = Some (JSON.of_strings ids).
Proof.
  unfold JSON.parse. rewrite lex_stringify.
  erewrite parse_from_step by reflexivity.
  destruct ids as [|x r].
  - reflexivity.
  - transitivity
      (JSON.parse_from (JSON.Want [JSON.FArray []])
         (JSON.tokens_of (x :: r) ++ [JSON.TRBracket])).
    + destruct r as [|y r]; reflexivity.
    + rewrite parse_elements. reflexivity.
Qed.

Lemma string_of_units_units (s : string) :
  JSON.string_of_units (JSON.units s) = Some s.
Proof.
  unfold JSON.units. induction s as [|c s IH]; simpl.
  - reflexivity.
  - rewrite IH. unfold JSON.unit_ascii, JSON.code.
    pose proof (N_ascii_bounded c) as Hc. apply N.ltb_lt in Hc. rewrite Hc.
    now rewrite ascii_N_embedding.
Qed.

Lemma as_string_array_of_strings (ids : list string) :
  JSON.as_string_array (JSON.of_strings ids) = Some ids.
Proof.
  unfold JSON.of_strings. simpl.
  induction ids as [|x r IH]; simpl.
  - reflexivity.
  - now rewrite string_of_units_units, IH.
Qed.

Lemma loadEntry_stringify (ids : list string) (setter : JSON.value -> setterCall) :
  loadEntry (Some (JSON.stringify ids)) setter = Normal [setter (JSON.of_strings ids)].
Proof.
  apply loadEntry_parsed; [|apply parse_stringify].
  unfold JSON.stringify. simpl. discriminate.
Qed.

Lemma entry_kinds (saved : option string) :
  absent saved \/ unparseable saved = true \/ exists v, holdsValue saved v.
Proof.
  unfold absent, unparseable, holdsValue.
  destruct saved as [text|]; [|left; left; reflexivity].
  destruct text as [|c text]; [left; right; reflexivity|].
  right. cbn [JS.truthy andb].
  destruct (JSON.parse (String c text)) as [v|] eqn:E.
  - right. exists v, (String c text). repeat split; [discriminate | exact E].
  - left. reflexivity.
Qed.

Lemma loadEntry_holds (saved : option string) (v : JSON.value)
    (setter : JSON.value -> setterCall) :
  holdsValue saved v -> loadEntry saved setter = Normal [setter v].
Proof. intros (text & -> & Hne & Hv). now apply loadEntry_parsed. Qed.

(** C2, as the code has it.  Each entry is absent (not there, or empty),
    or holds a JSON value, or is unparseable.  The wishlist entry is
    loaded first: unparseable, it ends the load in an exception and the
    history entry is not read; absent, it makes no setter call; holding a
    value, it hands the value to its setter as parsed.  The history entry
    is then loaded in the same way.  So with both absent the two lists keep
    their initial empty value, and the load ends in an exception exactly
    when one of the entries is unparseable: such a value is not taken for
    an absent one.  A value that is not an array of strings is handed over
    like any other, and leaves the list outside its declared type.  What
    the application itself stored loads as the two lists it was written
    from. *)
Theorem persistenceInit_spec (st : Storage) :
  let w := viralyn_wishlist st in
  let r := viralyn_recently st in
  (absent w \/ unparseable w = true \/ exists v, holdsValue w v)
  /\ (absent r \/ unparseable r = true \/ exists v, holdsValue r v)
  /\ (unparseable w = true -> persistenceInit st = Throw)
  /\ (absent w -> unparseable r = true -> persistenceInit st = Throw)
  /\ (absent w -> absent r -> persistenceInit st = Normal [])
  /\ (absent w -> forall vr, holdsValue r vr ->
      persistenceInit st = Normal [SetRecentlyViewedIds vr])
  /\ (forall vw, holdsValue w vw -> unparseable r = true ->
      persistenceInit st = Throw)
  /\ (forall vw, holdsValue w vw -> absent r ->
      persistenceInit st = Normal [SetWishlist vw])
  /\ (forall vw vr, holdsValue w vw -> holdsValue r vr ->
      persistenceInit st = Normal [SetWishlist vw; SetRecentlyViewedIds vr])
  /\ (persistenceInit st = Throw <-> unparseable w = true \/ unparseable r = true)
  /\ (applyCalls [] initial = Some initial
      /\ wishlist initial = [] /\ recentlyViewedIds initial = [])
  /\ (forall v t, JSON.as_string_array v = None ->
      applyCalls [SetWishlist v] t = None
      /\ applyCalls [SetRecentlyViewedIds v] t = None)
  /\ (forall s t : State,
        persistenceInit (persist s)
        = Normal [SetWishlist (JSON.of_strings (wishlist s));
                  SetRecentlyViewedIds (JSON.of_strings (recentlyViewedIds s))]
        /\ applyCalls [SetWishlist (JSON.of_strings (wishlist s));
                       SetRecentlyViewedIds (JSON.of_strings (recentlyViewedIds s))] t
           = Some (setRecentlyViewedIds (fun _ => recentlyViewedIds s)
                     (setWishlist (fun _ => wishlist s) t))).
Proof.
  intros w r.
  assert (Hthrow : forall saved setter,
            unparseable saved = true -> loadEntry saved setter = Throw)
    by (intros; now apply loadEntry_Throw).
  split; [apply entry_kinds|]. split; [apply entry_kinds|].
  unfold persistenceInit. fold w r.
  split; [intros H; now rewrite (Hthrow w _ H)|].
  split; [intros Hw Hr; now rewrite (loadEntry_absent w _ Hw), (Hthrow r _ Hr)|].
  split; [intros Hw Hr; now rewrite (loadEntry_absent w _ Hw), (loadEntry_absent r _ Hr)|].
  split; [intros Hw vr Hr;
          now rewrite (loadEntry_absent w _ Hw), (loadEntry_holds r vr _ Hr)|].
  split; [intros vw Hw Hr; now rewrite (loadEntry_holds w vw _ Hw), (Hthrow r _ Hr)|].
  split; [intros vw Hw Hr;
          now rewrite (loadEntry_holds w vw _ Hw), (loadEntry_absent r _ Hr)|].
  split; [intros vw vr Hw Hr;
          now rewrite (loadEntry_holds w vw _ Hw), (loadEntry_holds r vr _ Hr)|].
  split.
  { rewrite <- (loadEntry_Throw w SetWishlist).
    rewrite <- (loadEntry_Throw r SetRecentlyViewedIds).
    destruct (loadEntry w SetWishlist);
      destruct (loadEntry r SetRecentlyViewedIds);
      split; intros H; try discriminate; auto; destruct H; discriminate. }
  split; [repeat split|].
  split.
  { intros v t Hv. cbn [applyCalls applyCall]. rewrite Hv. split; reflexivity. }
  intros s t. split.
  - unfold persist. cbn [viralyn_wishlist viralyn_recently].
    now rewrite !loadEntry_stringify.
  - cbn [applyCalls applyCall]. rewrite as_string_array_of_strings.
    cbn [option_map]. rewrite as_string_array_of_strings. reflexivity.
Qed.

(** C2 as stated fails: a wishlist entry cut short, an array with no
    closing bracket, is not JSON, and the load ends in the exception. *)
Lemma persistenceInit_counterexample :
  JSON.parse ("[" ++ JSON.quote "netflix-prem") = None
  /\ JSON.parse ("[" ++ JSON.quote "netflix-prem" ++ "]")
     = Some (JSON.Array [JSON.Str (map JSON.code (list_ascii_of_string "netflix-prem"))])
  /\ persistenceInit truncatedStorage = Throw.
Proof. vm_compute. repeat split. Qed.

(** A stored [null] is valid JSON: the effect hands it to [setWishlist]
    and does not raise; the wishlist is then no list. *)
Example stored_null :
  unparseable (viralyn_wishlist nullStorage) = false
  /\ persistenceInit nullStorage = Normal [SetWishlist JSON.Null]
  /\ applyCalls [SetWishlist JSON.Null] initial = None.
Proof. vm_compute. repeat split. Qed.

(** What the application writes it reads back: the storage left by a view
    and a wishlist toggle loads into the same two lists. *)
Example persist_then_load :
  let s := toggleWishlist "canva-pro" (trackRecentlyViewed netflix_prem initial) in
  match persistenceInit (persist s) with
  | Normal calls =>
      option_map (fun t => (wishlist t, recentlyViewedIds t)) (applyCalls calls initial)
      = Some (wishlist s, recentlyViewedIds s)
  | Throw => False
  end.
Proof. vm_compute. reflexivity. Qed.

(** * Properties of the rest of the application *)

(** ** The wishlist *)

Lemma includes_In (x : string) (l : list string) :
  JSArray.includes x l = true <-> In x l.
Proof.
  unfold JSArray.includes. rewrite existsb_exists. split.
  - intros (y & Hy & E). apply String.eqb_eq in E. now subst y.
  - intros H. exists x. split; [exact H | apply String.eqb_refl].
Qed.

Lemma includes_not_In (x : string) (l : list string) :
  JSArray.includes x l = false <-> ~ In x l.
Proof.
  rewrite <- includes_In. destruct (JSArray.includes x l); split; congruence.
Qed.

Lemma setWishlist_same (f : list string -> list string) (s : State) :
  f (wishlist s) = wishlist s -> setWishlist f s = s.
Proof. intros H. destruct s; unfold setWishlist; simpl in *. now rewrite H. Qed.

Lemma wishlist_toggle (id : string) (s : State) :
  wishlist (toggleWishlist id s)
  = if JSArray.includes id (wishlist s)
    then remove string_dec id (wishlist s)
    else (wishlist s ++ [id])%list.
Proof.
  unfold toggleWishlist. simpl.
  destruct (JSArray.includes id (wishlist s)); [|reflexivity].
  apply filter_neqb_remove.
Qed.

Lemma remove_absent (x : string) (l : list string) :
  ~ In x l -> remove string_dec x l = l.
Proof. apply notin_remove. Qed.

(** X1. A toggle flips the membership of the id and of no other id, keeps a
    wishlist free of duplicates so, and flips the heart of the card; two
    toggles of one id leave the membership of every id as it was, and leave
    the state itself as it was when the id was not in the wishlist. *)
Theorem toggleWishlist_spec (product : Product.t) (s : State) :
  let id := Product.id product in
  (In id (wishlist (toggleWishlist id s)) <-> ~ In id (wishlist s))
  /\ (forall other, other <> id ->
        (In other (wishlist (toggleWishlist id s)) <-> In other (wishlist s)))
  /\ (NoDup (wishlist s) -> NoDup (wishlist (toggleWishlist id s)))
  /\ isWishlisted (toggleWishlist id s) product = negb (isWishlisted s product)
  /\ (forall other,
        In other (wishlist (toggleWishlist id (toggleWishlist id s)))
        <-> In other (wishlist s))
  /\ (~ In id (wishlist s) -> toggleWishlist id (toggleWishlist id s) = s).
Proof.
  intros id.
  assert (Hflip : forall t, In id (wishlist (toggleWishlist id t)) <-> ~ In id (wishlist t)).
  { intros t. rewrite wishlist_toggle.
    destruct (JSArray.includes id (wishlist t)) eqn:E.
    - apply includes_In in E. split; [intros H; now apply remove_In in H | tauto].
    - apply includes_not_In in E. rewrite in_app_iff. simpl. tauto. }
  assert (Hother : forall t other, other <> id ->
            (In other (wishlist (toggleWishlist id t)) <-> In other (wishlist t))).
  { intros t other Hne. rewrite wishlist_toggle.
    destruct (JSArray.includes id (wishlist t)).
    - split.
      + intros H. now apply in_remove in H.
      + intros H. apply in_in_remove; assumption.
    - rewrite in_app_iff. simpl. intuition congruence. }
  split; [apply Hflip|]. split; [apply Hother|]. split; [|split; [|split]].
  - intros Hnd. rewrite wishlist_toggle.
    destruct (JSArray.includes id (wishlist s)) eqn:E.
    + rewrite <- filter_neqb_remove. apply NoDup_filter, Hnd.
    + apply includes_not_In in E. apply NoDup_app; [exact Hnd | repeat constructor; simpl; tauto|].
      intros x Hx [Hx'|[]]. subst x. contradiction.
  - unfold isWishlisted. fold id.
    destruct (JSArray.includes id (wishlist s)) eqn:E.
    + apply includes_In in E. apply includes_not_In. rewrite Hflip. tauto.
    + apply includes_not_In in E. apply includes_In. rewrite Hflip. exact E.
  - intros other. destruct (string_dec other id) as [->|Hne].
    + rewrite Hflip, Hflip.
      destruct (in_dec string_dec id (wishlist s)); tauto.
    + rewrite !Hother by exact Hne. reflexivity.
  - intros Hout.
    assert (H1 : wishlist (toggleWishlist id s) = (wishlist s ++ [id])%list).
    { rewrite wishlist_toggle.
      apply includes_not_In in Hout. now rewrite Hout. }
    unfold toggleWishlist at 1.
    transitivity (setWishlist (fun _ => wishlist s) (toggleWishlist id s)).
    + unfold setWishlist. f_equal. rewrite H1.
      assert (Hin : JSArray.includes id (wishlist s ++ [id]) = true)
        by (apply includes_In, in_or_app; right; left; reflexivity).
      rewrite Hin, filter_neqb_remove, remove_app, remove_absent by exact Hout.
      simpl. destruct (string_dec id id); [apply app_nil_r | congruence].
    + destruct s; reflexivity.
Qed.

(** ** The totals of the cart *)

Lemma cartCount_cons (c : CartItem.t) (l : list CartItem.t) :
  cartCount (c :: l) = CartItem.quantity c + cartCount l.
Proof.
  unfold cartCount. simpl.
  assert (H : forall z, fold_left (fun acc item => acc + CartItem.quantity item) l z
                        = z + fold_left (fun acc item => acc + CartItem.quantity item) l 0).
  { induction l as [|x r IH]; intros z; simpl; [lia|].
    rewrite IH, (IH (CartItem.quantity x)). lia. }
  rewrite H. lia.
Qed.

Lemma cartCount_app (l1 l2 : list CartItem.t) :
  cartCount (l1 ++ l2) = cartCount l1 + cartCount l2.
Proof.
  induction l1 as [|c r IH]; simpl; [reflexivity|].
  rewrite !cartCount_cons, IH. lia.
Qed.

Lemma filter_id_absent (id : string) (l : list CartItem.t) :
  ~ In id (map CartItem.id l) ->
  filter (fun item => negb (String.eqb (CartItem.id item) id)) l = l.
Proof.
  induction l as [|c r IH]; simpl; intros H; [reflexivity|].
  destruct (String.eqb_spec (CartItem.id c) id) as [E|E]; simpl.
  - exfalso. apply H. left. exact E.
  - rewrite IH by tauto. reflexivity.
Qed.

Section CartLine.
Variable id : string.
Variable a : Z.

Local Abbreviation raised :=
  (map (fun item => if String.eqb (CartItem.id item) id
                    then CartItem.mk (CartItem.product item) (CartItem.quantity item + a)
                    else item)).

Local Abbreviation without :=
  (filter (fun item => negb (String.eqb (CartItem.id item) id))).

Lemma cartCount_raised (l : list CartItem.t) :
  NoDup (map CartItem.id l) -> In id (map CartItem.id l) ->
  cartCount (raised l) = cartCount l + a.
Proof.
  induction l as [|c r IH]; simpl; intros Hnd Hin; [contradiction|].
  inversion Hnd as [|? ? Hc Hr]; subst.
  rewrite !cartCount_cons.
  destruct (String.eqb_spec (CartItem.id c) id) as [E|E].
  - subst id. rewrite map_id_absent by exact Hc. simpl. lia.
  - rewrite IH; [lia | exact Hr | destruct Hin; [contradiction | assumption]].
Qed.

Lemma cartCount_without (l : list CartItem.t) :
  NoDup (map CartItem.id l) ->
  cartCount (without l) = cartCount l - quantityOf id l.
Proof.
  unfold quantityOf.
  induction l as [|c r IH]; simpl; intros Hnd; [reflexivity|].
  inversion Hnd as [|? ? Hc Hr]; subst.
  destruct (String.eqb_spec (CartItem.id c) id) as [E|E]; simpl.
  - subst id. rewrite filter_id_absent by exact Hc. rewrite cartCount_cons. lia.
  - rewrite !cartCount_cons, IH by exact Hr. lia.
Qed.

End CartLine.

(** The total is the rounded sum of the rounded amounts of the lines. *)
Section Total.
Local Open Scope Q_scope.

Local Abbreviation sumFrom :=
  (fold_left (fun acc item => JSNumber.add acc (lineAmount item))).

Lemma total_sumFrom (l : list CartItem.t) : total l = sumFrom l 0.
Proof. reflexivity. Qed.

Lemma lineAmount_nonneg (item : CartItem.t) :
  0 <= CartItem.price item -> (0 <= CartItem.quantity item)%Z ->
  0 <= lineAmount item.
Proof.
  intros Hp Hq. unfold lineAmount, JSNumber.mul. apply binary64_nonneg.
  apply Qmult_le_0_compat; [apply binary64_nonneg, Hp|].
  change 0 with (inject_Z 0). now rewrite <- Zle_Qle.
Qed.

Lemma lineAmount_le (product : Product.t) (q q' : Z) :
  0 <= Product.price product -> (q <= q')%Z ->
  lineAmount (CartItem.mk product q) <= lineAmount (CartItem.mk product q').
Proof.
  intros Hp Hq. unfold lineAmount, JSNumber.mul. apply binary64_le.
  unfold CartItem.price. cbn [CartItem.quantity CartItem.product].
  pose proof (binary64_nonneg _ Hp) as HP.
  rewrite Zle_Qle in Hq.
  set (P := JSNumber.binary64 (Product.price product)) in *.
  set (x := inject_Z q) in *. set (y := inject_Z q') in *. nra.
Qed.

Lemma sumFrom_binary64 (l : list CartItem.t) (z : Q) :
  JSNumber.binary64 z = z -> JSNumber.binary64 (sumFrom l z) = sumFrom l z.
Proof.
  revert z. induction l as [|x r IH]; intros z Hz; simpl; [exact Hz|].
  apply IH. apply binary64_idempotent.
Qed.

Lemma sumFrom_le (l l' : list CartItem.t) (z z' : Q) :
  Forall2 (fun i i' => lineAmount i <= lineAmount i') l l' -> z <= z' ->
  sumFrom l z <= sumFrom l' z'.
Proof.
  intros H. revert z z'. induction H as [|x x' r r' Hx _ IH]; intros z z' Hz; simpl.
  - exact Hz.
  - apply IH. unfold JSNumber.add. apply binary64_le. lra.
Qed.

Lemma sumFrom_filter_le (f : CartItem.t -> bool) (l : list CartItem.t) (z z' : Q) :
  Forall (fun i => 0 <= lineAmount i) l -> JSNumber.binary64 z = z -> z <= z' ->
  sumFrom (filter f l) z <= sumFrom l z'.
Proof.
  intros H. revert z z'. induction H as [|x r Hx _ IH]; intros z z' Hb Hz; simpl.
  - exact Hz.
  - destruct (f x); simpl.
    + apply IH; [apply binary64_idempotent|].
      unfold JSNumber.add. apply binary64_le. lra.
    + apply IH; [exact Hb|].
      rewrite <- Hb. unfold JSNumber.add. apply binary64_le. lra.
Qed.

Lemma sumFrom_nonneg (l : list CartItem.t) (z : Q) :
  Forall (fun i => 0 <= lineAmount i) l -> 0 <= z -> 0 <= sumFrom l z.
Proof.
  intros H. revert z. induction H as [|x r Hx _ IH]; intros z Hz; simpl.
  - exact Hz.
  - apply IH. unfold JSNumber.add. apply binary64_nonneg. lra.
Qed.

Lemma total_binary64 (l : list CartItem.t) : JSNumber.binary64 (total l) = total l.
Proof. rewrite total_sumFrom. apply sumFrom_binary64. reflexivity. Qed.

Lemma total_app_one (l : list CartItem.t) (x : CartItem.t) :
  total (l ++ [x]) = JSNumber.add (total l) (lineAmount x).
Proof. unfold total. rewrite fold_left_app. reflexivity. Qed.

End Total.

(** X2. In a cart with one line per id, prices and quantities that are not
    negative: an add raises the badge count by the quantity added and a
    removal lowers it by the quantity of the line; the empty cart counts 0
    and totals 0.  The total is a sum the machine rounds at every step: a
    product that is not in the cart adds the rounded amount of its new line
    to the total, rounded again; an add never lowers the total and a
    removal never raises it; the total is never negative. *)
Theorem cart_totals (product : Product.t) (a : Z) (id : string) (s : State)
    (Hnodup : NoDup (map CartItem.id (cart s)))
    (Hcart : Forall (fun item => (0 <= CartItem.price item)%Q
                                 /\ 0 <= CartItem.quantity item) (cart s))
    (Hprice : (0 <= Product.price product)%Q) (Ha : 0 <= a) :
  cartCount (cart (addToCart product a s)) = cartCount (cart s) + a
  /\ cartCount (cart (removeFromCart id s)) = cartCount (cart s) - quantityOf id (cart s)
  /\ cartCount [] = 0 /\ total [] = 0%Q
  /\ (~ In (Product.id product) (map CartItem.id (cart s)) ->
      total (cart (addToCart product a s))
      = JSNumber.add (total (cart s)) (lineAmount (CartItem.mk product a)))
  /\ (total (cart s) <= total (cart (addToCart product a s)))%Q
  /\ (total (cart (removeFromCart id s)) <= total (cart s))%Q
  /\ (0 <= total (cart s))%Q.
Proof.
  assert (Hamounts : Forall (fun i => (0 <= lineAmount i)%Q) (cart s)).
  { eapply Forall_impl; [|exact Hcart]. intros i [Hp Hq]. now apply lineAmount_nonneg. }
  assert (Hnew : (0 <= lineAmount (CartItem.mk product a))%Q)
    by (apply lineAmount_nonneg; assumption).
  split; [|split; [apply cartCount_without, Hnodup|]].
  { destruct (in_dec string_dec (Product.id product) (map CartItem.id (cart s)))
      as [Hin|Hout].
    - rewrite cart_addToCart_present by exact Hin. now apply cartCount_raised.
    - rewrite cart_addToCart_fresh by exact Hout.
      rewrite cartCount_app, cartCount_cons. unfold cartCount. simpl. lia. }
  split; [reflexivity|]. split; [reflexivity|].
  split; [intros Hout; rewrite cart_addToCart_fresh by exact Hout; apply total_app_one|].
  split; [|split].
  - destruct (in_dec string_dec (Product.id product) (map CartItem.id (cart s)))
      as [Hin|Hout].
    + rewrite cart_addToCart_present by exact Hin. unfold total.
      apply sumFrom_le; [|apply Qle_refl].
      clear Hin Hnodup Hamounts. induction Hcart as [|x r [Hp Hq] _ IH]; simpl.
      * constructor.
      * constructor; [|exact IH].
        destruct (String.eqb (CartItem.id x) (Product.id product)); [|apply Qle_refl].
        destruct x as [px qx]. apply lineAmount_le; [exact Hp | simpl; lia].
    + rewrite cart_addToCart_fresh by exact Hout. rewrite total_app_one.
      rewrite <- (total_binary64 (cart s)) at 1.
      unfold JSNumber.add. apply binary64_le. lra.
  - unfold removeFromCart, total. simpl.
    apply sumFrom_filter_le; [exact Hamounts | reflexivity | apply Qle_refl].
  - unfold total. apply sumFrom_nonneg; [exact Hamounts | apply Qle_refl].
Qed.

Lemma cart_totals_witness :
  NoDup (map CartItem.id (cart sampleCartState))
  /\ Forall (fun item => (0 <= CartItem.price item)%Q /\ 0 <= CartItem.quantity item)
            (cart sampleCartState)
  /\ (0 <= Product.price netflix_prem)%Q
  /\ cartCount (cart (addToCart netflix_prem 3 sampleCartState)) = 5.
Proof.
  assert (Hnd : NoDup (map CartItem.id (cart sampleCartState)))
    by (simpl; repeat constructor; simpl; tauto).
  assert (Hc : Forall (fun item => (0 <= CartItem.price item)%Q
                                   /\ 0 <= CartItem.quantity item)
                      (cart sampleCartState))
    by (repeat constructor; [unfold Qle; simpl; lia | simpl; lia]).
  assert (Hp : (0 <= Product.price netflix_prem)%Q) by (unfold Qle; simpl; lia).
  split; [exact Hnd|]. split; [exact Hc|]. split; [exact Hp|].
  assert (Ha : 0 <= 3) by lia.
  exact (proj1 (cart_totals netflix_prem 3 "netflix-prem" sampleCartState
                  Hnd Hc Hp Ha)).
Defined.

(** The total is not additive: three Netflix and a Spotify total 17.47,
    the Netflix line amounts to 14.97, and the cart without it totals 2.5,
    which is not the difference the machine computes, 2.4999999999999982. *)
Example total_not_additive :
  let both := [CartItem.mk netflix_prem 3; CartItem.mk spotify_prem 1] in
  total both = JSNumber.binary64 (1747 # 100)
  /\ lineAmount (CartItem.mk netflix_prem 3) = JSNumber.binary64 (1497 # 100)
  /\ total [CartItem.mk spotify_prem 1] = (5 # 2)%Q
  /\ JSNumber.sub (total both) (lineAmount (CartItem.mk netflix_prem 3))
     = JSNumber.binary64 (24999999999999982 # 10000000000000000)
  /\ (JSNumber.sub (total both) (lineAmount (CartItem.mk netflix_prem 3))
      < total [CartItem.mk spotify_prem 1])%Q.
Proof. vm_compute. repeat split. Qed.

(** ** How the cart operations compose *)

Lemma setCart_setCart (f g : list CartItem.t -> list CartItem.t) (s : State) :
  setCart g (setCart f s) = setCart (fun c => g (f c)) s.
Proof. reflexivity. Qed.

Lemma setCart_ext (f g : list CartItem.t -> list CartItem.t) (s : State) :
  f (cart s) = g (cart s) -> setCart f s = setCart g s.
Proof. intros H. unfold setCart. now rewrite H. Qed.

(** X3. The last quantity set wins: setting a positive quantity and then
    any quantity is setting the second alone.  Removing twice is removing
    once, removals commute, and removing a product just added leaves the
    cart that removing it at once would have left. *)
Theorem cart_compose (id id' : string) (q1 q2 : Z) (product : Product.t)
    (a : Z) (s : State) (Hq1 : 0 < q1) :
  updateQuantity id q2 (updateQuantity id q1 s) = updateQuantity id q2 s
  /\ removeFromCart id (removeFromCart id s) = removeFromCart id s
  /\ removeFromCart id (removeFromCart id' s) = removeFromCart id' (removeFromCart id s)
  /\ cart (removeFromCart (Product.id product) (addToCart product a s))
     = cart (removeFromCart (Product.id product) s)
  /\ updateQuantity id 0 (updateQuantity id q1 s) = removeFromCart id s.
Proof.
  assert (Hupd : forall q, updateQuantity id q (updateQuantity id q1 s)
                           = updateQuantity id q s).
  { intros q. unfold updateQuantity, removeFromCart.
    destruct (Z.leb_spec q1 0); [lia|].
    destruct (q <=? 0); rewrite setCart_setCart; apply setCart_ext.
    - induction (cart s) as [|c r IH]; simpl; [reflexivity|].
      destruct (String.eqb (CartItem.id c) id) eqn:E; simpl.
      + unfold CartItem.id in *. simpl. rewrite E. simpl. exact IH.
      + rewrite E. simpl. now rewrite IH.
    - rewrite map_map. apply map_ext. intros c.
      destruct (String.eqb (CartItem.id c) id) eqn:E.
      + unfold CartItem.id in *. simpl. now rewrite E.
      + now rewrite E. }
  split; [apply Hupd|]. split; [|split; [|split]].
  - unfold removeFromCart. rewrite setCart_setCart. apply setCart_ext.
    induction (cart s) as [|c r IH]; simpl; [reflexivity|].
    destruct (String.eqb (CartItem.id c) id) eqn:E; simpl; [exact IH|].
    rewrite E. simpl. now rewrite IH.
  - unfold removeFromCart. rewrite !setCart_setCart. apply setCart_ext.
    induction (cart s) as [|c r IH]; simpl; [reflexivity|].
    destruct (String.eqb (CartItem.id c) id) eqn:E;
      destruct (String.eqb (CartItem.id c) id') eqn:E'; simpl;
      rewrite ?E, ?E'; simpl; rewrite ?IH; reflexivity.
  - unfold removeFromCart, addToCart. simpl.
    induction (cart s) as [|c r IH]; simpl.
    + unfold CartItem.id. simpl. now rewrite String.eqb_refl.
    + destruct (String.eqb (CartItem.id c) (Product.id product)) eqn:E; simpl.
      * unfold CartItem.id in *. simpl. rewrite E. simpl.
        clear IH. induction r as [|d r IH]; simpl; [reflexivity|].
        destruct (String.eqb (Product.id (CartItem.product d)) (Product.id product)) eqn:F;
          simpl; rewrite F; simpl; now rewrite IH.
      * destruct (find _ r) as [item|]; simpl in *; rewrite E; simpl; now rewrite IH.
  - rewrite Hupd. reflexivity.
Qed.

Lemma cart_compose_witness :
  0 < 4
  /\ updateQuantity "netflix-prem" 7 (updateQuantity "netflix-prem" 4 sampleCartState)
     = updateQuantity "netflix-prem" 7 sampleCartState.
Proof.
  split; [lia|].
  exact (proj1 (cart_compose "netflix-prem" "canva-pro" 4 7 netflix_prem 1
                  sampleCartState eq_refl)).
Defined.

(** ** The quantity steppers *)

Lemma stepper_positive (qty : Z) (c : stepperClick) : 1 <= qty -> 1 <= stepper qty c.
Proof. intros H. destruct c; unfold stepper, JSMath.max; lia. Qed.

Lemma stepperRun_from (clicks : list stepperClick) (qty : Z) :
  1 <= qty -> 1 <= fold_left stepper clicks qty.
Proof.
  revert qty. induction clicks as [|c r IH]; intros qty H; simpl.
  - exact H.
  - apply IH, stepper_positive, H.
Qed.

Lemma stepperRun_positive (clicks : list stepperClick) : 1 <= stepperRun clicks.
Proof. apply stepperRun_from. lia. Qed.

(** X4. Whatever is clicked, a stepper shows at least 1, and it can show
    every quantity from 1 up: minus at 1 stays at 1, minus undoes plus, and
    n - 1 clicks on plus give n. *)
Theorem stepper_spec (clicks : list stepperClick) (n : nat) :
  1 <= stepperRun clicks
  /\ stepper 1 Minus = 1
  /\ (forall qty, 1 <= qty -> stepper (stepper qty Plus) Minus = qty)
  /\ stepperRun (repeat Plus n) = Z.of_nat n + 1
  /\ stepperRun (clicks ++ [Minus]) = Z.max 1 (stepperRun clicks - 1).
Proof.
  split; [apply stepperRun_positive|]. split; [reflexivity|].
  split; [intros qty H; unfold stepper, JSMath.max; lia|]. split.
  - unfold stepperRun.
    assert (H : forall q, fold_left stepper (repeat Plus n) q = Z.of_nat n + q).
    { induction n as [|n IH]; intros q; simpl repeat.
      - simpl. lia.
      - cbn [fold_left stepper]. rewrite IH. lia. }
    apply H.
  - unfold stepperRun. rewrite fold_left_app. reflexivity.
Qed.

(** ** Ratings stay within the stars given *)

Ltac Qconst :=
  change (inject_Z 10) with 10%Q in *;
  change (inject_Z 1) with 1%Q in *;
  change (inject_Z 0) with 0%Q in *.

Lemma toFixed1_bounds (x : Q) (lo hi : Z) :
  (inject_Z lo <= x)%Q -> (x <= inject_Z hi)%Q ->
  10 * lo <= JSNumber.toFixed1 x <= 10 * hi.
Proof.
  intros Hlo Hhi. unfold JSNumber.toFixed1.
  assert (Hz : forall a b : Z, (inject_Z a < inject_Z b + 1)%Q -> a <= b).
  { intros a b H. apply Z.lt_succ_r. rewrite Zlt_Qlt. unfold Z.succ.
    rewrite inject_Z_plus. exact H. }
  destruct (Qle_bool 0 x).
  - pose proof (Qfloor_le (x * 10 + (1 # 2))) as Hle.
    pose proof (Qlt_floor (x * 10 + (1 # 2))) as Hlt.
    set (n := Qfloor (x * 10 + (1 # 2))) in *.
    rewrite inject_Z_plus in Hlt. split.
    + apply Hz. rewrite inject_Z_mult. Qconst. lra.
    + apply Hz. rewrite inject_Z_mult. Qconst. lra.
  - pose proof (Qfloor_le (- x * 10 + (1 # 2))) as Hle.
    pose proof (Qlt_floor (- x * 10 + (1 # 2))) as Hlt.
    set (n := Qfloor (- x * 10 + (1 # 2))) in *.
    rewrite inject_Z_plus in Hlt. split.
    + assert (H : n <= - (10 * lo)).
      { apply Hz. rewrite inject_Z_opp, inject_Z_mult. Qconst. lra. }
      lia.
    + assert (H : - (10 * hi) <= n).
      { apply Hz. rewrite inject_Z_opp, inject_Z_mult. Qconst. lra. }
      lia.
Qed.

Lemma ratingSum_bounds (l : list Review.t) (lo hi : Z) :
  Forall (fun r => lo <= Review.rating r <= hi) l ->
  lo * Z.of_nat (List.length l) <= ratingSum l <= hi * Z.of_nat (List.length l).
Proof.
  rewrite ratingSum_fold_right.
  induction 1 as [|r l Hr Hl IH]; simpl List.length; simpl fold_right; [simpl; lia|].
  rewrite Nat2Z.inj_succ. cbn [map fold_right]. nia.
Qed.

Lemma newRating_bounds (l : list Review.t) (lo hi : Z) :
  l <> [] -> Z.abs lo <= 2 ^ 53 -> Z.abs hi <= 2 ^ 53 ->
  Forall (fun r => lo <= Review.rating r <= hi) l ->
  (inject_Z lo <= newRating l /\ newRating l <= inject_Z hi)%Q.
Proof.
  intros Hne Hlo Hhi Hall.
  pose proof (ratingSum_bounds l lo hi Hall) as [Hs1 Hs2].
  assert (Hn : 0 < Z.of_nat (List.length l))
    by (destruct l; [congruence | simpl List.length; lia]).
  assert (HnQ : (0 < inject_Z (Z.of_nat (List.length l)))%Q)
    by (rewrite <- (Zlt_Qlt 0); exact Hn).
  unfold newRating, JSNumber.div.
  set (m := (inject_Z (ratingSum l) / inject_Z (Z.of_nat (List.length l)))%Q).
  assert (Hm : (inject_Z lo <= m /\ m <= inject_Z hi)%Q).
  { subst m. split.
    - apply Qle_shift_div_l; [exact HnQ|].
      rewrite <- inject_Z_mult, <- Zle_Qle. exact Hs1.
    - apply Qle_shift_div_r; [exact HnQ|].
      rewrite <- inject_Z_mult, <- Zle_Qle. exact Hs2. }
  destruct Hm as [Hm1 Hm2].
  (* rounding keeps the quotient between the two whole numbers *)
  assert (Hx1 : (inject_Z lo <= JSNumber.binary64 m)%Q).
  { rewrite <- (binary64_Z lo Hlo). apply binary64_le, Hm1. }
  assert (Hx2 : (JSNumber.binary64 m <= inject_Z hi)%Q).
  { rewrite <- (binary64_Z hi Hhi). apply binary64_le, Hm2. }
  pose proof (toFixed1_bounds _ lo hi Hx1 Hx2) as [H1 H2].
  unfold JSNumber.ofFixed1, Qle, inject_Z. simpl. lia.
Qed.

Lemma in_map_update (productId : string) (review : Review.t) (p' : Product.t)
    (l : list Product.t) :
  In p' (map (fun p => if String.eqb (Product.id p) productId
                       then withReview review p else p) l) ->
  (In p' l /\ Product.id p' <> productId)
  \/ (exists p, In p l /\ Product.id p = productId /\ p' = withReview review p).
Proof.
  intros H. apply in_map_iff in H. destruct H as (p & Hp' & Hp).
  destruct (String.eqb_spec (Product.id p) productId) as [E|E].
  - right. exists p. auto.
  - left. subst p'. auto.
Qed.



(** ** Reviews one after the other *)

Lemma sameListing_refl (p : Product.t) : sameListing p p.
Proof. unfold sameListing. repeat split. Qed.

Lemma sameListing_trans (p q r : Product.t) :
  sameListing p q -> sameListing q r -> sameListing p r.
Proof.
  unfold sameListing. intros H1 H2.
  decompose [and] H1. decompose [and] H2. repeat split; congruence.
Qed.

Lemma sameListing_withReview (review : Review.t) (p : Product.t) :
  sameListing p (withReview review p).
Proof. unfold sameListing. repeat split. Qed.

(** The reviews added to one entry. *)
Lemma withReviews_spec (rs : list Review.t) (p : Product.t) :
  let p' := fold_left (fun p r => withReview r p) rs p in
  userReviewsOrEmpty p' = (rev rs ++ userReviewsOrEmpty p)%list
  /\ Product.reviews p' = Product.reviews p + Z.of_nat (List.length rs)
  /\ (rs <> [] -> Product.rating p' = newRating (rev rs ++ userReviewsOrEmpty p))
  /\ (rs = [] -> p' = p)
  /\ sameListing p p'.
Proof.
  revert p. induction rs as [|r rs IH]; intros p; simpl.
  - repeat split; try reflexivity; [lia | congruence].
  - destruct (IH (withReview r p)) as (H1 & H2 & H3 & H4 & H5).
    cbv zeta in *. rewrite H1, H2.
    change (userReviewsOrEmpty (withReview r p)) with (r :: userReviewsOrEmpty p) in *.
    change (Product.reviews (withReview r p)) with (reviewsOrZero p + 1).
    rewrite reviewsOrZero_eq, <- !app_assoc. simpl app.
    split; [reflexivity|]. split; [lia|]. split; [|split; [discriminate|]].
    + intros _. destruct rs as [|r' rs'].
      * rewrite (H4 eq_refl). reflexivity.
      * rewrite H3 by discriminate. reflexivity.
    + eapply sameListing_trans; [apply sameListing_withReview | exact H5].
Qed.

Lemma products_addReviews (productId : string) (rs : list Review.t) (s : State) :
  products (addReviews productId rs s)
  = map (fun p => if String.eqb (Product.id p) productId
                  then fold_left (fun p r => withReview r p) rs p else p)
        (products s).
Proof.
  unfold addReviews. revert s. induction rs as [|r rs IH]; intros s; simpl.
  - rewrite <- (map_id (products s)) at 1. apply map_ext.
    intros p. destruct (String.eqb (Product.id p) productId); reflexivity.
  - rewrite IH, handleAddReview_products, map_map. apply map_ext.
    intros p. destruct (String.eqb (Product.id p) productId) eqn:E.
    + change (Product.id (withReview r p)) with (Product.id p). now rewrite E.
    + now rewrite E.
Qed.

(** X6. Reviews added one after the other under one id pile up newest
    first in front of the reviews an entry had; the count rises by the
    number added, so the count and the number of reviews stay the same
    distance apart; the rating is that of the whole pile; the entry stays
    the same listing, and entries of other ids are left as they were. *)
Theorem addReviews_spec (productId : string) (rs : list Review.t) (s : State) :
  Forall2
    (fun p p' =>
       if String.eqb (Product.id p) productId then
         userReviewsOrEmpty p' = (rev rs ++ userReviewsOrEmpty p)%list
         /\ Product.reviews p' = Product.reviews p + Z.of_nat (List.length rs)
         /\ Product.reviews p' - Z.of_nat (List.length (userReviewsOrEmpty p'))
            = Product.reviews p - Z.of_nat (List.length (userReviewsOrEmpty p))
         /\ (rs <> [] ->
             Product.rating p' = newRating (rev rs ++ userReviewsOrEmpty p))
         /\ sameListing p p'
       else p' = p)
    (products s) (products (addReviews productId rs s)).
Proof.
  rewrite products_addReviews.
  induction (products s) as [|p l IH]; simpl; constructor; [|exact IH].
  destruct (String.eqb (Product.id p) productId); [|reflexivity].
  destruct (withReviews_spec rs p) as (H1 & H2 & H3 & _ & H5). cbv zeta in *.
  split; [exact H1|]. split; [exact H2|]. split; [|split; assumption].
  rewrite H1, H2, length_app, length_rev. lia.
Qed.

(** ** The review form *)

(** X7. A submit with a comment that does not trim to nothing adds one
    review, by Demo User, with the stars chosen and the comment as typed,
    untrimmed, and resets the form to 5 stars and an empty comment; so a
    second submit right after the first, whatever the clock says, changes
    nothing more. *)
Theorem submit_once (now today now' today' : string) (product : Product.t)
    (m : ModalState) (s : State)
    (Hcomment : JS.trim (reviewComment m) <> "") :
  let r := handleSubmitReview now today product m s in
  snd r = handleAddReview (Product.id product)
            (Review.mk now "Demo User" (reviewRating m) (reviewComment m) today) s
  /\ fst r = mkModal (qty m) 5 ""
  /\ handleSubmitReview now' today' product (fst r) (snd r) = r.
Proof.
  intros r.
  assert (Hr : r = (mkModal (qty m) 5 "",
                    handleAddReview (Product.id product)
                      (Review.mk now "Demo User" (reviewRating m) (reviewComment m) today)
                      s)).
  { subst r. unfold handleSubmitReview.
    destruct (JS.trim (reviewComment m)); [congruence | reflexivity]. }
  rewrite Hr. split; [reflexivity|]. split; reflexivity.
Qed.

Lemma submit_once_witness :
  JS.trim (reviewComment (mkModal 2 4 "  Great value  ")) <> ""
  /\ fst (handleSubmitReview "1" "2024-03-01" netflix_prem
            (mkModal 2 4 "  Great value  ") initial)
     = mkModal 2 5 "".
Proof.
  assert (H : JS.trim (reviewComment (mkModal 2 4 "  Great value  ")) <> "")
    by (vm_compute; discriminate).
  split; [exact H|].
  exact (proj1 (proj2 (submit_once "1" "2024-03-01" "2" "2024-03-02" netflix_prem
                         (mkModal 2 4 "  Great value  ") initial H))).
Defined.

(** ** The recently viewed strip, and the snapshots of the cart *)

Lemma find_map_id (f : Product.t -> Product.t) (id : string) (l : list Product.t) :
  (forall p, Product.id (f p) = Product.id p) ->
  find (fun p => String.eqb (Product.id p) id) (map f l)
  = option_map f (find (fun p => String.eqb (Product.id p) id) l).
Proof.
  intros Hf. induction l as [|p r IH]; simpl; [reflexivity|].
  rewrite Hf. destruct (String.eqb (Product.id p) id); [reflexivity | exact IH].
Qed.

Lemma filterBoolean_map {A : Type} (f : A -> A) (l : list (option A)) :
  filterBoolean (map (option_map f) l) = map f (filterBoolean l).
Proof.
  induction l as [|[x|] r IH]; simpl; [reflexivity | now rewrite IH | exact IH].
Qed.

Lemma find_In_id (id : string) (l : list Product.t) (p : Product.t) :
  find (fun p => String.eqb (Product.id p) id) l = Some p ->
  In p l /\ Product.id p = id.
Proof.
  intros H. apply find_some in H. destruct H as [Hin E].
  apply String.eqb_eq in E. auto.
Qed.

Lemma find_product_none (id : string) (l : list Product.t) :
  find (fun p => String.eqb (Product.id p) id) l = None
  <-> ~ In id (map Product.id l).
Proof.
  induction l as [|p r IH]; simpl; [tauto|].
  destruct (String.eqb_spec (Product.id p) id) as [E|E].
  - split; [discriminate | intros H; exfalso; apply H; left; exact E].
  - rewrite IH. tauto.
Qed.

Lemma recentProductsData_ids (s : State) :
  map Product.id (recentProductsData s)
  = filter (fun id => existsb (fun p => String.eqb (Product.id p) id) (products s))
           (recentlyViewedIds s).
Proof.
  unfold recentProductsData.
  induction (recentlyViewedIds s) as [|id r IH]; simpl; [reflexivity|].
  destruct (find (fun p => String.eqb (Product.id p) id) (products s)) as [p|] eqn:E.
  - pose proof (find_In_id _ _ _ E) as [Hin Hid].
    assert (Hex : existsb (fun p => String.eqb (Product.id p) id) (products s) = true).
    { apply existsb_exists. exists p. split; [exact Hin|]. now apply String.eqb_eq. }
    rewrite Hex. simpl. now rewrite Hid, IH.
  - assert (Hex : existsb (fun p => String.eqb (Product.id p) id) (products s) = false).
    { apply not_true_is_false. intros H. apply existsb_exists in H.
      destruct H as (p & Hin & Hp). apply (find_none _ _ E) in Hin. congruence. }
    rewrite Hex. exact IH.
Qed.

Lemma recentProductsData_In (s : State) (p : Product.t) :
  In p (recentProductsData s) -> In p (products s).
Proof.
  unfold recentProductsData.
  induction (recentlyViewedIds s) as [|id r IH]; simpl; [tauto|].
  destruct (find (fun p => String.eqb (Product.id p) id) (products s)) as [q|] eqn:E.
  - intros [<-|H]; [apply (find_In_id _ _ _ E) | apply IH, H].
  - exact IH.
Qed.

Lemma recentProductsData_all (s : State) :
  incl (recentlyViewedIds s) (map Product.id (products s)) ->
  map Product.id (recentProductsData s) = recentlyViewedIds s.
Proof.
  intros Hincl. rewrite recentProductsData_ids.
  induction (recentlyViewedIds s) as [|id r IH]; simpl; [reflexivity|].
  assert (Hex : existsb (fun p => String.eqb (Product.id p) id) (products s) = true).
  { assert (Hin : In id (map Product.id (products s))) by (apply Hincl; left; reflexivity).
    apply in_map_iff in Hin. destruct Hin as (p & Hid & Hp).
    apply existsb_exists. exists p. split; [exact Hp | now apply String.eqb_eq]. }
  rewrite Hex, IH; [reflexivity|].
  intros x Hx. apply Hincl. right. exact Hx.
Qed.

(** X8. The strip lists, in the order of the history, one entry for every
    id of the history that the catalog has, each of them the entry the
    catalog now holds for it, and drops the ids the catalog does not have;
    when the catalog has them all nothing is dropped.  After a review is
    added the strip shows the entries as the review left them, and after
    the history is cleared it shows none. *)
Theorem recentProductsData_spec (productId : string) (review : Review.t)
    (s : State) :
  map Product.id (recentProductsData s)
  = filter (fun id => existsb (fun p => String.eqb (Product.id p) id) (products s))
           (recentlyViewedIds s)
  /\ (forall p, In p (recentProductsData s) -> In p (products s))
  /\ (incl (recentlyViewedIds s) (map Product.id (products s)) ->
      map Product.id (recentProductsData s) = recentlyViewedIds s)
  /\ recentProductsData (handleAddReview productId review s)
     = map (fun p => if String.eqb (Product.id p) productId
                     then withReview review p else p)
           (recentProductsData s)
  /\ recentProductsData (clearHistory s) = [].
Proof.
  split; [apply recentProductsData_ids|].
  split; [apply recentProductsData_In|].
  split; [apply recentProductsData_all|].
  split; [|reflexivity].
  unfold recentProductsData.
  change (recentlyViewedIds (handleAddReview productId review s))
    with (recentlyViewedIds s).
  rewrite handleAddReview_products, <- filterBoolean_map, map_map.
  f_equal. apply map_ext. intros id. apply find_map_id.
  intros p. destruct (String.eqb (Product.id p) productId); reflexivity.
Qed.

Lemma NoDup_ids_unique (l : list Product.t) (x y : Product.t) :
  NoDup (map Product.id l) -> In x l -> In y l -> Product.id x = Product.id y -> x = y.
Proof.
  induction l as [|p r IH]; simpl; intros Hnd Hx Hy E; [contradiction|].
  inversion Hnd as [|? ? Hp Hr]; subst.
  destruct Hx as [<-|Hx], Hy as [<-|Hy].
  - reflexivity.
  - exfalso. apply Hp. rewrite E. now apply in_map.
  - exfalso. apply Hp. rewrite <- E. now apply in_map.
  - now apply IH.
Qed.

(** X9. A cart line is a snapshot and the strip is not: when a product of
    the catalog is added to the cart and then gets a review, the line still
    holds the product as it was added, the catalog no longer holds that
    version but the reviewed one, and the strip, whose first entry it now
    is, shows the reviewed one. *)
Theorem cart_keeps_snapshot (product : Product.t) (q : Z) (review : Review.t)
    (s : State)
    (Hin : In product (products s))
    (Hnodup : NoDup (map Product.id (products s)))
    (Hfresh : ~ In (Product.id product) (map CartItem.id (cart s))) :
  let s' := handleAddReview (Product.id product) review (addToCart product q s) in
  cart s' = (cart s ++ [CartItem.mk product q])%list
  /\ In (withReview review product) (products s')
  /\ ~ In product (products s')
  /\ hd_error (recentProductsData s') = Some (withReview review product).
Proof.
  intros s'.
  assert (Hprod : products s'
                  = map (fun p => if String.eqb (Product.id p) (Product.id product)
                                  then withReview review p else p) (products s))
    by reflexivity.
  split; [|split; [|split]].
  - change (cart s') with (cart (addToCart product q s)).
    apply cart_addToCart_fresh, Hfresh.
  - rewrite Hprod. apply in_map_iff. exists product.
    split; [now rewrite String.eqb_refl | exact Hin].
  - rewrite Hprod. intros H. apply in_map_update in H.
    destruct H as [[_ Hne]|(p & Hp & Hid & Heq)]; [congruence|].
    assert (p = product) by (apply (NoDup_ids_unique (products s)); assumption).
    subst p. symmetry in Heq. now apply withReview_differs in Heq.
  - unfold recentProductsData.
    change (recentlyViewedIds s') with (recentlyViewedIds (trackRecentlyViewed product s)).
    rewrite recentlyViewedIds_track. cbn [firstn map].
    rewrite Hprod, find_map_id
      by (intros p; destruct (String.eqb (Product.id p) (Product.id product)); reflexivity).
    destruct (find (fun p => String.eqb (Product.id p) (Product.id product)) (products s))
      as [p|] eqn:E.
    + pose proof (find_In_id _ _ _ E) as [Hp Hid].
      assert (p = product) by (apply (NoDup_ids_unique (products s)); assumption).
      subst p. simpl. now rewrite String.eqb_refl.
    + exfalso. apply find_product_none in E. apply E. now apply in_map.
Qed.

Lemma cart_keeps_snapshot_witness :
  In netflix_prem (products initial)
  /\ NoDup (map Product.id (products initial))
  /\ ~ In (Product.id netflix_prem) (map CartItem.id (cart initial))
  /\ cart (handleAddReview (Product.id netflix_prem) blankReview
             (addToCart netflix_prem 1 initial))
     = [CartItem.mk netflix_prem 1].
Proof.
  assert (H1 : In netflix_prem (products initial)) by (left; reflexivity).
  assert (H2 : NoDup (map Product.id (products initial))) by apply PRODUCTS_ids_NoDup.
  assert (H3 : ~ In (Product.id netflix_prem) (map CartItem.id (cart initial)))
    by (simpl; tauto).
  split; [exact H1|]. split; [exact H2|]. split; [exact H3|].
  exact (proj1 (cart_keeps_snapshot netflix_prem 1 blankReview initial H1 H2 H3)).
Defined.

(** ** The text service *)

Lemma trimStart_noLeadingSpace (s : string) : noLeadingSpace (JS.trimStart s).
Proof.
  induction s as [|c r IH]; simpl; [exact I|].
  destruct (JS.isWhiteSpace c) eqn:E; [exact IH | exact E].
Qed.

Lemma trimStart_fixed (s : string) : noLeadingSpace s -> JS.trimStart s = s.
Proof. destruct s as [|c r]; simpl; [reflexivity | intros ->; reflexivity]. Qed.

Lemma trimEnd_noLeadingSpace (s : string) :
  noLeadingSpace s -> noLeadingSpace (JS.trimEnd s).
Proof.
  destruct s as [|c r]; simpl; [exact id|]. intros E.
  destruct (JS.trimEnd r); [rewrite E|]; exact E.
Qed.

Lemma trimEnd_idempotent (s : string) : JS.trimEnd (JS.trimEnd s) = JS.trimEnd s.
Proof.
  induction s as [|c r IH]; simpl; [reflexivity|].
  destruct (JS.trimEnd r) as [|d t] eqn:E.
  - destruct (JS.isWhiteSpace c) eqn:Ec; simpl; [reflexivity | now rewrite Ec].
  - simpl in IH. cbn [JS.trimEnd]. fold JS.trimEnd.
    change (JS.trimEnd (String c (String d t)))
      with (match JS.trimEnd (String d t) with
            | EmptyString => if JS.isWhiteSpace c then EmptyString else String c EmptyString
            | r' => String c r'
            end).
    now rewrite IH.
Qed.

Lemma trim_idempotent (s : string) : JS.trim (JS.trim s) = JS.trim s.
Proof.
  unfold JS.trim.
  rewrite (trimStart_fixed (JS.trimEnd (JS.trimStart s)))
    by apply trimEnd_noLeadingSpace, trimStart_noLeadingSpace.
  apply trimEnd_idempotent.
Qed.

Lemma occurrences_trimStart (c : ascii) (s : string) :
  (JSString.occurrences c (JS.trimStart s) <= JSString.occurrences c s)%nat.
Proof.
  induction s as [|x r IH]; simpl; [lia|].
  destruct (JS.isWhiteSpace x); simpl; destruct (Ascii.eqb x c); lia.
Qed.

Lemma occurrences_trimEnd (c : ascii) (s : string) :
  (JSString.occurrences c (JS.trimEnd s) <= JSString.occurrences c s)%nat.
Proof.
  induction s as [|x r IH]; simpl; [lia|].
  destruct (JS.trimEnd r) as [|d t].
  - destruct (JS.isWhiteSpace x); simpl; destruct (Ascii.eqb x c); lia.
  - cbn [JSString.occurrences] in *. destruct (Ascii.eqb x c); lia.
Qed.

Lemma occurrences_trim (c : ascii) (s : string) :
  JSString.occurrences c s = O -> JSString.occurrences c (JS.trim s) = O.
Proof.
  intros H. unfold JS.trim.
  pose proof (occurrences_trimEnd c (JS.trimStart s)).
  pose proof (occurrences_trimStart c s). lia.
Qed.

Lemma split_length (sep : ascii) (s : string) :
  List.length (JSString.split sep s) = S (JSString.occurrences sep s).
Proof.
  induction s as [|c r IH]; simpl; [reflexivity|].
  destruct (Ascii.eqb c sep); simpl.
  - now rewrite IH.
  - destruct (JSString.split sep r); simpl in *; [discriminate | exact IH].
Qed.

Lemma split_pieces (sep : ascii) (s : string) :
  Forall (fun f => JSString.occurrences sep f = O) (JSString.split sep s).
Proof.
  induction s as [|c r IH]; simpl.
  - repeat constructor.
  - destruct (Ascii.eqb c sep) eqn:E.
    + constructor; [reflexivity | exact IH].
    + destruct (JSString.split sep r) as [|piece pieces].
      * constructor; [simpl; now rewrite E | constructor].
      * inversion IH; subst. constructor; [simpl; now rewrite E | assumption].
Qed.

Lemma join_cons (sep x y : string) (l : list string) :
  JS.join sep (x :: y :: l) = x ++ sep ++ JS.join sep (y :: l).
Proof. reflexivity. Qed.

Lemma join_split (sep : ascii) (s : string) :
  JS.join (String sep EmptyString) (JSString.split sep s) = s.
Proof.
  induction s as [|c r IH]; [reflexivity|].
  pose proof (split_length sep r) as Hlen.
  cbn [JSString.split].
  destruct (JSString.split sep r) as [|piece pieces]; [discriminate|].
  destruct (Ascii.eqb_spec c sep) as [E|E].
  - subst c. rewrite join_cons, IH. reflexivity.
  - destruct pieces as [|p2 rest].
    + simpl in *. now rewrite IH.
    + rewrite join_cons. rewrite join_cons in IH.
      transitivity (String c (piece ++ String sep "" ++ JS.join (String sep "") (p2 :: rest)));
        [reflexivity | now rewrite IH].
Qed.

Lemma split_no_separator (sep : ascii) (s : string) :
  JSString.occurrences sep s = O -> JSString.split sep s = [s].
Proof.
  induction s as [|c r IH]; simpl; [reflexivity|].
  destruct (Ascii.eqb c sep); [discriminate|]. intros H. now rewrite IH.
Qed.

Lemma split_trailing (sep : ascii) (s : string) :
  JSString.split sep (s ++ String sep EmptyString)
  = (JSString.split sep s ++ [EmptyString])%list.
Proof.
  induction s as [|c r IH]; simpl.
  - now rewrite Ascii.eqb_refl.
  - destruct (Ascii.eqb c sep); [now rewrite IH|].
    rewrite IH. pose proof (split_length sep r) as Hlen.
    destruct (JSString.split sep r); [discriminate | reflexivity].
Qed.

Lemma trim_empty_no_comma (s : string) :
  JS.trim s = "" -> JSString.occurrences "," s = O.
Proof.
  unfold JS.trim. intros H.
  assert (Hs : JS.trimStart s = "").
  { pose proof (trimStart_noLeadingSpace s) as Hn.
    destruct (JS.trimStart s) as [|c r]; [reflexivity|].
    simpl in *. destruct (JS.trimEnd r); [rewrite Hn in H|]; discriminate. }
  clear H. induction s as [|c r IH]; simpl in *; [reflexivity|].
  destruct (JS.isWhiteSpace c) eqn:E; [|discriminate].
  destruct (Ascii.eqb_spec c ","%char) as [->|_]; [discriminate | now apply IH].
Qed.

(** X10. The names asked of the service are never raw: each is trimmed and
    holds no comma; a text with n commas gives n + 1 names, which are the
    pieces of the text between its commas; a missing text gives none, and a
    failure gives Netflix, Spotify, ChatGPT.  The blurb of a product is
    never empty: it is the text of the answer when that is not empty, and a
    fixed sentence otherwise. *)
Theorem geminiService_spec (r : geminiService.reply) :
  let names := geminiService.getSmartRecommendations r in
  Forall (fun f => JS.trim f = f /\ JSString.occurrences "," f = O) names
  /\ match r with
     | geminiService.Failed => names = ["Netflix"; "Spotify"; "ChatGPT"]
     | geminiService.Replied None => names = []
     | geminiService.Replied (Some text) =>
         List.length names = S (JSString.occurrences "," text)
         /\ names = map JS.trim (JSString.split "," text)
         /\ JS.join "," (JSString.split "," text) = text
     end
  /\ geminiService.getProductInsight r <> ""
  /\ (forall text, r = geminiService.Replied (Some text) -> text <> "" ->
        geminiService.getProductInsight r = text).
Proof.
  intros names. split; [|split; [|split]].
  - subst names. destruct r as [|[text|]]; simpl.
    + repeat constructor.
    + apply Forall_map. eapply Forall_impl; [|apply (split_pieces ","%char)].
      intros f Hf. split; [apply trim_idempotent | apply occurrences_trim, Hf].
    + constructor.
  - subst names. destruct r as [|[text|]]; simpl; try reflexivity.
    split; [|split; [reflexivity|]].
    + rewrite length_map. apply split_length.
    + apply (join_split ","%char).
  - destruct r as [|[text|]]; simpl; try discriminate.
    destruct text; simpl; discriminate.
  - intros text -> Hne. simpl. destruct text; [congruence | reflexivity].
Qed.

Lemma includes_empty (s : string) : JS.includes s "" = true.
Proof. destruct s; reflexivity. Qed.

Lemma eligible_any (names : list string) (cart : list CartItem.t) (p : Product.t) :
  In "" names ->
  eligible names cart p
  = negb (existsb (fun c => String.eqb (CartItem.id c) (Product.id p)) cart).
Proof.
  intros H. unfold eligible.
  assert (Hex : existsb (fun n => JS.includes (JS.toLowerCase (Product.name p))
                                              (JS.toLowerCase n)) names = true).
  { apply existsb_exists. exists "". split; [exact H | apply includes_empty]. }
  now rewrite Hex.
Qed.

(** X11. An empty name recommends anything: when one of the names is the
    empty string, the products recommended are the first three of the
    catalog that are not in the cart, whatever the other names; and an
    answer that is empty or all white space, or that ends in a comma, has
    such a name.  When the service fails, the products recommended are
    those of Netflix, Spotify and ChatGPT Plus that are not in the cart. *)
Theorem recommendations_edge_cases (cart : list CartItem.t) (Hcart : cart <> []) :
  (forall names, In "" names ->
     suggested names cart
     = firstn 3 (filter (fun p => negb (existsb (fun c => String.eqb (CartItem.id c)
                                                                     (Product.id p)) cart))
                        PRODUCTS))
  /\ (forall text, JS.trim text = "" ->
        geminiService.getSmartRecommendations (geminiService.Replied (Some text)) = [""])
  /\ (forall text,
        In "" (geminiService.getSmartRecommendations
                 (geminiService.Replied (Some (text ++ ",")))))
  /\ recommendationsFor cart geminiService.Failed
     = filter (fun p => negb (existsb (fun c => String.eqb (CartItem.id c)
                                                           (Product.id p)) cart))
              [netflix_prem; spotify_prem; chatgpt_plus].
Proof.
  assert (Hrec : forall names, suggested names cart
                               = firstn 3 (filter (eligible names cart) PRODUCTS))
    by reflexivity.
  split; [|split; [|split]].
  - intros names Hin. rewrite Hrec. f_equal. apply filter_ext.
    intros p. now apply eligible_any.
  - intros text Htrim. simpl.
    rewrite split_no_separator by (apply trim_empty_no_comma, Htrim).
    simpl. now rewrite Htrim.
  - intros text. simpl.
    change (text ++ ",") with (text ++ String ","%char EmptyString).
    rewrite split_trailing, map_app. apply in_or_app. right. left. reflexivity.
  - unfold recommendationsFor. rewrite Hrec. simpl geminiService.getSmartRecommendations.
    unfold PRODUCTS. cbn [filter]. unfold eligible.
    repeat match goal with
    | |- context [existsb ?f ["Netflix"; "Spotify"; "ChatGPT"]] =>
        let b := eval vm_compute in (existsb f ["Netflix"; "Spotify"; "ChatGPT"]) in
        change (existsb f ["Netflix"; "Spotify"; "ChatGPT"]) with b
    end.
    cbn [andb].
    destruct (negb (existsb _ cart)); destruct (negb (existsb _ cart));
      destruct (negb (existsb _ cart)); reflexivity.
Qed.

Lemma recommendations_edge_cases_witness :
  sampleCart <> []
  /\ map Product.id (recommendationsFor sampleCart geminiService.Failed)
     = ["netflix-prem"; "spotify-prem"].
Proof.
  assert (H : sampleCart <> []) by discriminate.
  split; [exact H|].
  rewrite (proj2 (proj2 (proj2 (recommendations_edge_cases sampleCart H)))).
  reflexivity.
Defined.

(** ** Widening the query *)

Lemma includes_trans (s t u : string) :
  JS.includes s t = true -> JS.includes t u = true -> JS.includes s u = true.
Proof.
  rewrite !includes_iff. intros (a & b & ->) (a' & b' & ->).
  exists (a ++ a'), (b' ++ b). now rewrite !string_app_assoc.
Qed.

Lemma includes_toLowerCase (t u : string) :
  JS.includes t u = true ->
  JS.includes (JS.toLowerCase t) (JS.toLowerCase u) = true.
Proof.
  rewrite !includes_iff. intros (a & b & ->).
  exists (JS.toLowerCase a), (JS.toLowerCase b). now rewrite !toLowerCase_app.
Qed.

Lemma filteredProducts_In (localeCompare : string -> string -> Z) (s : State)
    (p : Product.t) :
  In p (filteredProducts localeCompare s) <-> In p (products s) /\ matches s p = true.
Proof.
  rewrite <- filter_In. split; apply Permutation_in.
  - apply Permutation_sym, filteredProducts_Permutation.
  - apply filteredProducts_Permutation.
Qed.

(** X12. A wider query loses nothing: every product listed for a query is
    listed for a query on the same catalog with a search text that occurs
    in the first one's, the same category or All, a price range that
    contains the first one's, a rating threshold that is not higher and no
    stock condition the first does not have.  So typing more into the
    search box can only take products away, and the empty search text
    takes none. *)
Theorem widening (localeCompare : string -> string -> Z) (wide narrow : State)
    (p : Product.t) (term more : string) (Hw : wider wide narrow) :
  (In p (filteredProducts localeCompare narrow) ->
   In p (filteredProducts localeCompare wide))
  /\ (In p (filteredProducts localeCompare (setSearchQuery (term ++ more) narrow)) ->
      In p (filteredProducts localeCompare (setSearchQuery term narrow)))
  /\ matchesSearch (setSearchQuery "" narrow) p = true.
Proof.
  assert (Hgen : forall w n, wider w n ->
            In p (filteredProducts localeCompare n) ->
            In p (filteredProducts localeCompare w)).
  { intros w n (Hprod & _ & Hq & Hcat & Hlo & Hhi & Hrate & Hstock).
    rewrite !filteredProducts_In, Hprod. intros [Hin Hm]. split; [exact Hin|].
    unfold matches, matchesSearch, matchesPrice, matchesRating in *.
    rewrite !andb_true_iff in *.
    rewrite matchesCategory_iff, matchesStock_iff, !Qle_bool_iff in *.
    destruct Hm as ((((Hs & Hc) & (Hp1 & Hp2)) & Hr) & Hst).
    repeat split.
    - eapply includes_trans; [exact Hs | apply includes_toLowerCase, Hq].
    - destruct Hcat as [Hcat|Hcat]; [left; exact Hcat | rewrite Hcat; exact Hc].
    - lra.
    - lra.
    - lra.
    - intros H. apply Hst, Hstock, H. }
  split; [apply Hgen, Hw|]. split.
  - apply Hgen. unfold wider. simpl.
    repeat split; try reflexivity; try (right; reflexivity); try lra; try tauto.
    apply includes_iff. exists "", more. reflexivity.
  - unfold matchesSearch. simpl. apply includes_empty.
Qed.

Lemma widening_witness :
  wider sampleWide sampleNarrow
  /\ (In netflix_prem (filteredProducts ordinalCompare sampleNarrow) ->
      In netflix_prem (filteredProducts ordinalCompare sampleWide)).
Proof.
  assert (H : wider sampleWide sampleNarrow).
  { unfold wider, sampleWide, sampleNarrow. simpl.
    repeat split; try reflexivity; try (left; reflexivity); try discriminate;
      unfold Qle; simpl; lia. }
  split; [exact H|].
  exact (proj1 (widening ordinalCompare sampleWide sampleNarrow netflix_prem "" "" H)).
Defined.

(** X13. The sort order changes neither which products are listed nor how
    many: the lists for two sort orders are rearrangements of one another,
    of the length the results counter shows, and "featured" lists the
    products that match in the order of the catalog. *)
Theorem sort_keeps_results (localeCompare : string -> string -> Z)
    (o : SortOption) (s : State) :
  Permutation (filteredProducts localeCompare s)
              (filteredProducts localeCompare (setSortBy o s))
  /\ List.length (filteredProducts localeCompare (setSortBy o s))
     = List.length (filteredProducts localeCompare s)
  /\ filteredProducts localeCompare (setSortBy featured s)
     = filter (matches s) (products s)
  /\ Subsequence (filteredProducts localeCompare (setSortBy featured s)) (products s)
  /\ (List.length (filteredProducts localeCompare s) <= List.length (products s))%nat.
Proof.
  assert (H : Permutation (filteredProducts localeCompare s)
                          (filteredProducts localeCompare (setSortBy o s))).
  { eapply perm_trans; [apply Permutation_sym, filteredProducts_Permutation|].
    apply (filteredProducts_Permutation localeCompare (setSortBy o s)). }
  split; [exact H|]. split; [symmetry; apply Permutation_length, H|].
  split; [reflexivity|]. split; [apply Subsequence_filter|].
  rewrite <- (Permutation_length (filteredProducts_Permutation localeCompare s)).
  apply filter_length_le.
Qed.

(** ** The sale badge *)

(** X14. For a product with an original price of a cent or more and a
    price between 0 and the original price, the sale badge shows a whole
    percentage between 0 and 100, which is 0 when the two prices are equal:
    every step of the computation is rounded by the machine, and the
    rounding keeps each intermediate result within its bounds. *)
Theorem discountPercent_bounds (product : Product.t)
    (Horiginal : (1 # 100 <= Product.originalPrice product)%Q)
    (Hprice : (0 <= Product.price product)%Q)
    (Hsale : (Product.price product <= Product.originalPrice product)%Q) :
  0 <= discountPercent product <= 100
  /\ ((Product.price product == Product.originalPrice product)%Q ->
      discountPercent product = 0).
Proof.
  unfold discountPercent, JSMath.round, JSNumber.mul, JSNumber.div, JSNumber.sub.
  cbv zeta.
  assert (Hcent : (0 < JSNumber.binary64 (1 # 100))%Q) by reflexivity.
  pose proof (binary64_le _ _ Horiginal) as Ho.
  pose proof (binary64_nonneg _ Hprice) as Hp0.
  pose proof (binary64_le _ _ Hsale) as Hpo.
  pose proof (binary64_idempotent (Product.originalPrice product)) as Hidem.
  set (o := JSNumber.binary64 (Product.originalPrice product)) in *.
  set (p := JSNumber.binary64 (Product.price product)) in *.
  assert (Hopos : (0 < o)%Q) by lra.
  (* the difference *)
  assert (Hd : (0 <= JSNumber.binary64 (o - p) /\ JSNumber.binary64 (o - p) <= o)%Q).
  { split; [apply binary64_nonneg; lra|].
    rewrite <- Hidem at 2. apply binary64_le. lra. }
  set (d := JSNumber.binary64 (o - p)) in *. destruct Hd as [Hd0 Hd1].
  (* the quotient *)
  assert (Hq : (0 <= d / o /\ d / o <= 1)%Q).
  { split; [apply Qle_shift_div_l | apply Qle_shift_div_r]; lra. }
  destruct Hq as [Hq0 Hq1].
  assert (Hr : (0 <= JSNumber.binary64 (d / o) /\ JSNumber.binary64 (d / o) <= 1)%Q).
  { split; [apply binary64_nonneg, Hq0|].
    change 1%Q with (inject_Z 1). rewrite <- (binary64_Z 1) by (vm_compute; discriminate).
    apply binary64_le, Hq1. }
  set (r := JSNumber.binary64 (d / o)) in *. destruct Hr as [Hr0 Hr1].
  (* the percentage *)
  assert (Hm : (0 <= JSNumber.binary64 (r * 100)
                /\ JSNumber.binary64 (r * 100) <= 100)%Q).
  { split; [apply binary64_nonneg; lra|].
    change 100%Q with (inject_Z 100) at 2.
    rewrite <- (binary64_Z 100) by (vm_compute; discriminate).
    apply binary64_le. change (inject_Z 100) with 100%Q. lra. }
  set (m := JSNumber.binary64 (r * 100)) in *. destruct Hm as [Hm0 Hm1].
  pose proof (Qfloor_le (m + (1 # 2))) as Hle.
  pose proof (Qlt_floor (m + (1 # 2))) as Hlt.
  set (n := Qfloor (m + (1 # 2))) in *.
  rewrite inject_Z_plus in Hlt.
  assert (Hz : forall a b : Z, (inject_Z a < inject_Z b + 1)%Q -> a <= b).
  { intros a b H. apply Z.lt_succ_r. rewrite Zlt_Qlt. unfold Z.succ.
    rewrite inject_Z_plus. exact H. }
  split; [split|].
  - apply Hz. Qconst. lra.
  - apply Hz. change (inject_Z 100) with 100%Q. Qconst. lra.
  - intros Heq.
    assert (Hsame : p = o) by (apply binary64_comp, Heq).
    assert (Hd' : d = 0%Q) by (apply binary64_zero; rewrite Hsame; ring).
    assert (Hr' : r = 0%Q).
    { apply binary64_zero. rewrite Hd'. unfold Qdiv. ring. }
    assert (Hm' : m = 0%Q) by (apply binary64_zero; rewrite Hr'; ring).
    subst n. rewrite Hm'. reflexivity.
Qed.

Lemma discountPercent_bounds_witness :
  (1 # 100 <= Product.originalPrice netflix_prem)%Q
  /\ (0 <= Product.price netflix_prem)%Q
  /\ (Product.price netflix_prem <= Product.originalPrice netflix_prem)%Q
  /\ 0 <= discountPercent netflix_prem <= 100.
Proof.
  assert (H1 : (1 # 100 <= Product.originalPrice netflix_prem)%Q)
    by (unfold Qle; simpl; lia).
  assert (H2 : (0 <= Product.price netflix_prem)%Q) by (unfold Qle; simpl; lia).
  assert (H3 : (Product.price netflix_prem <= Product.originalPrice netflix_prem)%Q)
    by (unfold Qle; simpl; lia).
  split; [exact H1|]. split; [exact H2|]. split; [exact H3|].
  exact (proj1 (discountPercent_bounds netflix_prem H1 H2 H3)).
Defined.

(** From 40 to 17 the exact percentage is 57.5, which would show as 58;
    the machine's is just below, and the badge shows 57.  Netflix Premium,
    from 19.99 to 4.99, shows 75. *)
Example discountPercent_runs :
  discountPercent saleSample = 57
  /\ JSMath.round ((40 - 17) / 40 * 100) = 58
  /\ discountPercent netflix_prem = 75.
Proof. vm_compute. repeat split. Qed.

(** ** Adding all the recommendations *)

Lemma suggested_Subsequence (names : list string) (cart : list CartItem.t) :
  Subsequence (suggested names cart) PRODUCTS.
Proof.
  unfold suggested, JSArray.slice0.
  eapply Subsequence_trans; [apply Subsequence_firstn | apply Subsequence_filter].
Qed.

Lemma suggested_not_in_cart (names : list string) (cart : list CartItem.t)
    (p : Product.t) :
  In p (suggested names cart) -> ~ In (Product.id p) (map CartItem.id cart).
Proof.
  unfold suggested, JSArray.slice0, JSArray.some. intros H.
  eapply Subsequence_In in H; [|apply Subsequence_firstn].
  apply filter_In in H. destruct H as [_ H].
  apply andb_true_iff in H. destruct H as [_ H].
  now apply negb_true_iff, existsb_eqb_id in H.
Qed.

Lemma cart_ids_addToCart (product : Product.t) (a : Z) (s : State) (x : string) :
  In x (map CartItem.id (cart (addToCart product a s)))
  <-> In x (map CartItem.id (cart s)) \/ x = Product.id product.
Proof.
  destruct (in_dec string_dec (Product.id product) (map CartItem.id (cart s)))
    as [Hin|Hout].
  - rewrite cart_addToCart_present by exact Hin.
    rewrite (map_ids_kept _ (fun item => CartItem.quantity item + a)).
    split; [tauto | intros [H | ->]; assumption].
  - rewrite cart_addToCart_fresh by exact Hout.
    rewrite map_app, in_app_iff. simpl. unfold CartItem.id at 2. simpl.
    intuition congruence.
Qed.

Lemma handleAddAll_ids (recs : list Product.t) (s : State) (x : string) :
  In x (map CartItem.id (cart (handleAddAll recs s)))
  <-> In x (map CartItem.id (cart s)) \/ In x (map Product.id recs).
Proof.
  unfold handleAddAll. revert s. induction recs as [|p r IH]; intros s; simpl.
  - tauto.
  - rewrite IH, cart_ids_addToCart. intuition congruence.
Qed.

Lemma handleAddAll_fresh (recs : list Product.t) (s : State) :
  NoDup (map Product.id recs) ->
  (forall p, In p recs -> ~ In (Product.id p) (map CartItem.id (cart s))) ->
  cart (handleAddAll recs s)
  = (cart s ++ map (fun p => CartItem.mk p 1) recs)%list.
Proof.
  unfold handleAddAll. revert s. induction recs as [|p r IH]; intros s Hnd Hfresh; simpl.
  - now rewrite app_nil_r.
  - inversion Hnd as [|? ? Hp Hr]; subst.
    rewrite IH; [|exact Hr|].
    + rewrite cart_addToCart_fresh by (apply Hfresh; left; reflexivity).
      now rewrite <- app_assoc.
    + intros q Hq Hin. apply cart_ids_addToCart in Hin.
      destruct Hin as [Hin|Heq].
      * apply (Hfresh q); [right; exact Hq | exact Hin].
      * apply Hp. rewrite <- Heq. now apply in_map.
Qed.

(** X15. "Add all" on the recommendations computed for the cart as it is
    appends one line of quantity 1 for each, in their order; whatever the
    recommendations shown, afterwards the cart holds the id of each of them,
    so none of them is recommended for the new cart, whatever the names. *)
Theorem handleAddAll_spec (names names' : list string) (recs : list Product.t)
    (s : State) :
  cart (handleAddAll (suggested names (cart s)) s)
  = (cart s ++ map (fun p => CartItem.mk p 1) (suggested names (cart s)))%list
  /\ (forall p, In p recs ->
        In (Product.id p) (map CartItem.id (cart (handleAddAll recs s))))
  /\ (forall p, In p recs ->
        ~ In p (suggested names' (cart (handleAddAll recs s))))
  /\ (forall x, In x (map CartItem.id (cart s)) ->
        In x (map CartItem.id (cart (handleAddAll recs s)))).
Proof.
  split; [|split; [|split]].
  - apply handleAddAll_fresh.
    + eapply Subsequence_NoDup; [|apply PRODUCTS_ids_NoDup].
      apply Subsequence_map, suggested_Subsequence.
    + intros p. apply suggested_not_in_cart.
  - intros p Hp. apply handleAddAll_ids. right. now apply in_map.
  - intros p Hp Hs. apply suggested_not_in_cart in Hs. apply Hs.
    apply handleAddAll_ids. right. now apply in_map.
  - intros x Hx. apply handleAddAll_ids. left. exact Hx.
Qed.

(** ** Reloading the page *)

Lemma mount_persist (s : State) :
  mount (persist s)
  = Normal (Some (setRecentlyViewedIds (fun _ => recentlyViewedIds s)
                    (setWishlist (fun _ => wishlist s) initial))).
Proof.
  unfold mount, persistenceInit, persist.
  cbn [viralyn_wishlist viralyn_recently].
  rewrite !loadEntry_stringify. cbn [app applyCalls applyCall].
  rewrite as_string_array_of_strings. cbn [option_map].
  rewrite as_string_array_of_strings. reflexivity.
Qed.

Lemma reload_eq (s : State) :
  reload s = setRecentlyViewedIds (fun _ => recentlyViewedIds s)
               (setWishlist (fun _ => wishlist s) initial).
Proof. unfold reload. now rewrite mount_persist. Qed.

(** X16. A reload never fails on what the page itself stored, and it keeps
    the wishlist and the recently viewed list and nothing else: the cart is
    empty again, the catalog is the seed catalog again, without the reviews
    that were added, the modal is closed and the filters are back to their
    defaults.  What is stored after the reload is what was stored before,
    and a second reload changes nothing; the first load, with nothing
    stored, gives the initial state. *)
Theorem reload_spec (s : State) :
  mount (persist s) = Normal (Some (reload s))
  /\ wishlist (reload s) = wishlist s
  /\ recentlyViewedIds (reload s) = recentlyViewedIds s
  /\ cart (reload s) = []
  /\ products (reload s) = PRODUCTS
  /\ selectedProduct (reload s) = None
  /\ reload s = setRecentlyViewedIds (fun _ => recentlyViewedIds s)
                  (setWishlist (fun _ => wishlist s) initial)
  /\ persist (reload s) = persist s
  /\ reload (reload s) = reload s
  /\ mount (mkStorage None None) = Normal (Some initial).
Proof.
  rewrite reload_eq. split; [apply mount_persist|].
  repeat (split; [reflexivity|]). split; [|reflexivity].
  rewrite reload_eq. reflexivity.
Qed.

(** ** What every state of a visit satisfies *)

Lemma listed_seed (p : Product.t) : In p PRODUCTS -> listed p.
Proof. intros H. exists p. split; [exact H | apply sameListing_refl]. Qed.

Lemma listed_id (p : Product.t) : listed p -> In (Product.id p) seedIds.
Proof.
  intros (p0 & Hin & Hs). destruct Hs as (Hid & _). rewrite Hid.
  unfold seedIds. now apply in_map.
Qed.

Lemma Forall2_In_r {A B : Type} (R : A -> B -> Prop) (l : list A) (l' : list B)
    (y : B) :
  Forall2 R l l' -> In y l' -> exists x, In x l /\ R x y.
Proof.
  induction 1 as [|a b l l' Hab H IH]; simpl; [contradiction|].
  intros [<-|Hy].
  - exists a. auto.
  - destruct (IH Hy) as (x & Hx & Hr). exists x. auto.
Qed.

Lemma catalog_listed (products : list Product.t) (selected : option Product.t)
    (p : Product.t) :
  catalogOk products selected -> In p products -> listed p.
Proof. intros (H & _) Hp. exact (Forall2_In_r _ _ _ _ H Hp). Qed.

Lemma catalog_ids (products : list Product.t) (selected : option Product.t) :
  catalogOk products selected -> map Product.id products = seedIds.
Proof.
  intros (H & _). unfold seedIds.
  induction H as [|p0 p l0 l Hs H IH]; simpl; [reflexivity|].
  destruct Hs as (Hid & _). now rewrite Hid, IH.
Qed.

Lemma seed_fiveStar : Forall fiveStar PRODUCTS.
Proof.
  unfold PRODUCTS, fiveStar.
  repeat (constructor; [split; [repeat constructor; simpl; lia
                               | split; unfold Qle; simpl; lia]|]).
  constructor.
Qed.

Lemma nth_error_In' {A : Type} (l : list A) (i : nat) (x : A) :
  nth_error l i = Some x -> In x l.
Proof. apply nth_error_In. Qed.

Lemma stars_range (i : nat) : 1 <= nth i stars 5 <= 5.
Proof.
  unfold stars. do 5 (destruct i as [|i]; [simpl; lia|]). destruct i; simpl; lia.
Qed.

(** *** The cart *)

Lemma Forall_kept {A : Type} (P : A -> Prop) (f : A -> bool) (l : list A) :
  Forall P l -> Forall P (filter f l).
Proof.
  induction 1 as [|x l Hx H IH]; simpl; [constructor|].
  destruct (f x); [constructor; assumption | exact IH].
Qed.

Lemma addToCart_Forall (P : CartItem.t -> Prop) (product : Product.t) (q : Z)
    (s : State) :
  Forall P (cart s) ->
  P (CartItem.mk product q) ->
  (forall item, P item -> P (CartItem.mk (CartItem.product item) (CartItem.quantity item + q))) ->
  Forall P (cart (addToCart product q s)).
Proof.
  intros Hall Hnew Hup. unfold addToCart. simpl.
  destruct (find _ (cart s)).
  - apply Forall_map. eapply Forall_impl; [|exact Hall].
    intros item Hitem. destruct (String.eqb (CartItem.id item) (Product.id product)); auto.
  - apply Forall_app. split; [exact Hall | repeat constructor; exact Hnew].
Qed.

Lemma cartOk_addToCart (product : Product.t) (q : Z) (s : State) :
  cartOk (cart s) -> listed product -> 1 <= q ->
  cartOk (cart (addToCart product q s)).
Proof.
  intros (Hnd & Hq & Hl) Hp Hpos. split; [|split].
  - apply addToCart_NoDup, Hnd.
  - apply addToCart_Forall; [exact Hq | simpl; lia | simpl; intros; lia].
  - apply addToCart_Forall; [exact Hl | exact Hp | simpl; auto].
Qed.

Lemma cartOk_removeFromCart (id : string) (s : State) :
  cartOk (cart s) -> cartOk (cart (removeFromCart id s)).
Proof.
  intros (Hnd & Hq & Hl). unfold removeFromCart. simpl. split; [|split].
  - eapply Subsequence_NoDup; [apply filter_ids | exact Hnd].
  - apply Forall_kept, Hq.
  - apply Forall_kept, Hl.
Qed.

Lemma cartOk_updateQuantity (id : string) (q : Z) (s : State) :
  cartOk (cart s) -> cartOk (cart (updateQuantity id q s)).
Proof.
  intros H. unfold updateQuantity.
  destruct (Z.leb_spec q 0) as [Hle|Hgt]; [apply cartOk_removeFromCart, H|].
  destruct H as (Hnd & Hq & Hl). simpl. split; [|split].
  - rewrite (map_ids_kept _ (fun _ => q)). exact Hnd.
  - apply Forall_map. eapply Forall_impl; [|exact Hq].
    intros item Hitem. simpl in Hitem.
    destruct (String.eqb (CartItem.id item) id); simpl; lia.
  - apply Forall_map. eapply Forall_impl; [|exact Hl].
    intros item Hitem. destruct (String.eqb (CartItem.id item) id); simpl; exact Hitem.
Qed.

Lemma cartOk_handleAddAll (recs : list Product.t) (s : State) :
  cartOk (cart s) -> (forall p, In p recs -> listed p) ->
  cartOk (cart (handleAddAll recs s)).
Proof.
  unfold handleAddAll. revert s. induction recs as [|p r IH]; intros s H Hl; simpl.
  - exact H.
  - apply IH; [|intros x Hx; apply Hl; right; exact Hx].
    apply cartOk_addToCart; [exact H | apply Hl; left; reflexivity | lia].
Qed.

(** *** The history and the wishlist *)

Lemma historyOk_track (p : Product.t) (s : State) :
  historyOk (recentlyViewedIds s) -> In (Product.id p) seedIds ->
  historyOk (recentlyViewedIds (trackRecentlyViewed p s)).
Proof.
  intros (Hnd & Hlen & Hincl) Hp. split; [|split].
  - apply track_NoDup, Hnd.
  - apply track_length.
  - rewrite recentlyViewedIds_track. intros x Hx.
    eapply Subsequence_In in Hx; [|apply Subsequence_firstn].
    destruct Hx as [<-|Hx]; [exact Hp|].
    apply in_remove in Hx. apply Hincl, Hx.
Qed.

Lemma historyOk_handleAddAll (recs : list Product.t) (s : State) :
  historyOk (recentlyViewedIds s) -> (forall p, In p recs -> listed p) ->
  historyOk (recentlyViewedIds (handleAddAll recs s)).
Proof.
  unfold handleAddAll. revert s. induction recs as [|p r IH]; intros s H Hl; simpl.
  - exact H.
  - apply IH; [|intros x Hx; apply Hl; right; exact Hx].
    change (recentlyViewedIds (addToCart p 1 s))
      with (recentlyViewedIds (trackRecentlyViewed p s)).
    apply historyOk_track; [exact H | apply listed_id, Hl; left; reflexivity].
Qed.

Lemma wishlistOk_toggle (id : string) (s : State) :
  wishlistOk (wishlist s) -> In id seedIds ->
  wishlistOk (wishlist (toggleWishlist id s)).
Proof.
  intros (Hnd & Hincl) Hid. rewrite wishlist_toggle.
  destruct (JSArray.includes id (wishlist s)) eqn:E; split.
  - rewrite <- filter_neqb_remove. apply NoDup_filter, Hnd.
  - intros x Hx. apply in_remove in Hx. apply Hincl, Hx.
  - apply includes_not_In in E.
    apply NoDup_app; [exact Hnd | repeat constructor; simpl; tauto|].
    intros x Hx [Hx'|[]]. subst x. contradiction.
  - intros x Hx. apply in_app_or in Hx.
    destruct Hx as [Hx|[<-|[]]]; [apply Hincl, Hx | exact Hid].
Qed.

(** *** The catalog *)

Lemma fiveStar_withReview (review : Review.t) (p : Product.t) :
  1 <= Review.rating review <= 5 -> fiveStar p -> fiveStar (withReview review p).
Proof.
  intros Hr (Hall & _).
  assert (H : Forall (fun r => 1 <= Review.rating r <= 5)
                     (review :: userReviewsOrEmpty p)) by (constructor; assumption).
  split; [exact H|].
  change (Product.rating (withReview review p))
    with (newRating (review :: userReviewsOrEmpty p)).
  apply (newRating_bounds _ 1 5);
    [discriminate | vm_compute; discriminate | vm_compute; discriminate | exact H].
Qed.

Lemma catalogOk_handleAddReview (productId : string) (review : Review.t)
    (s : State) :
  1 <= Review.rating review <= 5 ->
  catalogOk (products s) (selectedProduct s) ->
  catalogOk (products (handleAddReview productId review s))
            (selectedProduct (handleAddReview productId review s)).
Proof.
  intros Hr (Hcat & Hstars & Hsel).
  rewrite handleAddReview_products. split; [|split].
  - clear Hstars Hsel. induction Hcat as [|p0 p l0 l Hs H IH]; simpl; constructor.
    + destruct (String.eqb (Product.id p) productId); [|exact Hs].
      eapply sameListing_trans; [exact Hs | apply sameListing_withReview].
    + exact IH.
  - apply Forall_map. eapply Forall_impl; [|exact Hstars].
    intros p Hp. destruct (String.eqb (Product.id p) productId);
      [apply fiveStar_withReview; assumption | exact Hp].
  - unfold handleAddReview. simpl. intros p'.
    destruct (selectedProduct s) as [p|]; [|discriminate].
    specialize (Hsel p eq_refl).
    intros Hp'. apply in_map_iff. exists p. split; [|exact Hsel].
    destruct (String.eqb (Product.id p) productId); congruence.
Qed.

Lemma catalogOk_select (products : list Product.t) (selected selected' : option Product.t) :
  catalogOk products selected ->
  (forall p, selected' = Some p -> In p products) ->
  catalogOk products selected'.
Proof. intros (H1 & H2 & _) H. repeat split; assumption. Qed.

(** *** Events, reloads, visits *)

Ltac inv_split := split; [|split; [|split; [|split]]].

Lemma Inv_initial : Inv initial.
Proof.
  inv_split.
  - split; [|split; [apply seed_fiveStar | discriminate]].
    simpl. unfold PRODUCTS. repeat (constructor; [apply sameListing_refl|]). constructor.
  - repeat split; constructor.
  - repeat split; [constructor | simpl; lia | intros x []].
  - split; [constructor | intros x []].
  - split; [exists 50; split; [reflexivity | lia] | exists 0; split; [left|]; reflexivity].
Qed.

Lemma Inv_addToCart (product : Product.t) (q : Z) (s : State) :
  Inv s -> listed product -> 1 <= q -> Inv (addToCart product q s).
Proof.
  intros (Hc & Hk & Hh & Hw & Hf) Hp Hq. inv_split.
  - exact Hc.
  - now apply cartOk_addToCart.
  - apply (historyOk_track product s Hh), listed_id, Hp.
  - exact Hw.
  - exact Hf.
Qed.

Lemma Inv_updateQuantity (id : string) (q : Z) (s : State) :
  Inv s -> Inv (updateQuantity id q s).
Proof.
  intros (Hc & Hk & Hh & Hw & Hf).
  pose proof (cartOk_updateQuantity id q s Hk) as Hk'.
  unfold updateQuantity in *.
  destruct (q <=? 0); inv_split; assumption.
Qed.

Lemma Inv_handleSubmitReview (now today : string) (product : Product.t)
    (m : ModalState) (s : State) :
  1 <= reviewRating m <= 5 -> Inv s ->
  Inv (snd (handleSubmitReview now today product m s)).
Proof.
  intros Hr Hinv. unfold handleSubmitReview.
  destruct (negb (JS.truthy (JS.trim (reviewComment m)))); [exact Hinv|].
  cbn [snd]. destruct Hinv as (Hc & Hk & Hh & Hw & Hf).
  inv_split; try assumption.
  apply catalogOk_handleAddReview; [exact Hr | exact Hc].
Qed.

Lemma Inv_fire (localeCompare : string -> string -> Z) (s : State) (e : event) :
  Inv s -> Inv (fire localeCompare s e).
Proof.
  intros Hinv. pose proof Hinv as (Hc & Hk & Hh & Hw & Hf).
  destruct e; cbn [fire].
  - (* Search *) exact Hinv.
  - (* OpenCart *) exact Hinv.
  - (* PickCategory *) exact Hinv.
  - (* PickSort *) exact Hinv.
  - (* ToggleFilters *) exact Hinv.
  - (* SlidePrice *)
    destruct (Nat.leb_spec notch 10); [|exact Hinv].
    inv_split; try assumption.
    split; [|apply Hf]. exists (5 * Z.of_nat notch). split; [reflexivity | lia].
  - (* PickMinRating *)
    destruct (nth_error ratingSteps i) as [r|] eqn:E; [|exact Hinv].
    inv_split; try assumption.
    split; [apply Hf|]. exists r. split; [eapply nth_error_In, E | reflexivity].
  - (* ToggleStockOnly *) exact Hinv.
  - (* CardQuickView *)
    destruct (nth_error (filteredProducts localeCompare s) i) as [p|] eqn:E; [|exact Hinv].
    apply nth_error_In, filteredProducts_In in E. destruct E as [Hp _].
    inv_split; try assumption.
    + eapply catalogOk_select; [exact Hc|]. simpl. intros x [= <-]. exact Hp.
    + apply (historyOk_track p _ Hh), listed_id. eapply catalog_listed; eassumption.
  - (* CardWishlist *)
    destruct (nth_error (filteredProducts localeCompare s) i) as [p|] eqn:E; [|exact Hinv].
    apply nth_error_In, filteredProducts_In in E. destruct E as [Hp _].
    inv_split; try assumption.
    apply (wishlistOk_toggle _ s Hw), listed_id. eapply catalog_listed; eassumption.
  - (* CardAdd *)
    destruct (nth_error (filteredProducts localeCompare s) i) as [p|] eqn:E; [|exact Hinv].
    apply nth_error_In, filteredProducts_In in E. destruct E as [Hp _].
    apply Inv_addToCart; [exact Hinv | | apply stepperRun_positive].
    eapply catalog_listed; eassumption.
  - (* ModalClose *)
    inv_split; try assumption.
    eapply catalogOk_select; [exact Hc | discriminate].
  - (* ModalAdd *)
    destruct (selectedProduct s) as [p|] eqn:E; [|exact Hinv].
    assert (Hp : In p (products s)) by (apply Hc; reflexivity).
    assert (Hadd : Inv (addToCart p (stepperRun clicks) s)).
    { apply Inv_addToCart; [exact Hinv | | apply stepperRun_positive].
      eapply catalog_listed; eassumption. }
    destruct Hadd as (Hc' & Hk' & Hh' & Hw' & Hf').
    inv_split; try assumption.
    eapply catalogOk_select; [exact Hc' | discriminate].
  - (* ModalSubmit *)
    destruct (selectedProduct s) as [p|] eqn:E; [|exact Hinv].
    apply Inv_handleSubmitReview; [apply stars_range | exact Hinv].
  - (* DrawerClose *) exact Hinv.
  - (* DrawerMinus *)
    destruct (nth_error (cart s) i) as [item|]; [|exact Hinv].
    apply Inv_updateQuantity, Hinv.
  - (* DrawerPlus *)
    destruct (nth_error (cart s) i) as [item|]; [|exact Hinv].
    apply Inv_updateQuantity, Hinv.
  - (* DrawerRemoved *)
    inv_split; try assumption. apply cartOk_removeFromCart, Hk.
  - (* DrawerAddRecent *)
    destruct (nth_error (recentProductsData s) i) as [p|] eqn:E; [|exact Hinv].
    apply nth_error_In, recentProductsData_In in E.
    apply Inv_addToCart; [exact Hinv | | lia].
    eapply catalog_listed; eassumption.
  - (* DrawerClearHistory *)
    inv_split; try assumption.
    repeat split; [constructor | simpl; lia | intros x []].
  - (* DrawerAddRecommended *)
    destruct (nth_error (suggested names seen) i) as [p|] eqn:E; [|exact Hinv].
    apply nth_error_In in E.
    apply Inv_addToCart; [exact Hinv | | lia].
    apply listed_seed. eapply Subsequence_In; [apply suggested_Subsequence | exact E].
  - (* DrawerAddAll *)
    assert (Hl : forall p, In p (suggested names seen) -> listed p).
    { intros p Hp. apply listed_seed.
      eapply Subsequence_In; [apply suggested_Subsequence | exact Hp]. }
    inv_split.
    + assert (Hsame : forall recs t,
                products (handleAddAll recs t) = products t
                /\ selectedProduct (handleAddAll recs t) = selectedProduct t
                /\ wishlist (handleAddAll recs t) = wishlist t
                /\ priceRange (handleAddAll recs t) = priceRange t
                /\ minRating (handleAddAll recs t) = minRating t).
      { unfold handleAddAll. induction recs as [|p r IH]; intros t; simpl.
        - repeat split.
        - destruct (IH (addToCart p 1 t)) as (H1 & H2 & H3 & H4 & H5).
          rewrite H1, H2, H3, H4, H5. repeat split. }
      destruct (Hsame (suggested names seen) s) as (H1 & H2 & _).
      rewrite H1, H2. exact Hc.
    + apply cartOk_handleAddAll; assumption.
    + apply historyOk_handleAddAll; assumption.
    + assert (Hsame : forall recs t, wishlist (handleAddAll recs t) = wishlist t).
      { unfold handleAddAll. induction recs as [|p r IH]; intros t; simpl;
          [reflexivity | now rewrite IH]. }
      rewrite Hsame. exact Hw.
    + assert (Hsame : forall recs t,
                priceRange (handleAddAll recs t) = priceRange t
                /\ minRating (handleAddAll recs t) = minRating t).
      { unfold handleAddAll. induction recs as [|p r IH]; intros t; simpl.
        - split; reflexivity.
        - destruct (IH (addToCart p 1 t)) as (H4 & H5). now rewrite H4, H5. }
      destruct (Hsame (suggested names seen) s) as (H4 & H5).
      rewrite H4, H5. exact Hf.
Qed.

Lemma Inv_reload (s : State) : Inv s -> Inv (reload s).
Proof.
  intros (Hc & Hk & Hh & Hw & Hf). rewrite reload_eq.
  destruct Inv_initial as (Hc0 & Hk0 & _ & _ & Hf0).
  inv_split; assumption.
Qed.

Lemma Inv_visit (localeCompare : string -> string -> Z) (l : list action) :
  Inv (visit localeCompare l).
Proof.
  unfold visit.
  assert (H : forall s, Inv s -> Inv (fold_left (perform localeCompare) l s)).
  { induction l as [|a r IH]; intros s Hs; simpl; [exact Hs|].
    apply IH. destruct a; [apply Inv_fire | apply Inv_reload]; exact Hs. }
  apply H, Inv_initial.
Qed.

Lemma NoDup_seed_length (ids : list string) :
  NoDup ids -> incl ids seedIds -> (List.length ids <= 6)%nat.
Proof.
  intros Hnd Hincl.
  change 6%nat with (List.length seedIds).
  apply NoDup_incl_length; assumption.
Qed.

Lemma cartCount_lines (c : list CartItem.t) :
  Forall (fun item => 1 <= CartItem.quantity item) c ->
  Z.of_nat (List.length c) <= cartCount c.
Proof.
  induction 1 as [|x r Hx H IH]; [reflexivity|].
  rewrite cartCount_cons. cbn [List.length]. lia.
Qed.

Lemma listed_price (p : Product.t) : listed p -> (0 < Product.price p)%Q.
Proof.
  intros (p0 & Hin & Hs). destruct Hs as (_ & _ & _ & Hprice & _).
  rewrite Hprice. clear Hprice. revert p0 Hin. apply Forall_forall. unfold PRODUCTS.
  repeat (constructor; [reflexivity|]). constructor.
Qed.

Lemma total_nonneg (c : list CartItem.t) :
  Forall (fun item => 1 <= CartItem.quantity item) c ->
  Forall (fun item => listed (CartItem.product item)) c ->
  (inject_Z 0 <= total c)%Q.
Proof.
  intros Hq Hl. unfold total. apply sumFrom_nonneg; [|apply Qle_refl].
  apply Forall_forall. intros item Hitem.
  rewrite Forall_forall in Hq, Hl.
  apply lineAmount_nonneg; [|specialize (Hq item Hitem); lia].
  apply Qlt_le_weak, listed_price, Hl, Hitem.
Qed.

(** X17. The cart in every state of a visit, whatever was clicked and
    however often the page was reloaded: its lines have pairwise different
    ids, each line has a quantity of at least 1 and holds a listing of the
    seed catalog, so there are at most six lines; the count of the badge is
    at least the number of lines, so the badge ([cartCount > 0]) is shown
    exactly when the cart is not empty; and the total is not negative. *)
Theorem visit_cart (localeCompare : string -> string -> Z) (l : list action) :
  let c := cart (visit localeCompare l) in
  NoDup (map CartItem.id c)
  /\ Forall (fun item => 1 <= CartItem.quantity item) c
  /\ Forall (fun item => listed (CartItem.product item)) c
  /\ (List.length c <= 6)%nat
  /\ Z.of_nat (List.length c) <= cartCount c
  /\ ((0 <? cartCount c) = negb (Nat.eqb (List.length c) 0))
  /\ (inject_Z 0 <= total c)%Q.
Proof.
  intros c. destruct (Inv_visit localeCompare l) as (_ & (Hnd & Hq & Hl) & _).
  fold c in Hnd, Hq, Hl.
  assert (Hcount : Z.of_nat (List.length c) <= cartCount c)
    by (apply cartCount_lines, Hq).
  repeat split; try assumption.
  - rewrite <- (length_map CartItem.id). apply NoDup_seed_length; [exact Hnd|].
    intros id Hid. apply in_map_iff in Hid. destruct Hid as (item & <- & Hitem).
    rewrite Forall_forall in Hl. exact (listed_id _ (Hl item Hitem)).
  - destruct c as [|x r]; [reflexivity|].
    cbn [List.length Nat.eqb negb] in *. apply Z.ltb_lt. lia.
  - apply total_nonneg; assumption.
Qed.

(** X18. The catalog in every state of a visit: it has the seed catalog's
    entries in the seed's order, each with the id, name, description,
    prices, image, category, benefits, stock and duration of the seed (only
    rating, review count and reviews ever change); every review has between
    1 and 5 stars and every rating is between 1 and 5; and the product the
    modal shows is an entry of the catalog as it is now, so a review just
    added is in it. *)
Theorem visit_catalog (localeCompare : string -> string -> Z) (l : list action) :
  let s := visit localeCompare l in
  Forall2 sameListing PRODUCTS (products s)
  /\ map Product.id (products s) = seedIds
  /\ Forall fiveStar (products s)
  /\ (forall p, selectedProduct s = Some p -> In p (products s)).
Proof.
  intros s. destruct (Inv_visit localeCompare l) as (Hc & _).
  fold s in Hc. pose proof (catalog_ids _ _ Hc) as Hids.
  destruct Hc as (H1 & H2 & H3). repeat split; assumption.
Qed.

(** X19. The two stored lists in every state of a visit: the wishlist and
    the history hold ids of the catalog, each at most once, so neither has
    more than six entries and the history's cut at ten never drops one; and
    the strip of recently viewed products shows one product for every id of
    the history, in the history's order: [filter(Boolean)] removes
    nothing. *)
Theorem visit_lists (localeCompare : string -> string -> Z) (l : list action) :
  let s := visit localeCompare l in
  NoDup (wishlist s) /\ incl (wishlist s) seedIds
  /\ (List.length (wishlist s) <= 6)%nat
  /\ NoDup (recentlyViewedIds s) /\ incl (recentlyViewedIds s) seedIds
  /\ (List.length (recentlyViewedIds s) <= 6)%nat
  /\ map Product.id (recentProductsData s) = recentlyViewedIds s.
Proof.
  intros s.
  destruct (Inv_visit localeCompare l) as (Hc & _ & (Hh & _ & Hhi) & (Hw & Hwi) & _).
  fold s in Hc, Hh, Hhi, Hw, Hwi.
  repeat split; try assumption.
  - apply NoDup_seed_length; assumption.
  - apply NoDup_seed_length; assumption.
  - apply recentProductsData_all. rewrite (catalog_ids _ _ Hc). exact Hhi.
Qed.

(** X20. The filter settings in every state of a visit: the price range is
    [0, v] for a whole v between 0 and 50, and the rating threshold is one
    of 0, 3, 4, 5.  So for the products of the catalog the lower bound of
    the range rejects nothing, the price test is [price <= v], and with the
    threshold at 0 the rating test passes for all of them. *)
Theorem visit_filters (localeCompare : string -> string -> Z) (l : list action) :
  let s := visit localeCompare l in
  (exists v, priceRange s = (0%Q, inject_Z v) /\ 0 <= v <= 50)
  /\ (exists r, In r ratingSteps /\ minRating s = inject_Z r)
  /\ Forall (fun p => matchesPrice s p
                      = Qle_bool (Product.price p) (snd (priceRange s)))
            (products s)
  /\ Forall (fun p => (minRating s == 0)%Q -> matchesRating s p = true)
            (products s).
Proof.
  intros s.
  destruct (Inv_visit localeCompare l) as (Hc & _ & _ & _ & (Hp & Hr)).
  fold s in Hc, Hp, Hr.
  split; [exact Hp|]. split; [exact Hr|]. split.
  - apply Forall_forall. intros p Hin.
    pose proof (listed_price p (catalog_listed _ _ _ Hc Hin)) as Hpos.
    destruct Hp as (v & Hv & _). unfold matchesPrice. rewrite Hv. cbn [fst snd].
    replace (Qle_bool 0 (Product.price p)) with true; [reflexivity|].
    symmetry. apply Qle_bool_iff. lra.
  - destruct Hc as (_ & Hstars & _).
    eapply Forall_impl; [|exact Hstars].
    intros p (_ & Hlo & _) Hz. unfold matchesRating. apply Qle_bool_iff.
    rewrite Hz. lra.
Qed.

(** The sample visit, run: the reload has emptied the cart and reset the
    catalog (the one-star review is gone), and kept the wishlist and the
    history. *)
Example sampleVisit_run :
  let s := visit ordinalCompare sampleVisit in
  products s = PRODUCTS
  /\ cart s = []
  /\ wishlist s = ["canva-pro"]
  /\ recentlyViewedIds s = ["netflix-prem"; "spotify-prem"]
  /\ selectedProduct s = Some netflix_prem.
Proof. vm_compute. repeat split. Qed.

(** Before the reload the cart held one Spotify and the first entry of the
    catalog had the review, with a rating of 3.3. *)
Example sampleVisit_before_reload :
  let s := visit ordinalCompare (firstn 5 sampleVisit) in
  map (fun item => (CartItem.id item, CartItem.quantity item)) (cart s)
  = [("spotify-prem", 1)]
  /\ option_map Product.rating (selectedProduct s) = Some (33 # 10)%Q
  /\ option_map Product.reviews (selectedProduct s)
     = Some (Product.reviews netflix_prem + 1).
Proof. vm_compute. repeat split. Qed.
